(** * Delivery pipeline of the error-monitor SDK

    A shallow embedding of the TypeScript classes [RingBuffer],
    [BatchQueue], [OfflineCache] and of the capture path of
    [ErrorMonitor], with the properties of the delivery pipeline stated
    and proved over them; [Logger], [PerformanceMonitor] and the manual
    captures of [ErrorMonitorWeb] follow.

    Conventions.  JavaScript objects that are mutated through several
    references (the ring's backing array, the cached reports of the
    offline store, the [lastIndex] of a regular expression) live in an
    explicit store and are named by their address.  Callbacks supplied by the host (the sender, the plugins,
    the custom reporter) are parameters.  Exceptions are results.
    [Date.now()], [Math.random()] and generated ids are arguments.
    Counts and sizes are natural numbers; what the pipeline classes
    write to the console is left out.

    The first part of the file is the embedding, each module ending
    with the notions its properties are stated with; the second part
    states and proves the properties. *)

From Stdlib Require Import QArith.
From stdpp Require Import base list strings gmap.

Set Default Proof Using "Type".

(** ** JavaScript numbers used as array indices

    The ring computes its indices with [%]; a remainder by zero is
    [NaN], which then propagates through [+] and [%]. *)

Module JS.

Inductive num : Type :=
  | Num (n : nat)
  | NaN.

(** [a + i] for a natural [i]. *)
Definition add (a : num) (i : nat) : num :=
  match a with
  | Num n => Num (n + i)
  | NaN => NaN
  end.

(** [a % c] for a natural [c]. *)
Definition rem (a : num) (c : nat) : num :=
  match a with
  | Num n => match c with 0 => NaN | S _ => Num (n mod c) end
  | NaN => NaN
  end.

(** An array object: its indexed elements, [None] being a hole (read as
    [undefined]), and the one non-index property the ring can create,
    the property named "NaN". *)
Record array (T : Type) : Type := mkArray {
  elems : list (option T);
  prop_NaN : option T
}.
Arguments mkArray {T} _ _.
Arguments elems {T} _.
Arguments prop_NaN {T} _.

(** [new Array(n)]: [n] holes. *)
Definition new_Array {T} (n : nat) : array T :=
  mkArray (replicate n None) None.

(** The empty array literal. *)
Definition empty_array {T} : array T := mkArray [] None.

(** [a[i]]: a hole or an index past the end reads as [undefined]. *)
Definition get {T} (a : array T) (i : num) : option T :=
  match i with
  | Num n => mjoin (elems a !! n)
  | NaN => prop_NaN a
  end.

(** [a[i] = x]: an index past the end grows the array, leaving holes. *)
Definition set {T} (a : array T) (i : num) (x : T) : array T :=
  match i with
  | Num n =>
      if decide (n < length (elems a))
      then mkArray (<[n := Some x]> (elems a)) (prop_NaN a)
      else mkArray (elems a ++ replicate (n - length (elems a)) None ++ [Some x])
                   (prop_NaN a)
  | NaN => mkArray (elems a) (Some x)
  end.

End JS.

(** ** History ring: [RingBuffer<T>]

    The items are values of [T]; [undefined], which [toArray] skips, is
    not one of them. *)

Module RingBuffer.

(** The store of array objects; an address is a position in it. *)
Abbreviation arrays T := (list (JS.array T)).

Section Ring.

Context {T : Type}.

Record t : Type := mk {
  buffer : nat;          (* address of the backing array *)
  capacity : nat;
  head : JS.num;
  tail : JS.num;
  _size : nat
}.

(** [new RingBuffer(capacity)] allocates the backing array. *)
Definition new (cap : nat) (h : arrays T) : t * arrays T :=
  (mk (length h) cap (JS.Num 0) (JS.Num 0) 0, h ++ [JS.new_Array cap]).

(** The backing array, as the ring reads it. *)
Definition backing (rb : t) (h : arrays T) : JS.array T :=
  default JS.empty_array (h !! buffer rb).

Definition push (rb : t) (item : T) (h : arrays T) : t * arrays T :=
  let h1 := <[buffer rb := JS.set (backing rb h) (tail rb) item]> h in
  let tail1 := JS.rem (JS.add (tail rb) 1) (capacity rb) in
  if decide (_size rb < capacity rb)
  then (mk (buffer rb) (capacity rb) (head rb) tail1 (S (_size rb)), h1)
  else (mk (buffer rb) (capacity rb)
           (JS.rem (JS.add (head rb) 1) (capacity rb)) tail1 (_size rb), h1).

(** The loop of [toArray]: [i] is the loop counter, [n] the number of
    iterations left, [result] the array built so far. *)
Fixpoint toArray_loop (buf : JS.array T) (hd : JS.num) (cap : nat)
    (i n : nat) (result : list T) : list T :=
  match n with
  | 0 => result
  | S n' =>
      let index := JS.rem (JS.add hd i) cap in
      let result' :=
        match JS.get buf index with
        | Some item => result ++ [item]
        | None => result
        end in
      toArray_loop buf hd cap (S i) n' result'
  end.

(** The sequence [toArray] returns. *)
Definition toArray_items (rb : t) (h : arrays T) : list T :=
  toArray_loop (backing rb h) (head rb) (capacity rb) 0 (_size rb) [].

(** [toArray] returns a newly allocated array: its address, and the
    store with that array in it. *)
Definition toArray (rb : t) (h : arrays T) : nat * arrays T :=
  (length h, h ++ [JS.mkArray (Some <$> toArray_items rb h) None]).

(** [clear] gives the ring a new backing array. *)
Definition clear (rb : t) (h : arrays T) : t * arrays T :=
  (mk (length h) (capacity rb) (JS.Num 0) (JS.Num 0) 0,
   h ++ [JS.new_Array (capacity rb)]).

(** A run of [push] calls, oldest first. *)
Fixpoint pushes (rb : t) (items : list T) (h : arrays T) : t * arrays T :=
  match items with
  | [] => (rb, h)
  | x :: items' => let '(rb', h') := push rb x h in pushes rb' items' h'
  end.

(** The [n] last elements of a list, in order. *)
Definition last_n (n : nat) (l : list T) : list T :=
  drop (length l - n) l.

(** [getSize()]; the getter [length] reads the same field. *)
Definition getSize (rb : t) : nat := _size rb.

(** [get(index)] for an integer [index]. *)
Definition get (rb : t) (index : Z) (h : arrays T) : option T :=
  if decide (index < 0 ∨ Z.of_nat (_size rb) ≤ index)%Z then None
  else JS.get (backing rb h)
              (JS.rem (JS.add (head rb) (Z.to_nat index)) (capacity rb)).

(** The calls that change a ring, as events. *)
Inductive op : Type :=
  | Push (item : T)
  | Clear.

Definition step (o : op) (s : t * arrays T) : t * arrays T :=
  match o with
  | Push item => push s.1 item s.2
  | Clear => clear s.1 s.2
  end.

Definition run (ops : list op) (s : t * arrays T) : t * arrays T :=
  foldl (λ s o, step o s) s ops.

(** The items pushed since the last [Clear], oldest first, given the
    items [l] pushed before the run. *)
Definition since_clear (l : list T) (ops : list op) : list T :=
  foldl (λ l o, match o with Push item => l ++ [item] | Clear => [] end) l ops.

(** *** Notions the properties of the ring are stated with *)

(** The ring of capacity [N] holds the items [l], oldest first: what
    [push] maintains when the capacity is positive. *)
Definition represents (N : nat) (rb : t) (h : arrays T) (l : list T) : Prop :=
  capacity rb = N ∧ _size rb = length l ∧ length l ≤ N ∧ buffer rb < length h ∧
  ∃ hd, head rb = JS.Num hd ∧ hd < N ∧
        tail rb = JS.Num ((hd + length l) mod N) ∧
        length (JS.elems (backing rb h)) = N ∧
        ∀ i, i < length l →
             JS.elems (backing rb h) !! ((hd + i) mod N) = Some (l !! i).

(** What a ring that held [l] holds once [x] is pushed. *)
Definition retain (N : nat) (l : list T) (x : T) : list T :=
  if decide (length l < N) then l ++ [x] else drop 1 l ++ [x].

End Ring.

Arguments op : clear implicits.

End RingBuffer.

(** ** Outcomes of calls into host-supplied code *)

(** What a call of a host callback does, as its caller sees it: it
    returns (a promise that resolves, or a plain value), it returns a
    promise that rejects, or it throws synchronously. *)
Inductive outcome : Type :=
  | Resolves
  | Rejects
  | Throws.

(** How a method of the pipeline completes for its caller. *)
Inductive completion : Type :=
  | Returned
  | Raised.

Global Instance outcome_eq_dec : EqDecision outcome.
Proof. solve_decision. Defined.

Global Instance completion_eq_dec : EqDecision completion.
Proof. solve_decision. Defined.

(** ** Batch aggregator: [BatchQueue]

    The queue lives in a host that has a [window]: the timers below are
    the window's.  The [pagehide] and [beforeunload] listeners the
    constructor registers call [flush]; they are the [Flush] event. *)

Module BatchQueue.

Record BatchQueueConfig : Type := mkConfig {
  batchSize : nat;
  delay : nat;
  enabled : bool
}.

(** The argument of [updateConfig], a [Partial<BatchQueueConfig>]. *)
Record ConfigUpdate : Type := mkUpdate {
  upd_batchSize : option nat;
  upd_delay : option nat;
  upd_enabled : option bool
}.

(** A pending [window.setTimeout] whose callback is this queue's
    [flush]: its id, the time it was set and the delay asked for. *)
Record timer : Type := mkTimer {
  tid : nat;
  setAt : nat;
  after : nat
}.

Section Queue.

Context {Report W : Type}.

(** The sender the queue was constructed with, acting on the world [W]
    outside the queue. *)
Variable sender : list Report -> W -> W * outcome.

Record QueuedReport : Type := mkQueued {
  report : Report;
  timestamp : nat
}.

Record t : Type := mk {
  queue : list QueuedReport;
  config : BatchQueueConfig;
  timerId : option nat
}.

(** The part of the window the queue acts on: the pending delayed-flush
    timers and the next timer id; [calls] records the batches handed to
    the sender, oldest first. *)
Record env : Type := mkEnv {
  timers : list timer;
  next_timer : nat;
  calls : list (list Report)
}.

(** The constructor: falsy [batchSize] and [delay] take the defaults. *)
Definition new (cfg : BatchQueueConfig) : t :=
  mk []
     (mkConfig (if decide (batchSize cfg = 0) then 10 else batchSize cfg)
               (if decide (delay cfg = 0) then 1000 else delay cfg)
               (enabled cfg))
     None.

Definition setTimeout (now ms : nat) (e : env) : nat * env :=
  (next_timer e,
   mkEnv (timers e ++ [mkTimer (next_timer e) now ms]) (S (next_timer e)) (calls e)).

Definition clearTimeout (id : nat) (e : env) : env :=
  mkEnv (filter (λ tm, tid tm ≠ id) (timers e)) (next_timer e) (calls e).

(** [sendReports]: the sender runs inside [try]/[catch] and a rejected
    promise is caught too, so nothing reaches the caller. *)
Definition sendReports (reports : list Report) (e : env) (w : W) : env * W :=
  (mkEnv (timers e) (next_timer e) (calls e ++ [reports]), (sender reports w).1).

Definition flush (q : t) (e : env) (w : W) : t * env * W :=
  let '(q1, e1) :=
    match timerId q with
    | Some id => (mk (queue q) (config q) None, clearTimeout id e)
    | None => (q, e)
    end in
  match queue q1 with
  | [] => (q1, e1, w)
  | _ :: _ =>
      let reports := report <$> queue q1 in
      let '(e2, w2) := sendReports reports e1 w in
      (mk [] (config q1) (timerId q1), e2, w2)
  end.

Definition scheduleFlush (now : nat) (q : t) (e : env) : t * env :=
  match timerId q with
  | Some _ => (q, e)
  | None =>
      let '(id, e1) := setTimeout now (delay (config q)) e in
      (mk (queue q) (config q) (Some id), e1)
  end.

(** [add] at time [now].  With [enabled] cleared the report goes to the
    sender at once, outside any [try]. *)
Definition add (now : nat) (r : Report) (q : t) (e : env) (w : W)
    : t * env * W * completion :=
  if negb (enabled (config q)) then
    let '(w1, o) := sender [r] w in
    (q, mkEnv (timers e) (next_timer e) (calls e ++ [[r]]), w1,
     match o with Throws => Raised | _ => Returned end)
  else
    let q1 := mk (queue q ++ [mkQueued r now]) (config q) (timerId q) in
    if decide (batchSize (config q1) ≤ length (queue q1))
    then (flush q1 e w, Returned)
    else let '(q2, e2) := scheduleFlush now q1 e in (q2, e2, w, Returned).

Definition clear (q : t) (e : env) : t * env :=
  match timerId q with
  | Some id => (mk [] (config q) None, clearTimeout id e)
  | None => (mk [] (config q) (timerId q), e)
  end.

Definition updateConfig (u : ConfigUpdate) (q : t) : t :=
  mk (queue q)
     (mkConfig (default (batchSize (config q)) (upd_batchSize u))
               (default (delay (config q)) (upd_delay u))
               (default (enabled (config q)) (upd_enabled u)))
     (timerId q).

Definition destroy (q : t) (e : env) (w : W) : t * env * W := flush q e w.

(** The timer [id] comes due: the window drops it from its pending
    timers and runs its callback, [flush].  An id that is not pending
    cannot fire. *)
Definition fire (id : nat) (q : t) (e : env) (w : W) : t * env * W :=
  if decide (id ∈ tid <$> timers e)
  then flush q (clearTimeout id e) w
  else (q, e, w).

(** The operations on a queue, as events. *)
Inductive op : Type :=
  | Add (now : nat) (r : Report)
  | Flush
  | Fire (id : nat)
  | Clear
  | UpdateConfig (u : ConfigUpdate)
  | Destroy.

Definition step (o : op) (s : t * env * W) : t * env * W :=
  let '(q, e, w) := s in
  match o with
  | Add now r => (add now r q e w).1
  | Flush => flush q e w
  | Fire id => fire id q e w
  | Clear => let '(q1, e1) := clear q e in (q1, e1, w)
  | UpdateConfig u => (updateConfig u q, e, w)
  | Destroy => destroy q e w
  end.

Definition run (ops : list op) (s : t * env * W) : t * env * W :=
  foldl (λ s o, step o s) s ops.


(** *** Notions the properties of the queue are stated with *)


(** Every pending timer is the one [timerId] names. *)
Definition timers_ok (q : t) (e : env) : Prop :=
  ∀ tm, tm ∈ timers e → timerId q = Some (tid tm).

(** A timer is pending exactly while the queue holds reports, and it
    was set when the first of them was added. *)
Definition timer_inv (q : t) (e : env) : Prop :=
  match timerId q with
  | Some id =>
      ∃ tm first rest, timers e = [tm] ∧ tid tm = id ∧
                       queue q = first :: rest ∧ setAt tm = timestamp first
  | None => timers e = [] ∧ queue q = []
  end.

(** [size()]. *)
Definition size (q : t) : nat := length (queue q).

(** The reports a run of operations adds, in the order of the adds. *)
Definition added (ops : list op) : list Report :=
  omap (λ o, match o with Add _ r => Some r | _ => None end) ops.

(** The reports that reached the sender or wait in the queue, batch
    after batch and then the queue, oldest first. *)
Definition accepted (q : t) (e : env) : list Report :=
  concat (calls e) ++ (report <$> queue q).

(** An operation that neither drops the queue nor switches batching on
    or off. *)
Definition keeps (o : op) : bool :=
  match o with
  | Clear => false
  | UpdateConfig u => bool_decide (upd_enabled u = None)
  | _ => true
  end.

(** An operation that leaves the configuration alone. *)
Definition fixed (o : op) : bool :=
  match o with
  | UpdateConfig _ => false
  | _ => true
  end.

(** While batching is off the queue is empty. *)
Definition idle (q : t) : Prop := enabled (config q) = false → queue q = [].

(** The queue is below the batch size [bs] it was made with, and the
    batches sent since the log was [log] are within it. *)
Definition sized (bs : nat) (log : list (list Report)) (q : t) (e : env) : Prop :=
  batchSize (config q) = bs ∧ length (queue q) < bs
  ∧ ∃ batches, calls e = log ++ batches ∧ Forall (λ b, 1 ≤ length b ≤ bs) batches.

End Queue.

Arguments t : clear implicits.
Arguments QueuedReport : clear implicits.
Arguments env : clear implicits.
Arguments op : clear implicits.

End BatchQueue.

(** ** Durable offline store: [OfflineCache]

    The [online] and [offline] listeners the constructor registers call
    [handleOnline] and [handleOffline]; they are the [Online] and
    [Offline] events. *)

Module OfflineCache.

Record OfflineCacheConfig : Type := mkConfig {
  maxCacheSize : nat;
  enabled : bool;
  storageKey : string
}.

Section Cache.

Context {Report W : Type}.

(** The sender the store was constructed with. *)
Variable sender : Report -> W -> W * outcome.

Record CachedReport : Type := mkCached {
  report : Report;
  timestamp : nat;
  retryCount : nat
}.

(** The string kept under the store's key: the JSON text of an array of
    cached reports, or text that [JSON.parse] rejects. *)
Inductive stored : Type :=
  | Json (items : list CachedReport)
  | Unparsable.

(** [localStorage], as far as the store uses it: the item under its
    key, whether [setItem] throws (quota exhausted), and the record of
    the arrays written by [setItem], oldest first. *)
Record Storage : Type := mkStorage {
  item : option stored;
  setItem_throws : bool;
  writes : list (list CachedReport)
}.

(** The objects the store shares between its queue and the array a
    retry pass walks: [heap] holds the [CachedReport] objects, an
    address being a position in it.  [storage] is [None] where
    [localStorage] is undefined.  [attempts] records the reports handed
    to the sender, oldest first. *)
Record env : Type := mkEnv {
  heap : list CachedReport;
  storage : option Storage;
  attempts : list Report
}.

Record t : Type := mk {
  config : OfflineCacheConfig;
  cacheQueue : list nat;      (* addresses of CachedReport objects *)
  isOnline : bool
}.

(** The cached reports the queue holds, read through the heap. *)
Definition contents (q : list nat) (h : list CachedReport) : list CachedReport :=
  omap (λ a, h !! a) q.

(** [saveToStorage]: serialise the whole queue under the key; a missing
    [localStorage] or a throwing [setItem] leaves the storage as it is. *)
Definition saveToStorage (c : t) (e : env) : env :=
  match storage e with
  | None => e
  | Some s =>
      if setItem_throws s then e
      else mkEnv (heap e)
                 (Some (mkStorage (Some (Json (contents (cacheQueue c) (heap e))))
                                  (setItem_throws s)
                                  (writes s ++ [contents (cacheQueue c) (heap e)])))
                 (attempts e)
  end.

(** [loadFromStorage]: [JSON.parse] builds new objects. *)
Definition loadFromStorage (c : t) (e : env) : t * env :=
  match storage e with
  | None => (c, e)
  | Some s =>
      match item s with
      | None => (c, e)
      | Some (Json items) =>
          (mk (config c) (seq (length (heap e)) (length items)) (isOnline c),
           mkEnv (heap e ++ items) (storage e) (attempts e))
      | Some Unparsable => (mk (config c) [] (isOnline c), e)
      end
  end.

(** The constructor.  [onLine] is [navigator.onLine], or [None] where
    [navigator] is undefined. *)
Definition new (cfg : OfflineCacheConfig) (onLine : option bool) (e : env) : t * env :=
  loadFromStorage
    (mk (mkConfig (if decide (maxCacheSize cfg = 0) then 100 else maxCacheSize cfg)
                  (enabled cfg)
                  (if decide (storageKey cfg = "") then "error_monitor_cache"
                   else storageKey cfg))
        []
        (default true onLine))
    e.

(** [cache] at time [now]: a new object, pushed; one [shift] when the
    queue is then longer than [maxCacheSize]. *)
Definition cache (now : nat) (r : Report) (c : t) (e : env) : t * env :=
  if negb (enabled (config c)) then (c, e)
  else
    let a := length (heap e) in
    let e1 := mkEnv (heap e ++ [mkCached r now 0]) (storage e) (attempts e) in
    let q1 := cacheQueue c ++ [a] in
    let q2 := if decide (maxCacheSize (config c) < length q1) then drop 1 q1 else q1 in
    let c2 := mk (config c) q2 (isOnline c) in
    (c2, saveToStorage c2 e1).

(** [send]: the sender is called outside any [try]; its promise is
    dropped, so only a synchronous throw reaches the caller. *)
Definition send (now : nat) (r : Report) (c : t) (e : env) (w : W)
    : t * env * W * completion :=
  if isOnline c then
    let '(w1, o) := sender r w in
    (c, mkEnv (heap e) (storage e) (attempts e ++ [r]), w1,
     match o with Throws => Raised | _ => Returned end)
  else
    let '(c1, e1) := cache now r c e in (c1, e1, w, Returned).

(** [indexOf]: the position of the first element identical to [a]. *)
Fixpoint indexOf (a : nat) (q : list nat) : option nat :=
  match q with
  | [] => None
  | b :: q' => if decide (b = a) then Some 0 else S <$> indexOf a q'
  end.

(** [index = indexOf(x); if (index > -1) splice(index, 1)]. *)
Definition remove (a : nat) (q : list nat) : list nat :=
  match indexOf a q with
  | Some i => delete i q
  | None => q
  end.

(** The retry threshold the pass is written with. *)
Definition retryLimit : nat := 3.

(** One iteration of the loop of [flush] on the object at address [a]:
    the state is the store, its environment, the world and the local
    [failedReports].  The awaited sender failing, by a throw or by a
    rejection, lands in the [catch]. *)
Definition retry_one (a : nat) (s : t * env * W * list nat) : t * env * W * list nat :=
  let '(c, e, w, failed) := s in
  match heap e !! a with
  | None => s
  | Some cr =>
      let '(w1, o) := sender (report cr) w in
      let e1 := mkEnv (heap e) (storage e) (attempts e ++ [report cr]) in
      match o with
      | Resolves => (mk (config c) (remove a (cacheQueue c)) (isOnline c), e1, w1, failed)
      | _ =>
          let cr' := mkCached (report cr) (timestamp cr) (S (retryCount cr)) in
          let e2 := mkEnv (<[a := cr']> (heap e1)) (storage e1) (attempts e1) in
          if decide (retryLimit < retryCount cr')
          then (mk (config c) (remove a (cacheQueue c)) (isOnline c), e2, w1, failed)
          else (c, e2, w1, failed ++ [a])
      end
  end.

(** The loop over [reportsToRetry], the copy of the queue taken when the
    pass starts. *)
Definition retry_loop (reportsToRetry : list nat) (s : t * env * W * list nat)
    : t * env * W * list nat :=
  foldl (λ s a, retry_one a s) s reportsToRetry.

(** [flush], the retry pass, run to completion: the sender's promises
    settle in the order of the calls and nothing else runs in between. *)
Definition flush (c : t) (e : env) (w : W) : t * env * W :=
  match cacheQueue c with
  | [] => (c, e, w)
  | _ :: _ =>
      let '(c1, e1, w1, _) := retry_loop (cacheQueue c) (c, e, w, []) in
      (c1, saveToStorage c1 e1, w1)
  end.

Definition handleOnline (c : t) (e : env) (w : W) : t * env * W :=
  flush (mk (config c) (cacheQueue c) true) e w.

Definition handleOffline (c : t) : t :=
  mk (config c) (cacheQueue c) false.

Definition clear (c : t) (e : env) : t * env :=
  let c1 := mk (config c) [] (isOnline c) in (c1, saveToStorage c1 e).

Definition size (c : t) : nat := length (cacheQueue c).

Definition destroy (c : t) (e : env) : env := saveToStorage c e.

(** The operations on a store, as events. *)
Inductive op : Type :=
  | Cache (now : nat) (r : Report)
  | Send (now : nat) (r : Report)
  | RetryPass
  | Online
  | Offline
  | Clear.

Definition step (o : op) (s : t * env * W) : t * env * W :=
  let '(c, e, w) := s in
  match o with
  | Cache now r => let '(c1, e1) := cache now r c e in (c1, e1, w)
  | Send now r => (send now r c e w).1
  | RetryPass => flush c e w
  | Online => handleOnline c e w
  | Offline => (handleOffline c, e, w)
  | Clear => let '(c1, e1) := clear c e in (c1, e1, w)
  end.

Definition run (ops : list op) (s : t * env * W) : t * env * W :=
  foldl (λ s o, step o s) s ops.

(** *** Notions the properties of the store are stated with *)

(** The queue holds distinct objects, all of them allocated. *)
Definition wf (c : t) (e : env) : Prop :=
  NoDup (cacheQueue c) ∧ ∀ a, a ∈ cacheQueue c → a < length (heap e).

(** A cached report after one more failed attempt. *)
Definition bump (cr : CachedReport) : CachedReport :=
  mkCached (report cr) (timestamp cr) (S (retryCount cr)).

(** Whether the attempt that ended as [o] takes the object out of the
    queue: it went through, or it failed once too often. *)
Definition drops (cr : CachedReport) (o : outcome) : bool :=
  match o with
  | Resolves => true
  | _ => bool_decide (retryLimit < S (retryCount cr))
  end.

(** The store and its environment after the attempt on the object at
    [a], which held [cr], ended as [o]. *)
Definition attempted (a : nat) (cr : CachedReport) (o : outcome) (c : t) : t :=
  if drops cr o then mk (config c) (remove a (cacheQueue c)) (isOnline c) else c.

Definition attempted_env (a : nat) (cr : CachedReport) (o : outcome) (e : env) : env :=
  mkEnv (match o with Resolves => heap e | _ => <[a := bump cr]> (heap e) end)
        (storage e) (attempts e ++ [report cr]).

(** The attempts a pass over [todo] makes from the world [w], in
    order: each object with what the sender answered for its report,
    and the world the attempts leave. *)
Fixpoint attempt_all (todo : list nat) (h : list CachedReport) (w : W)
    : list (nat * outcome) * W :=
  match todo with
  | [] => ([], w)
  | a :: rest =>
      match h !! a with
      | None => attempt_all rest h w
      | Some cr =>
          let '(w1, o) := sender (report cr) w in
          let '(outs, w2) := attempt_all rest h w1 in
          ((a, o) :: outs, w2)
      end
  end.

(** What one pass over [todo] does, from the state [(c, e, w)]. *)
Record pass_spec (todo : list nat) (c : t) (e : env) (w : W)
    (res : t * env * W * list nat) : Prop := {
  ps_world : res.1.2 = (attempt_all todo (heap e) w).2;
  ps_config : config res.1.1.1 = config c;
  ps_online : isOnline res.1.1.1 = isOnline c;
  ps_storage : storage res.1.1.2 = storage e;
  ps_heap_length : length (heap res.1.1.2) = length (heap e);
  ps_attempts :
    attempts res.1.1.2 = attempts e ++ (report <$> contents todo (heap e));
  ps_heap_other : ∀ a, a ∉ todo → heap res.1.1.2 !! a = heap e !! a;
  ps_heap_done : ∀ a o cr,
    (a, o) ∈ (attempt_all todo (heap e) w).1 → heap e !! a = Some cr →
    heap res.1.1.2 !! a = Some (match o with Resolves => cr | _ => bump cr end);
  ps_queue : ∀ a,
    a ∈ cacheQueue res.1.1.1 ↔
    a ∈ cacheQueue c ∧
    ∀ o cr, (a, o) ∈ (attempt_all todo (heap e) w).1 → heap e !! a = Some cr →
            o ≠ Resolves ∧ S (retryCount cr) ≤ retryLimit;
  ps_sublist : sublist (cacheQueue res.1.1.1) (cacheQueue c)
}.

(** What every operation keeps. *)
Record step_spec (s s' : t * env * W) : Prop := {
  ss_config : config s'.1.1 = config s.1.1;
  ss_heap : length (heap s.1.2) ≤ length (heap s'.1.2);
  ss_wf : wf s'.1.1 s'.1.2;
  ss_gone : ∀ a, a < length (heap s.1.2) → a ∉ cacheQueue s.1.1 →
                 a ∉ cacheQueue s'.1.1;
  ss_bound :
    0 < maxCacheSize (config s.1.1) →
    length (cacheQueue s.1.1) ≤ maxCacheSize (config s.1.1) →
    length (cacheQueue s'.1.1) ≤ maxCacheSize (config s.1.1)
}.

(** The retry rule with the limit [maxRetries], for the pass that
    starts in [(c, e, w)]: an object whose attempt fails has its
    [retryCount] raised by one, stays in the queue exactly when the
    raised count is within the limit, and once out of the queue is in
    no later queue. *)
Definition retry_rule (maxRetries : nat) (c : t) (e : env) (w : W) : Prop :=
  ∀ a cr o,
    heap e !! a = Some cr →
    (a, o) ∈ (attempt_all (cacheQueue c) (heap e) w).1 →
    o ≠ Resolves →
    heap (flush c e w).1.2 !! a = Some (bump cr)
    ∧ (a ∈ cacheQueue (flush c e w).1.1 ↔ S (retryCount cr) ≤ maxRetries)
    ∧ (maxRetries < S (retryCount cr) →
       ∀ ops, a ∉ cacheQueue (run ops (flush c e w)).1.1).

(** What [saveToStorage] leaves in a storage that takes the write. *)
Definition written (s : Storage) (items : list CachedReport) : Storage :=
  mkStorage (Some (Json items)) (setItem_throws s) (writes s ++ [items]).

(** The bounded queue, as claimed of every store the constructor
    makes: after any operations the queue is within [maxCacheSize]; a
    [cache] call on a full queue drops the oldest object and appends the
    new one, which starts with [retryCount] zero; and a storage that
    takes writes holds the whole queue when [cache] returns. *)
Definition bounded_fifo (cfg : OfflineCacheConfig) (onLine : option bool)
    (e0 : env) (w0 : W) : Prop :=
  ∀ ops,
    let s := run ops (new cfg onLine e0, w0) in
    let c := s.1.1 in
    let e := s.1.2 in
    length (cacheQueue c) ≤ maxCacheSize (config c)
    ∧ ∀ now x,
        let r := cache now x c e in
        (length (cacheQueue c) = maxCacheSize (config c) →
         cacheQueue r.1 = drop 1 (cacheQueue c) ++ [length (heap e)])
        ∧ heap r.2 !! length (heap e) = Some (mkCached x now 0)
        ∧ ∀ st, storage e = Some st → setItem_throws st = false →
                storage r.2 = Some (written st (contents (cacheQueue r.1) (heap r.2))).

(** [send], as claimed of the store in [(c, e, w)]: while the store is
    online the report goes to the sender and the queue, the cached
    objects and the storage stay as they are; while it is offline the
    sender is not called and the report is cached, a new object that
    holds it being in the queue afterwards. *)
Definition forwards_or_caches (c : t) (e : env) (w : W) (now : nat) (x : Report) : Prop :=
  let s' := send now x c e w in
  (isOnline c = true →
     s'.1.1.1 = c
     ∧ heap s'.1.1.2 = heap e
     ∧ storage s'.1.1.2 = storage e
     ∧ attempts s'.1.1.2 = attempts e ++ [x]
     ∧ s'.1.2 = (sender x w).1)
  ∧ (isOnline c = false →
     attempts s'.1.1.2 = attempts e
     ∧ s'.1.2 = w
     ∧ ∃ a, a ∈ cacheQueue s'.1.1.1
            ∧ heap e !! a = None
            ∧ heap s'.1.1.2 !! a = Some (mkCached x now 0)).

(** The connectivity signals, as claimed of the store in [(c, e, w)]:
    the restored signal sets the flag and runs one pass, which attempts
    the queued reports in queue order and writes the queue to a storage
    that takes writes exactly once; the lost signal clears the flag and
    does nothing else. *)
Definition reconnects (c : t) (e : env) (w : W) : Prop :=
  let s' := handleOnline c e w in
  isOnline s'.1.1 = true
  ∧ s' = flush (mk (config c) (cacheQueue c) true) e w
  ∧ attempts s'.1.2 = attempts e ++ (report <$> contents (cacheQueue c) (heap e))
  ∧ (∀ st, storage e = Some st → setItem_throws st = false →
       storage s'.1.2 = Some (written st (contents (cacheQueue s'.1.1) (heap s'.1.2))))
  ∧ step Offline (c, e, w) = (mk (config c) (cacheQueue c) false, e, w).

(** The surroundings a later page starts in: the storage as this page
    leaves it, that page's own objects [h], nothing attempted yet. *)
Definition later_page (h : list CachedReport) (e : env) : env :=
  mkEnv h (storage e) [].

(** The same surroundings with another [localStorage]. *)
Definition with_storage (sto : option Storage) (e : env) : env :=
  mkEnv (heap e) sto (attempts e).

(** A state without its storage: the store, its objects, the attempts
    made and the world. *)
Definition memory (s : t * env * W) : t * list CachedReport * list Report * W :=
  (s.1.1, heap s.1.2, attempts s.1.2, s.2).

(** The objects a pass leaves queued, given its attempts [outs] in
    order and the objects [h] it started with. *)
Definition survivors (outs : list (nat * outcome)) (h : list CachedReport) : list nat :=
  omap (λ p, cr ← h !! p.1; if drops cr p.2 then None else Some p.1) outs.

(** The cached reports a storage holds under the key: none when the
    item is missing or does not parse. *)
Definition stored_items (s : Storage) : list CachedReport :=
  match item s with
  | Some (Json items) => items
  | _ => []
  end.

(** The storage takes writes and holds the queue as it is in memory. *)
Definition synced (c : t) (e : env) : Prop :=
  ∃ st, storage e = Some st ∧ setItem_throws st = false
        ∧ stored_items st = contents (cacheQueue c) (heap e).

(** No queued report has failed more often than the retry threshold. *)
Definition retries_within (c : t) (e : env) : Prop :=
  ∀ a cr, a ∈ cacheQueue c → heap e !! a = Some cr → retryCount cr ≤ retryLimit.

(** Every queued report has failed [n] times. *)
Definition tried (n : nat) (c : t) (e : env) : Prop :=
  ∀ a cr, a ∈ cacheQueue c → heap e !! a = Some cr → retryCount cr = n.

End Cache.

Arguments t : clear implicits.
Arguments CachedReport : clear implicits.
Arguments stored : clear implicits.
Arguments Storage : clear implicits.
Arguments env : clear implicits.
Arguments op : clear implicits.

End OfflineCache.

(** ** Capture orchestrator: [ErrorMonitor] *)

Module ErrorMonitor.

(** A [Record<string, ...>] of the source: a finite map on strings.
    The spread [{...a, ...b}] is [b ∪ a], the union that prefers [b]. *)
Abbreviation dict := (gmap string string).

(** The [lastIndex] of the [RegExp] objects, by address; 0 where none
    is recorded. *)
Abbreviation lastIndexes := (gmap nat nat).

(** A [RegExp] object.  [exec i s] is the match the pattern finds in
    [s] when the search starts at the index [i], given by the index
    where the match ends; there is none when [i] is past the end of
    [s].  A pattern without the [g] and the [y] flag searches from 0
    and leaves its [lastIndex] alone.  A pattern with one of them
    starts at its [lastIndex] and moves it: to the end of the match,
    or back to 0 when there is none. *)
Module RegExp.
Record t : Type := mk {
  ref : nat;                            (* address of the object *)
  exec : nat -> string -> option nat;
  moves : bool                          (* the [g] or the [y] flag *)
}.

(** Whether the pattern matches somewhere in [s]. *)
Definition matches (re : t) (s : string) : bool :=
  match exec re 0 s with
  | Some _ => true
  | None => false
  end.

Definition test (re : t) (s : string) (h : lastIndexes) : bool * lastIndexes :=
  if moves re then
    let lastIndex := default 0 (h !! ref re) in
    match exec re lastIndex s with
    | Some e => (true, <[ref re := e]> h)
    | None => (false, <[ref re := 0]> h)
    end
  else (matches re s, h).
End RegExp.

Inductive ErrorKind : Type := js | promise | network | resource | custom.

Inductive Level : Type := debug | info | warn | error | fatal.

Module ErrorType.
Record t : Type := mk {
  type : ErrorKind;
  message : string;
  stack : option string;
  context : option dict
}.
End ErrorType.

Module Breadcrumb.
Record t : Type := mk {
  timestamp : nat;
  type : string;
  message : string;
  data : option dict
}.
End Breadcrumb.

Module Context.
Record t : Type := mk {
  userAgent : string;
  url : string;
  viewport : nat * nat;
  userId : option string;
  tags : dict
}.
End Context.

Module ErrorReport.
Record t : Type := mk {
  appId : string;
  timestamp : nat;
  sessionId : string;
  eventId : string;
  type : ErrorKind;
  level : option Level;
  message : string;
  stack : option string;
  context : Context.t;
  breadcrumbs : list Breadcrumb.t;
  extra : dict
}.
End ErrorReport.

(** What goes on the wire, and to a custom reporter: one report, or
    [{ reports }] for a batch. *)
Inductive Payload : Type :=
  | Single (r : ErrorReport.t)
  | Batch (reports : list ErrorReport.t).

Module Filter.
Record t : Type := mk {
  ignoreErrors : option (list RegExp.t);
  ignoreUrls : option (list RegExp.t);
  minLevel : option Level
}.
End Filter.

Module ReportConfig.
Record t : Type := mk {
  delay : option nat;
  batchSize : option nat;
  customReporter : option (Payload -> outcome)
}.
End ReportConfig.

(** A property of an object that is spread over defaults: left out, or
    present with a value that may be [undefined].  The spread
    [{defaults, ...object}] lets a present property win over the
    default even when its value is [undefined]. *)
Inductive prop (A : Type) : Type :=
  | Absent
  | Present (v : option A).
Arguments Absent {A}.
Arguments Present {A} _.

Definition spread_prop {A} (dflt : A) (p : prop A) : option A :=
  match p with
  | Absent => Some dflt
  | Present v => v
  end.

(** [Config], as the monitor holds it.  The fields the capture path
    never reads ([environment], [release], [autoCapture]) are left
    out.  [None] is [undefined]. *)
Module Config.
Record t : Type := mk {
  appId : string;
  dsn : string;
  userId : option string;
  tags : option dict;
  sampleRate : option Q;
  errorSampleRate : option Q;
  filter : option Filter.t;
  report : option ReportConfig.t;
  debug : option bool;
  enabled : option bool
}.
End Config.

Module ConfigInput.
Record t : Type := mk {
  appId : string;
  dsn : string;
  userId : option string;
  tags : option dict;
  sampleRate : prop Q;
  errorSampleRate : prop Q;
  filter : prop Filter.t;
  report : prop ReportConfig.t;
  debug : prop bool;
  enabled : prop bool
}.
End ConfigInput.

(** The options of a capture.  [capture] spreads them over its
    defaults, so a property that is present wins over the default even
    when its value is [undefined]; that matters for [level] and for
    [user], of which [capture] reads [user.id].  A [user] that is an
    object is given by its [id]. *)
Module CaptureOptions.
Record t : Type := mk {
  level : prop Level;
  tags : option dict;
  extra : option dict;
  user : prop (option string);
  skipSampling : option bool;
  skipFilter : option bool
}.
End CaptureOptions.

(** What a hook hands back: [undefined], the very object it was given,
    or another object; [beforeCapture] may also hand back [null]. *)
Inductive hook_ret (A : Type) : Type :=
  | RetUndefined
  | RetArg
  | RetNew (a : A).
Arguments RetUndefined {A}.
Arguments RetArg {A}.
Arguments RetNew {A} _.

Inductive capture_ret : Type :=
  | RetNull
  | Ret (r : hook_ret ErrorType.t).

(** A hook call: it throws, or it returns, having possibly changed the
    object it was given in place ([arg_after] is that object after the
    call). *)
Inductive hook_result (A R : Type) : Type :=
  | HookThrows
  | HookReturns (arg_after : A) (ret : R).
Arguments HookThrows {A R}.
Arguments HookReturns {A R} _ _.

(** [setup] and [teardown] act on the host only and are left out. *)
Module Plugin.
Record t : Type := mk {
  name : string;
  beforeCapture : option (ErrorType.t -> hook_result ErrorType.t capture_ret);
  afterCapture :
    option (ErrorReport.t -> hook_result ErrorReport.t (hook_ret ErrorReport.t));
  beforeReport :
    option (ErrorReport.t -> hook_result ErrorReport.t (hook_ret ErrorReport.t))
}.
End Plugin.

(** The host: [navigator], [location], [window], [fetch]. *)
Module Navigator.
Record t : Type := mk {
  userAgent : string;
  onLine : bool;
  sendBeacon : option (string -> Payload -> outcome)
}.
End Navigator.

Module Host.
Record t : Type := mk {
  navigator : option Navigator.t;
  location_href : option string;
  window_inner : option (nat * nat);
  fetch_defined : bool
}.
End Host.

(** The calls that left the pipeline, oldest first. *)
Inductive WireEvent : Type :=
  | ToCustomReporter (p : Payload)
  | ToBeacon (dsn : string) (p : Payload)
  | ToFetch (dsn : string) (p : Payload).

Abbreviation Wire := (list WireEvent).

(** The values a capture draws from its surroundings: [Date.now()],
    [Math.random()] and the id from [generateEventId()]. *)
Module Draw.
Record t : Type := mk {
  now : nat;
  random : Q;
  eventId : string
}.
End Draw.

Record t : Type := mk {
  config : Config.t;
  isInitialized : bool;
  breadcrumbs : RingBuffer.t;
  plugins : list Plugin.t;
  sessionId : string;
  batchQueue : option (BatchQueue.t ErrorReport.t);
  offlineCache : option OfflineCache.t
}.

(** Everything outside the monitor object that its methods change.
    [detached] is the store a [destroy] has taken from the monitor:
    [OfflineCache.destroy] hands new functions to
    [removeEventListener], which removes none, so the listeners the
    store registered when it was made still reach it. *)
Record env : Type := mkEnv {
  arrays : RingBuffer.arrays Breadcrumb.t;
  window : BatchQueue.env ErrorReport.t;
  disk : OfflineCache.env ErrorReport.t;
  wire : Wire;
  regexps : lastIndexes;
  detached : option OfflineCache.t
}.

Definition BREADCRUMBS_MAX_SIZE : nat := 50.
Definition REPORTING_DEFAULT_DELAY : nat := 1000.
Definition REPORTING_DEFAULT_BATCH_SIZE : nat := 10.
Definition SAMPLING_DEFAULT_RATE : Q := 1%Q.

(** [x || d] on a number that may be [undefined]. *)
Definition or_default (x : option nat) (d : nat) : nat :=
  match x with
  | Some (S n) => S n
  | _ => d
  end.

(** A string that is truthy: defined and not empty. *)
Definition truthy (s : option string) : option string :=
  match s with
  | Some "" => None
  | _ => s
  end.

Section Sending.

Variable host : Host.t.

(** The default sending logic shared by [sendToServerDirectly] and
    [sendBatchToServer]: [sendBeacon] where there is one, else [fetch],
    whose promise has a [catch] attached. *)
Definition default_send (dsn : string) (p : Payload) (w : Wire) : Wire * outcome :=
  match Host.navigator host with
  | None => (w, Resolves)
  | Some nav =>
      match Navigator.sendBeacon nav with
      | Some beacon =>
          (w ++ [ToBeacon dsn p],
           match beacon dsn p with Throws => Throws | _ => Resolves end)
      | None =>
          if Host.fetch_defined host then (w ++ [ToFetch dsn p], Resolves)
          else (w, Resolves)
      end
  end.

(** Both senders return nothing: the promise of a custom reporter is
    dropped, a throw of it is not caught here. *)
Definition send_payload (cfg : Config.t) (p : Payload) (w : Wire) : Wire * outcome :=
  match Config.report cfg ≫= ReportConfig.customReporter with
  | Some reporter =>
      (w ++ [ToCustomReporter p],
       match reporter p with Throws => Throws | _ => Resolves end)
  | None => default_send (Config.dsn cfg) p w
  end.

Definition sendToServerDirectly (cfg : Config.t) (data : ErrorReport.t) (w : Wire)
    : Wire * outcome :=
  send_payload cfg (Single data) w.

Definition sendBatchToServer (cfg : Config.t) (reports : list ErrorReport.t) (w : Wire)
    : Wire * outcome :=
  send_payload cfg (Batch reports) w.

(** The constructor. *)
Definition new (input : ConfigInput.t) (session : string) (e : env) : t * env :=
  let cfg :=
    Config.mk (ConfigInput.appId input) (ConfigInput.dsn input)
      (ConfigInput.userId input) (ConfigInput.tags input)
      (spread_prop SAMPLING_DEFAULT_RATE (ConfigInput.sampleRate input))
      (spread_prop SAMPLING_DEFAULT_RATE (ConfigInput.errorSampleRate input))
      (spread_prop (Filter.mk (Some []) (Some []) (Some info)) (ConfigInput.filter input))
      (spread_prop (ReportConfig.mk (Some REPORTING_DEFAULT_DELAY)
                                    (Some REPORTING_DEFAULT_BATCH_SIZE) None)
                   (ConfigInput.report input))
      (spread_prop false (ConfigInput.debug input))
      (spread_prop true (ConfigInput.enabled input)) in
  let '(ring, arrays1) := RingBuffer.new BREADCRUMBS_MAX_SIZE (arrays e) in
  let bq :=
    match Config.report cfg with
    | Some rc =>
        Some (BatchQueue.new
                (BatchQueue.mkConfig
                   (or_default (ReportConfig.batchSize rc) REPORTING_DEFAULT_BATCH_SIZE)
                   (or_default (ReportConfig.delay rc) REPORTING_DEFAULT_DELAY)
                   true))
    | None => None
    end in
  let '(oc, disk1) :=
    OfflineCache.new
      (OfflineCache.mkConfig 100 true ("error_monitor_cache_" +:+ Config.appId cfg))
      (Navigator.onLine <$> Host.navigator host) (disk e) in
  (mk cfg false ring [] session bq (Some oc),
   mkEnv arrays1 (window e) disk1 (wire e) (regexps e) (detached e)).

Definition init (m : t) : t :=
  if isInitialized m then m
  else mk (config m) true (breadcrumbs m) (plugins m) (sessionId m)
          (batchQueue m) (offlineCache m).

Definition use (p : Plugin.t) (m : t) : t :=
  mk (config m) (isInitialized m) (breadcrumbs m) (plugins m ++ [p]) (sessionId m)
     (batchQueue m) (offlineCache m).

Definition set_enabled (b : bool) (c : Config.t) : Config.t :=
  Config.mk (Config.appId c) (Config.dsn c) (Config.userId c) (Config.tags c)
    (Config.sampleRate c) (Config.errorSampleRate c) (Config.filter c)
    (Config.report c) (Config.debug c) (Some b).

Definition with_config (c : Config.t) (m : t) : t :=
  mk c (isInitialized m) (breadcrumbs m) (plugins m) (sessionId m)
     (batchQueue m) (offlineCache m).

Definition enable (m : t) : t := with_config (set_enabled true (config m)) m.

Definition disable (m : t) : t := with_config (set_enabled false (config m)) m.

(** [addBreadcrumb] at time [now]: a falsy [timestamp] takes the time. *)
Definition addBreadcrumb (now : nat) (crumb : Breadcrumb.t) (m : t) (e : env) : t * env :=
  let b := Breadcrumb.mk
             (match Breadcrumb.timestamp crumb with 0 => now | S n => S n end)
             (Breadcrumb.type crumb) (Breadcrumb.message crumb) (Breadcrumb.data crumb) in
  let '(ring, arrays1) := RingBuffer.push (breadcrumbs m) b (arrays e) in
  (mk (config m) (isInitialized m) ring (plugins m) (sessionId m)
      (batchQueue m) (offlineCache m),
   mkEnv arrays1 (window e) (disk e) (wire e) (regexps e) (detached e)).

(** A loop [for (const pattern of patterns) if (pattern.test(s)) return
    true]: the patterns are tested in order up to the first that
    matches. *)
Fixpoint test_any (patterns : list RegExp.t) (s : string) (h : lastIndexes)
    : bool * lastIndexes :=
  match patterns with
  | [] => (false, h)
  | pattern :: rest =>
      let '(matched, h1) := RegExp.test pattern s h in
      if matched then (true, h1) else test_any rest s h1
  end.

(** [shouldFilter]: [minLevel] is read out of the filter and not used. *)
Definition shouldFilter (cfg : Config.t) (err : ErrorType.t) (h : lastIndexes)
    : bool * lastIndexes :=
  match Config.filter cfg with
  | None => (false, h)
  | Some f =>
      let ignoreErrors := Filter.ignoreErrors f in
      let ignoreUrls := Filter.ignoreUrls f in
      let minLevel := Filter.minLevel f in
      let '(matched, h1) := test_any (default [] ignoreErrors) (ErrorType.message err) h in
      if matched then (true, h1)
      else
        match ignoreUrls, truthy (ErrorType.context err ≫= (.!! "url")) with
        | Some (p :: ps), Some url => test_any (p :: ps) url h1
        | _, _ => (false, h1)
        end
  end.

(** The working copy of a hook loop: the object the loop started from,
    or another object a hook returned. *)
Inductive working (A : Type) : Type :=
  | SameObject
  | Other (a : A).
Arguments SameObject {A}.
Arguments Other {A} _.

Definition resolve {A} (start : A) (wk : working A) : A :=
  match wk with
  | SameObject => start
  | Other a => a
  end.

(** How a hook loop ends. *)
Inductive loop_end (A : Type) : Type :=
  | Vetoed
  | HookRaised
  | Done (a : A).
Arguments Vetoed {A}.
Arguments HookRaised {A}.
Arguments Done {A} _.

(** The [beforeCapture] loop.  Every hook is called on
    [normalizedError], the object the loop started from; [normalized]
    is that object as the hooks so far have left it, [processed] is
    [processedError]. *)
Fixpoint beforeCapture_loop (ps : list Plugin.t) (normalized : ErrorType.t)
    (processed : working ErrorType.t) : loop_end ErrorType.t :=
  match ps with
  | [] => Done (resolve normalized processed)
  | p :: ps' =>
      match Plugin.beforeCapture p with
      | None => beforeCapture_loop ps' normalized processed
      | Some hook =>
          match hook normalized with
          | HookThrows => HookRaised
          | HookReturns normalized' RetNull => Vetoed
          | HookReturns normalized' (Ret RetUndefined) =>
              beforeCapture_loop ps' normalized' processed
          | HookReturns normalized' (Ret RetArg) =>
              beforeCapture_loop ps' normalized' SameObject
          | HookReturns normalized' (Ret (RetNew a)) =>
              beforeCapture_loop ps' normalized' (Other a)
          end
      end
  end.

(** [Object.assign(report, result)] with a whole report as [result]:
    every field is copied; an optional field [result] lacks stays. *)
Definition assign (rep result : ErrorReport.t) : ErrorReport.t :=
  ErrorReport.mk (ErrorReport.appId result) (ErrorReport.timestamp result)
    (ErrorReport.sessionId result) (ErrorReport.eventId result)
    (ErrorReport.type result) (ErrorReport.level result) (ErrorReport.message result)
    (match ErrorReport.stack result with
     | Some s => Some s
     | None => ErrorReport.stack rep
     end)
    (ErrorReport.context result) (ErrorReport.breadcrumbs result)
    (ErrorReport.extra result).

(** The [afterCapture] loop: every hook is called on [report] itself,
    and what it returns is assigned onto [report]; [None] when a hook
    throws. *)
Fixpoint afterCapture_loop (ps : list Plugin.t) (rep : ErrorReport.t)
    : option ErrorReport.t :=
  match ps with
  | [] => Some rep
  | p :: ps' =>
      match Plugin.afterCapture p with
      | None => afterCapture_loop ps' rep
      | Some hook =>
          match hook rep with
          | HookThrows => None
          | HookReturns rep' (RetNew a) => afterCapture_loop ps' (assign rep' a)
          | HookReturns rep' _ => afterCapture_loop ps' rep'
          end
      end
  end.

(** The [beforeReport] loop of [report]: every hook is called on
    [data]; [None] when a hook throws. *)
Fixpoint beforeReport_loop (ps : list Plugin.t) (data : ErrorReport.t)
    (processed : working ErrorReport.t) : option ErrorReport.t :=
  match ps with
  | [] => Some (resolve data processed)
  | p :: ps' =>
      match Plugin.beforeReport p with
      | None => beforeReport_loop ps' data processed
      | Some hook =>
          match hook data with
          | HookThrows => None
          | HookReturns data' RetUndefined => beforeReport_loop ps' data' processed
          | HookReturns data' RetArg => beforeReport_loop ps' data' SameObject
          | HookReturns data' (RetNew a) => beforeReport_loop ps' data' (Other a)
          end
      end
  end.

(** [sendToServer]: through the offline store when there is one. *)
Definition sendToServer (now : nat) (data : ErrorReport.t) (m : t) (e : env)
    : t * env * completion :=
  match offlineCache m with
  | Some oc =>
      let '(oc1, disk1, wire1, c) :=
        OfflineCache.send (sendToServerDirectly (config m)) now data oc (disk e) (wire e) in
      (mk (config m) (isInitialized m) (breadcrumbs m) (plugins m) (sessionId m)
          (batchQueue m) (Some oc1),
       mkEnv (arrays e) (window e) disk1 wire1 (regexps e) (detached e), c)
  | None =>
      let '(wire1, o) := sendToServerDirectly (config m) data (wire e) in
      (m, mkEnv (arrays e) (window e) (disk e) wire1 (regexps e) (detached e),
       match o with Throws => Raised | _ => Returned end)
  end.

(** [report] at time [now]. *)
Definition report (now : nat) (data : ErrorReport.t) (m : t) (e : env)
    : t * env * completion :=
  match beforeReport_loop (plugins m) data SameObject with
  | None => (m, e, Raised)
  | Some processedReport =>
      match batchQueue m with
      | Some bq =>
          let '(bq1, window1, wire1, c) :=
            BatchQueue.add (sendBatchToServer (config m)) now processedReport bq
                           (window e) (wire e) in
          (mk (config m) (isInitialized m) (breadcrumbs m) (plugins m) (sessionId m)
              (Some bq1) (offlineCache m),
           mkEnv (arrays e) window1 (disk e) wire1 (regexps e) (detached e), c)
      | None => sendToServer now processedReport m e
      end
  end.

(** The argument of [capture]: an [Error], or an [ErrorType] record. *)
Inductive raw : Type :=
  | AnError (message : string) (stack : option string)
  | AnEvent (err : ErrorType.t).

Definition normalize (error : raw) : ErrorType.t :=
  match error with
  | AnError message stack => ErrorType.mk custom message stack (Some ∅)
  | AnEvent err => err
  end.

(** The options name a [user] that is [undefined] or [null]: reading
    [opts.user.id] raises a [TypeError]. *)
Definition user_missing (opts : CaptureOptions.t) : bool :=
  match CaptureOptions.user opts with
  | Present None => true
  | _ => false
  end.

(** [opts.user.id], where [opts.user] is an object: the default [{}]
    when the options leave [user] out. *)
Definition user_id (opts : CaptureOptions.t) : option string :=
  match CaptureOptions.user opts with
  | Present (Some id) => id
  | _ => None
  end.

(** The report [capture] builds from the processed error. *)
Definition build_report (d : Draw.t) (opts : CaptureOptions.t) (m : t) (e : env)
    (processedError : ErrorType.t) : ErrorReport.t :=
  ErrorReport.mk
    (Config.appId (config m))
    (Draw.now d)
    (sessionId m)
    (Draw.eventId d)
    (ErrorType.type processedError)
    (spread_prop error (CaptureOptions.level opts))
    (ErrorType.message processedError)
    (ErrorType.stack processedError)
    (Context.mk
       (default "" (Navigator.userAgent <$> Host.navigator host))
       (default "" (Host.location_href host))
       (default (0, 0) (Host.window_inner host))
       (match truthy (user_id opts) with
        | Some id => Some id
        | None => Config.userId (config m)
        end)
       (default ∅ (CaptureOptions.tags opts) ∪ default ∅ (Config.tags (config m))))
    (RingBuffer.toArray_items (breadcrumbs m) (arrays e))
    (default ∅ (CaptureOptions.extra opts) ∪ default ∅ (ErrorType.context processedError)).

(** What a capture call came to, for the properties below. *)
Inductive fate : Type :=
  | NotInitialized
  | Disabled
  | Filtered
  | SampledOut
  | VetoedByHook
  | HookFailed
  | BuildFailed
  | Reported (assembled : ErrorReport.t).

(** The environment with other [lastIndex] values. *)
Definition with_regexps (h : lastIndexes) (e : env) : env :=
  mkEnv (arrays e) (window e) (disk e) (wire e) h (detached e).

(** The filter check of [capture]: [shouldFilter] is not called when
    the options ask to skip it. *)
Definition filter_check (opts : CaptureOptions.t) (cfg : Config.t) (err : ErrorType.t)
    (h : lastIndexes) : bool * lastIndexes :=
  if default false (CaptureOptions.skipFilter opts) then (false, h)
  else shouldFilter cfg err h.

(** [capture], with the values it draws; [options] is [None] when the
    caller passes none.  The literal that builds the report reads
    [opts.user.id] before it takes the snapshot of the breadcrumbs, and
    raises a [TypeError] there when the options name a [user] that is
    [undefined] or [null]. *)
Definition capture (d : Draw.t) (error : raw) (options : option CaptureOptions.t)
    (m : t) (e : env) : t * env * completion * fate :=
  if negb (isInitialized m) then (m, e, Returned, NotInitialized)
  else if decide (Config.enabled (config m) = Some false) then (m, e, Returned, Disabled)
  else
    let normalizedError := normalize error in
    let opts := default (CaptureOptions.mk Absent None None Absent None None) options in
    let '(filtered, regexps1) := filter_check opts (config m) normalizedError (regexps e) in
    let e0 := with_regexps regexps1 e in
    if filtered then (m, e0, Returned, Filtered)
    else
      if negb (default false (CaptureOptions.skipSampling opts))
         && match Config.errorSampleRate (config m) with
            | Some rate => negb (Qle_bool (Draw.random d) rate)
            | None => false
            end
      then (m, e0, Returned, SampledOut)
      else
        match beforeCapture_loop (plugins m) normalizedError SameObject with
        | Vetoed => (m, e0, Returned, VetoedByHook)
        | HookRaised => (m, e0, Raised, HookFailed)
        | Done processedError =>
            if user_missing opts then (m, e0, Raised, BuildFailed)
            else
              let rep := build_report d opts m e0 processedError in
              let e1 := mkEnv (RingBuffer.toArray (breadcrumbs m) (arrays e0)).2
                              (window e0) (disk e0) (wire e0) (regexps e0) (detached e0) in
              match afterCapture_loop (plugins m) rep with
              | None => (m, e1, Raised, HookFailed)
              | Some rep1 => (report (Draw.now d) rep1 m e1, Reported rep1)
              end
        end.

Definition captureError (d : Draw.t) (message : string) (stack : option string)
    (options : option CaptureOptions.t) (m : t) (e : env) : t * env * completion * fate :=
  capture d (AnError message stack) options m e.

(** [captureMessage]: [level] is [None] when the caller leaves it to
    its default, ['info']. *)
Definition captureMessage (d : Draw.t) (message : string) (level : option Level)
    (options : option CaptureOptions.t) (m : t) (e : env) : t * env * completion * fate :=
  let o := default (CaptureOptions.mk Absent None None Absent None None) options in
  capture d (AnEvent (ErrorType.mk custom message None (Some ∅)))
    (Some (CaptureOptions.mk (Present (Some (default info level))) (CaptureOptions.tags o)
             (CaptureOptions.extra o) (CaptureOptions.user o)
             (CaptureOptions.skipSampling o) (CaptureOptions.skipFilter o)))
    m e.

(** [destroy]: the queue is flushed and dropped, the store saved and
    dropped, the plugins and the ring cleared.  The queue is left
    empty and without a timer, so the listeners it keeps find nothing
    to flush; the store keeps its cached reports and its listeners. *)
Definition destroy (m : t) (e : env) : t * env :=
  let '(window1, wire1) :=
    match batchQueue m with
    | Some bq =>
        let '(_, window1, wire1) :=
          BatchQueue.destroy (sendBatchToServer (config m)) bq (window e) (wire e) in
        (window1, wire1)
    | None => (window e, wire e)
    end in
  let disk1 :=
    match offlineCache m with
    | Some oc => OfflineCache.destroy oc (disk e)
    | None => disk e
    end in
  let '(ring, arrays1) := RingBuffer.clear (breadcrumbs m) (arrays e) in
  (mk (config m) false ring [] (sessionId m) None None,
   mkEnv arrays1 window1 disk1 wire1 (regexps e)
         (match offlineCache m with
          | Some oc => Some oc
          | None => detached e
          end)).

(** The calls a host makes on a monitor and the signals the window
    raises for it, as events. *)
Inductive call : Type :=
  | Init
  | Use (p : Plugin.t)
  | Enable
  | Disable
  | AddBreadcrumb (now : nat) (crumb : Breadcrumb.t)
  | Capture (d : Draw.t) (err : raw) (options : option CaptureOptions.t)
  | CaptureError (d : Draw.t) (message : string) (stack : option string)
      (options : option CaptureOptions.t)
  | CaptureMessage (d : Draw.t) (message : string) (level : option Level)
      (options : option CaptureOptions.t)
  | Report (now : nat) (data : ErrorReport.t)
  | Destroy
  | TimerFires (id : nat)
  | PageHide
  | Online
  | Offline.

(** What the host sees of a call: how it completed, and what a capture
    came to. *)
Definition seen : Type := completion * option fate.

Definition on_queue (m : t) (e : env)
    (f : BatchQueue.t ErrorReport.t -> BatchQueue.env ErrorReport.t -> Wire ->
         BatchQueue.t ErrorReport.t * BatchQueue.env ErrorReport.t * Wire)
    : t * env :=
  match batchQueue m with
  | Some bq =>
      let '(bq1, window1, wire1) := f bq (window e) (wire e) in
      (mk (config m) (isInitialized m) (breadcrumbs m) (plugins m) (sessionId m)
          (Some bq1) (offlineCache m),
       mkEnv (arrays e) window1 (disk e) wire1 (regexps e) (detached e))
  | None => (m, e)
  end.

(** A connectivity signal reaches the store through the listener it
    registered when it was made, whether the monitor still holds the
    store or a [destroy] has detached it. *)
Definition on_store (m : t) (e : env)
    (f : OfflineCache.t -> OfflineCache.env ErrorReport.t -> Wire ->
         OfflineCache.t * OfflineCache.env ErrorReport.t * Wire)
    : t * env :=
  match offlineCache m with
  | Some oc =>
      let '(oc1, disk1, wire1) := f oc (disk e) (wire e) in
      (mk (config m) (isInitialized m) (breadcrumbs m) (plugins m) (sessionId m)
          (batchQueue m) (Some oc1),
       mkEnv (arrays e) (window e) disk1 wire1 (regexps e) (detached e))
  | None =>
      match detached e with
      | Some oc =>
          let '(oc1, disk1, wire1) := f oc (disk e) (wire e) in
          (m, mkEnv (arrays e) (window e) disk1 wire1 (regexps e) (Some oc1))
      | None => (m, e)
      end
  end.

Definition api_step (c : call) (s : t * env * list seen) : t * env * list seen :=
  let '(m, e, log) := s in
  match c with
  | Init => (init m, e, log)
  | Use p => (use p m, e, log)
  | Enable => (enable m, e, log)
  | Disable => (disable m, e, log)
  | AddBreadcrumb now crumb => (addBreadcrumb now crumb m e, log)
  | Capture d err options =>
      let '(m1, e1, c1, f1) := capture d err options m e in
      (m1, e1, log ++ [(c1, Some f1)])
  | CaptureError d message stack options =>
      let '(m1, e1, c1, f1) := captureError d message stack options m e in
      (m1, e1, log ++ [(c1, Some f1)])
  | CaptureMessage d message level options =>
      let '(m1, e1, c1, f1) := captureMessage d message level options m e in
      (m1, e1, log ++ [(c1, Some f1)])
  | Report now data =>
      let '(m1, e1, c1) := report now data m e in (m1, e1, log ++ [(c1, None)])
  | Destroy => (destroy m e, log)
  | TimerFires id =>
      (on_queue m e (BatchQueue.fire (sendBatchToServer (config m)) id), log)
  | PageHide =>
      (on_queue m e (BatchQueue.flush (sendBatchToServer (config m))), log)
  | Online =>
      (on_store m e (OfflineCache.handleOnline (sendToServerDirectly (config m))), log)
  | Offline =>
      (on_store m e (λ oc d w, (OfflineCache.handleOffline oc, d, w)), log)
  end.

Definition api_run (calls : list call) (s : t * env * list seen) : t * env * list seen :=
  foldl (λ s c, api_step c s) s calls.

End Sending.

Arguments SameObject {A}.
Arguments Other {A} _.
Arguments Vetoed {A}.
Arguments HookRaised {A}.
Arguments Done {A} _.

(** *** Notions the properties of the monitor are stated with *)

(** A configuration with another [filter.minLevel]. *)
Definition with_minLevel (lvl : option Level) (c : Config.t) : Config.t :=
  Config.mk (Config.appId c) (Config.dsn c) (Config.userId c) (Config.tags c)
    (Config.sampleRate c) (Config.errorSampleRate c)
    ((λ f, Filter.mk (Filter.ignoreErrors f) (Filter.ignoreUrls f) lvl)
       <$> Config.filter c)
    (Config.report c) (Config.debug c) (Config.enabled c).

Definition set_minLevel (lvl : option Level) (m : t) : t :=
  with_config (with_minLevel lvl (config m)) m.

Definition relabel (lvl : option Level) (s : t * env * list seen) : t * env * list seen :=
  (set_minLevel lvl s.1.1, s.1.2, s.2).

(** The object given to the constructor, with the filter [f]. *)
Definition input_with_filter (f : Filter.t) (i : ConfigInput.t) : ConfigInput.t :=
  ConfigInput.mk (ConfigInput.appId i) (ConfigInput.dsn i) (ConfigInput.userId i)
    (ConfigInput.tags i) (ConfigInput.sampleRate i) (ConfigInput.errorSampleRate i)
    (Present (Some f)) (ConfigInput.report i) (ConfigInput.debug i)
    (ConfigInput.enabled i).

(** The options of a capture, with another [level]. *)
Definition options_with_level (lvl : prop Level) (o : CaptureOptions.t)
    : CaptureOptions.t :=
  CaptureOptions.mk lvl (CaptureOptions.tags o) (CaptureOptions.extra o)
    (CaptureOptions.user o) (CaptureOptions.skipSampling o)
    (CaptureOptions.skipFilter o).

(** A plugin whose [beforeCapture] leaves its argument alone and
    returns the new event [f] makes of it. *)
Definition returning (f : ErrorType.t -> ErrorType.t) : Plugin.t :=
  Plugin.mk "returning" (Some (λ err, HookReturns err (Ret (RetNew (f err))))) None None.

(** The [beforeCapture] hooks as the specification words them: each
    hook is called on the working copy the hooks before it left. *)
Fixpoint beforeCapture_chained (ps : list Plugin.t) (copy : ErrorType.t)
    : loop_end ErrorType.t :=
  match ps with
  | [] => Done copy
  | p :: ps' =>
      match Plugin.beforeCapture p with
      | None => beforeCapture_chained ps' copy
      | Some hook =>
          match hook copy with
          | HookThrows => HookRaised
          | HookReturns _ RetNull => Vetoed
          | HookReturns copy' (Ret (RetNew a)) => beforeCapture_chained ps' a
          | HookReturns copy' (Ret _) => beforeCapture_chained ps' copy'
          end
      end
  end.

(** *** The methods that change the configuration *)

Definition SAMPLING_MIN_RATE : Q := 0%Q.
Definition SAMPLING_MAX_RATE : Q := 1%Q.

(** [Math.min] and [Math.max] on two numbers. *)
Definition Math_min (a b : Q) : Q := if Qle_bool a b then a else b.

Definition Math_max (a b : Q) : Q := if Qle_bool a b then b else a.

(** The argument of [updateConfig], a [Partial<Config>]: a property
    that is present replaces the one the monitor holds. *)
Module ConfigUpdate.
Record t : Type := mk {
  appId : option string;
  dsn : option string;
  userId : prop string;
  tags : prop dict;
  sampleRate : prop Q;
  errorSampleRate : prop Q;
  filter : prop Filter.t;
  report : prop ReportConfig.t;
  debug : prop bool;
  enabled : prop bool
}.
End ConfigUpdate.

(** One property of [{...old, ...updates}]. *)
Definition spread_over {A} (old : option A) (p : prop A) : option A :=
  match p with
  | Absent => old
  | Present v => v
  end.

Definition updateConfig (updates : ConfigUpdate.t) (m : t) : t :=
  let c := config m in
  with_config
    (Config.mk (default (Config.appId c) (ConfigUpdate.appId updates))
       (default (Config.dsn c) (ConfigUpdate.dsn updates))
       (spread_over (Config.userId c) (ConfigUpdate.userId updates))
       (spread_over (Config.tags c) (ConfigUpdate.tags updates))
       (spread_over (Config.sampleRate c) (ConfigUpdate.sampleRate updates))
       (spread_over (Config.errorSampleRate c) (ConfigUpdate.errorSampleRate updates))
       (spread_over (Config.filter c) (ConfigUpdate.filter updates))
       (spread_over (Config.report c) (ConfigUpdate.report updates))
       (spread_over (Config.debug c) (ConfigUpdate.debug updates))
       (spread_over (Config.enabled c) (ConfigUpdate.enabled updates)))
    m.

(** [addFilter]: a missing filter, or a missing [ignoreErrors], is
    created first. *)
Definition addFilter (pattern : RegExp.t) (m : t) : t :=
  let c := config m in
  let f := default (Filter.mk None None None) (Config.filter c) in
  with_config
    (Config.mk (Config.appId c) (Config.dsn c) (Config.userId c) (Config.tags c)
       (Config.sampleRate c) (Config.errorSampleRate c)
       (Some (Filter.mk (Some (default [] (Filter.ignoreErrors f) ++ [pattern]))
                        (Filter.ignoreUrls f) (Filter.minLevel f)))
       (Config.report c) (Config.debug c) (Config.enabled c))
    m.

Definition setSampleRate (rate : Q) (m : t) : t :=
  let c := config m in
  with_config
    (Config.mk (Config.appId c) (Config.dsn c) (Config.userId c) (Config.tags c)
       (Some (Math_max SAMPLING_MIN_RATE (Math_min SAMPLING_MAX_RATE rate)))
       (Config.errorSampleRate c) (Config.filter c)
       (Config.report c) (Config.debug c) (Config.enabled c))
    m.

Definition setErrorSampleRate (rate : Q) (m : t) : t :=
  let c := config m in
  with_config
    (Config.mk (Config.appId c) (Config.dsn c) (Config.userId c) (Config.tags c)
       (Config.sampleRate c)
       (Some (Math_max SAMPLING_MIN_RATE (Math_min SAMPLING_MAX_RATE rate)))
       (Config.filter c)
       (Config.report c) (Config.debug c) (Config.enabled c))
    m.

(** [setUser]: [user] is the object passed, its properties strings;
    [user.id] is its property "id". *)
Definition setUser (user : dict) (m : t) : t :=
  let c := config m in
  with_config
    (Config.mk (Config.appId c) (Config.dsn c)
       (user !! "id")
       (Some (user ∪ default ∅ (Config.tags c)))
       (Config.sampleRate c) (Config.errorSampleRate c) (Config.filter c)
       (Config.report c) (Config.debug c) (Config.enabled c))
    m.

(** The calls of [call] and the methods above, as events. *)
Inductive action : Type :=
  | Call (c : call)
  | UpdateConfig (updates : ConfigUpdate.t)
  | AddFilter (pattern : RegExp.t)
  | SetSampleRate (rate : Q)
  | SetErrorSampleRate (rate : Q)
  | SetUser (user : dict).

Definition act_step (host : Host.t) (a : action) (s : t * env * list seen)
    : t * env * list seen :=
  match a with
  | Call c => api_step host c s
  | UpdateConfig updates => (updateConfig updates s.1.1, s.1.2, s.2)
  | AddFilter pattern => (addFilter pattern s.1.1, s.1.2, s.2)
  | SetSampleRate rate => (setSampleRate rate s.1.1, s.1.2, s.2)
  | SetErrorSampleRate rate => (setErrorSampleRate rate s.1.1, s.1.2, s.2)
  | SetUser user => (setUser user s.1.1, s.1.2, s.2)
  end.

Definition act_run (host : Host.t) (acts : list action) (s : t * env * list seen)
    : t * env * list seen :=
  foldl (λ s a, act_step host a s) s acts.

(** The breadcrumb [addBreadcrumb] stores for [crumb] at time [now]. *)
Definition stamp (now : nat) (crumb : Breadcrumb.t) : Breadcrumb.t :=
  Breadcrumb.mk (match Breadcrumb.timestamp crumb with 0 => now | S n => S n end)
    (Breadcrumb.type crumb) (Breadcrumb.message crumb) (Breadcrumb.data crumb).

(** The breadcrumbs added since the monitor was made or last
    destroyed, oldest first and as [addBreadcrumb] stores them, given
    the breadcrumbs [l] added before the run. *)
Definition trail (l : list Breadcrumb.t) (acts : list action) : list Breadcrumb.t :=
  foldl (λ l a,
           match a with
           | Call (AddBreadcrumb now crumb) => l ++ [stamp now crumb]
           | Call Destroy => []
           | _ => l
           end) l acts.

(** [addBreadcrumb] of the earlier monitor, whose breadcrumbs are a
    plain array cut back with [shift]. *)
Definition maxBreadcrumbs : nat := 50.

Definition addBreadcrumb_array (now : nat) (crumb : Breadcrumb.t)
    (breadcrumbs : list Breadcrumb.t) : list Breadcrumb.t :=
  let pushed := breadcrumbs ++ [stamp now crumb] in
  if decide (maxBreadcrumbs < length pushed) then drop 1 pushed else pushed.

(** *** Notions the further properties of the monitor are stated with *)



(** A configuration with another [sampleRate]. *)
Definition with_sampleRate (rate : option Q) (c : Config.t) : Config.t :=
  Config.mk (Config.appId c) (Config.dsn c) (Config.userId c) (Config.tags c)
    rate (Config.errorSampleRate c) (Config.filter c)
    (Config.report c) (Config.debug c) (Config.enabled c).

Definition resample (rate : option Q) (s : t * env * list seen) : t * env * list seen :=
  (with_config (with_sampleRate rate (config s.1.1)) s.1.1, s.1.2, s.2).

(** No plugin has an [afterCapture] hook. *)
Definition no_afterCapture (m : t) : Prop :=
  Forall (λ p, Plugin.afterCapture p = None) (plugins m).

(** The ring holds the last breadcrumbs of [l]. *)
Definition crumbs_kept (l : list Breadcrumb.t) (m : t) (e : env) : Prop :=
  RingBuffer.represents BREADCRUMBS_MAX_SIZE (breadcrumbs m) (arrays e)
    (RingBuffer.last_n BREADCRUMBS_MAX_SIZE l).

(** What reporting keeps of the monitor [m] in [e]: the configuration,
    the ring, the configuration of the batch queue and, unless the
    monitor has a store and no queue, the store and its surroundings. *)
Definition kept (m : t) (e : env) (m' : t) (e' : env) : Prop :=
  config m' = config m ∧ breadcrumbs m' = breadcrumbs m ∧ plugins m' = plugins m
  ∧ (∀ bq, batchQueue m = Some bq →
       ∃ bq', batchQueue m' = Some bq'
              ∧ BatchQueue.config bq' = BatchQueue.config bq
              ∧ offlineCache m' = offlineCache m ∧ disk e' = disk e)
  ∧ (batchQueue m = None → batchQueue m' = None)
  ∧ (offlineCache m = None → offlineCache m' = None ∧ disk e' = disk e).

(** What every call and signal keeps, from the monitor [m] in [e] to
    [m'] in [e']: a batch queue is the one there was, with its
    configuration; a monitor that loses its queue loses its store; no
    store appears; and unless the monitor has a store and no queue, no
    cached report is created. *)
Definition follows (m : t) (e : env) (m' : t) (e' : env) : Prop :=
  (∀ bq', batchQueue m' = Some bq' →
     ∃ bq, batchQueue m = Some bq ∧ BatchQueue.config bq' = BatchQueue.config bq)
  ∧ (batchQueue m' = None → batchQueue m = None ∨ offlineCache m' = None)
  ∧ (offlineCache m = None → offlineCache m' = None)
  ∧ (batchQueue m ≠ None ∨ offlineCache m = None →
     length (OfflineCache.heap (disk e')) = length (OfflineCache.heap (disk e))).

(** The one way out the configuration and the host leave to a payload:
    the custom reporter when there is one, else [sendBeacon], else
    [fetch], else none. *)
Definition channel (host : Host.t) (cfg : Config.t) (ev : WireEvent) : Prop :=
  match Config.report cfg ≫= ReportConfig.customReporter with
  | Some _ => ∃ p, ev = ToCustomReporter p
  | None =>
      match Host.navigator host with
      | None => False
      | Some nav =>
          match Navigator.sendBeacon nav with
          | Some _ => ∃ p, ev = ToBeacon (Config.dsn cfg) p
          | None => Host.fetch_defined host = true ∧ ∃ p, ev = ToFetch (Config.dsn cfg) p
          end
      end
  end.

(** The wire holds [w0] and then only events of that channel. *)
Definition on_channel (host : Host.t) (cfg : Config.t) (w0 w : Wire) : Prop :=
  ∃ sent, w = w0 ++ sent ∧ Forall (channel host cfg) sent.

(** The monitor sends by the configuration [cfg0], and the wire holds
    [w0] and then only events of its channel. *)
Definition sends_by (host : Host.t) (cfg0 : Config.t) (w0 : Wire) (m : t) (e : env) : Prop :=
  Config.report (config m) = Config.report cfg0
  ∧ Config.dsn (config m) = Config.dsn cfg0
  ∧ on_channel host cfg0 w0 (wire e).

(** A call that keeps the queue and hands it only what a capture
    built: no [destroy], no direct [report], no plugin with a
    [beforeReport] hook. *)
Definition calm (c : call) : bool :=
  match c with
  | Destroy | Report _ _ => false
  | Use p => match Plugin.beforeReport p with None => true | Some _ => false end
  | _ => true
  end.

(** The reports the captures of a log built, oldest first. *)
Definition reported (log : list seen) : list ErrorReport.t :=
  omap (λ x, match x.2 with Some (Reported r) => Some r | _ => None end) log.

(** The monitor batches, and its queue has taken [base] and then the
    reports its captures built. *)
Definition delivering (base : list ErrorReport.t) (s : t * env * list seen) : Prop :=
  Forall (λ p, Plugin.beforeReport p = None) (plugins s.1.1)
  ∧ ∃ bq, batchQueue s.1.1 = Some bq
          ∧ BatchQueue.enabled (BatchQueue.config bq) = true
          ∧ BatchQueue.accepted bq (window s.1.2) = base ++ reported s.2.

(** An event other than the [online] signal. *)
Definition not_online (a : action) : bool :=
  match a with
  | Call Online => false
  | _ => true
  end.

(** The cached reports are as they were: the same objects, the same
    attempts, and the store, while there is one, holds the same queue. *)
Definition untouched (m : t) (e : env) (m' : t) (e' : env) : Prop :=
  OfflineCache.heap (disk e') = OfflineCache.heap (disk e)
  ∧ OfflineCache.attempts (disk e') = OfflineCache.attempts (disk e)
  ∧ ∀ oc', offlineCache m' = Some oc' →
      ∃ oc, offlineCache m = Some oc
            ∧ OfflineCache.cacheQueue oc' = OfflineCache.cacheQueue oc.

(** A call that leaves the monitor offline and hands the store only
    what a capture built. *)
Definition offline_call (c : call) : bool :=
  calm c && match c with Online => false | _ => true end.

(** The monitor has no queue and an offline store; since the wire was
    [w0] and the attempts [att0] nothing was sent or attempted, and the
    store holds the last hundred reports its captures built. *)
Definition caching (w0 : Wire) (att0 : list ErrorReport.t) (s : t * env * list seen)
    : Prop :=
  Forall (λ p, Plugin.beforeReport p = None) (plugins s.1.1)
  ∧ batchQueue s.1.1 = None
  ∧ wire s.1.2 = w0
  ∧ OfflineCache.attempts (disk s.1.2) = att0
  ∧ ∃ oc, offlineCache s.1.1 = Some oc
          ∧ OfflineCache.isOnline oc = false
          ∧ OfflineCache.enabled (OfflineCache.config oc) = true
          ∧ OfflineCache.maxCacheSize (OfflineCache.config oc) = 100
          ∧ OfflineCache.wf oc (disk s.1.2)
          ∧ OfflineCache.report
              <$> OfflineCache.contents (OfflineCache.cacheQueue oc)
                    (OfflineCache.heap (disk s.1.2))
            = RingBuffer.last_n 100 (reported s.2).

End ErrorMonitor.

(** ** Log output: [Logger]

    The console is the list of the lines written to it, oldest first. *)

Module Logger.

Inductive LogLevel : Type := DEBUG | INFO | WARN | ERROR | SILENT.

(** The number an enum member stands for. *)
Definition value (l : LogLevel) : nat :=
  match l with
  | DEBUG => 0
  | INFO => 1
  | WARN => 2
  | ERROR => 3
  | SILENT => 4
  end.

(** A call of a console method: the method, the prefix and the
    arguments. *)
Inductive method : Type := console_log | console_info | console_warn | console_error.

Record line : Type := mkLine {
  via : method;
  prefix : string;
  args : list string
}.

Record t : Type := mk {
  level : LogLevel
}.

(** The constructor; an argument left out is [None]. *)
Definition new (enabled : option bool) (lvl : option LogLevel) : t :=
  mk (if default true enabled then default INFO lvl else SILENT).

Definition setLevel (lvl : LogLevel) (lg : t) : t := mk lvl.



Definition debug (lg : t) (args : list string) (console : list line) : list line :=
  if decide (value (level lg) ≤ value DEBUG)
  then console ++ [mkLine console_log "[ErrorMonitor:DEBUG]" args]
  else console.

Definition info (lg : t) (args : list string) (console : list line) : list line :=
  if decide (value (level lg) ≤ value INFO)
  then console ++ [mkLine console_info "[ErrorMonitor:INFO]" args]
  else console.

Definition warn (lg : t) (args : list string) (console : list line) : list line :=
  if decide (value (level lg) ≤ value WARN)
  then console ++ [mkLine console_warn "[ErrorMonitor:WARN]" args]
  else console.

Definition error (lg : t) (args : list string) (console : list line) : list line :=
  if decide (value (level lg) ≤ value ERROR)
  then console ++ [mkLine console_error "[ErrorMonitor:ERROR]" args]
  else console.

Definition createLogger (enabled : option bool) (lvl : option LogLevel) : t :=
  new enabled lvl.

(** *** The logger of a monitor

    What the constructor, [enable] and [disable] of [ErrorMonitor] do
    with the monitor's logger. *)

Definition of_monitor (cfg : ErrorMonitor.Config.t) : t :=
  new (ErrorMonitor.Config.enabled cfg)
      (Some (if default false (ErrorMonitor.Config.debug cfg) then DEBUG else INFO)).



End Logger.

(** ** Timing records: [PerformanceMonitor]

    Times and durations are JavaScript numbers; the subtraction, and
    the average, maximum and minimum of a list of them, are
    parameters.  The value of [performance.now()] is an argument.
    Console output is left out. *)

Module PerformanceMonitor.

(** A value in the metadata of an entry. *)
Inductive value : Type :=
  | Str (s : string)
  | Flag (b : bool)
  | Undefined.

Abbreviation metadata := (gmap string value).

Inductive EntryType : Type := init | process | upload.

Section Monitor.

Context {num : Type}.

Variable minus : num -> num -> num.
Variable average maximum minimum : list num -> num.

Record PerformanceEntry : Type := mkEntry {
  type : EntryType;
  startTime : num;
  endTime : num;
  duration : num;
  meta : option metadata
}.

Record InitTime : Type := mkInitTime {
  init_startTime : num;
  init_endTime : num;
  init_duration : num
}.

Record ErrorProcessing : Type := mkErrorProcessing {
  totalErrors : nat;
  averageProcessingTime : num;
  maxProcessingTime : num;
  minProcessingTime : num
}.

Record Upload : Type := mkUpload {
  totalUploads : nat;
  averageUploadTime : num;
  maxUploadTime : num;
  minUploadTime : num;
  upload_failedUploads : nat
}.

Record Memory : Type := mkMemory {
  usedJSHeapSize : num;
  totalJSHeapSize : num;
  jsHeapSizeLimit : num
}.

Record PerformanceMetrics : Type := mkMetrics {
  initTime : option InitTime;
  errorProcessing : option ErrorProcessing;
  upload_metrics : option Upload;
  memory : option Memory
}.

Record t : Type := mk {
  metrics : PerformanceMetrics;
  entries : list PerformanceEntry;
  errorProcessingTimes : list num;
  uploadTimes : list num;
  failedUploads : nat;
  initStartTime : option num;
  initEndTime : option num
}.

Definition new : t := mk (mkMetrics None None None None) [] [] [] 0 None None.

Definition startInit (now : num) (p : t) : t :=
  mk (metrics p) (entries p) (errorProcessingTimes p) (uploadTimes p)
     (failedUploads p) (Some now) (initEndTime p).

Definition endInit (now : num) (p : t) : t :=
  match initStartTime p with
  | None => p
  | Some start =>
      let d := minus now start in
      mk (mkMetrics (Some (mkInitTime start now d)) (errorProcessing (metrics p))
                    (upload_metrics (metrics p)) (memory (metrics p)))
         (entries p ++ [mkEntry init start now d (Some ∅)])
         (errorProcessingTimes p) (uploadTimes p) (failedUploads p)
         (Some start) (Some now)
  end.

Definition updateErrorProcessingMetrics (p : t) : t :=
  match errorProcessingTimes p with
  | [] => p
  | _ :: _ =>
      let times := errorProcessingTimes p in
      mk (mkMetrics (initTime (metrics p))
                    (Some (mkErrorProcessing (length times) (average times)
                                             (maximum times) (minimum times)))
                    (upload_metrics (metrics p)) (memory (metrics p)))
         (entries p) (errorProcessingTimes p) (uploadTimes p) (failedUploads p)
         (initStartTime p) (initEndTime p)
  end.

Definition updateUploadMetrics (p : t) : t :=
  match uploadTimes p with
  | [] => p
  | _ :: _ =>
      let times := uploadTimes p in
      mk (mkMetrics (initTime (metrics p)) (errorProcessing (metrics p))
                    (Some (mkUpload (length times) (average times)
                                    (maximum times) (minimum times) (failedUploads p)))
                    (memory (metrics p)))
         (entries p) (errorProcessingTimes p) (uploadTimes p) (failedUploads p)
         (initStartTime p) (initEndTime p)
  end.

(** [recordErrorProcessing(startTime, metadata)] when [performance.now()]
    is [now]. *)
Definition recordErrorProcessing (now startTime : num) (md : option metadata) (p : t) : t :=
  let d := minus now startTime in
  updateErrorProcessingMetrics
    (mk (metrics p) (entries p ++ [mkEntry process startTime now d md])
        (errorProcessingTimes p ++ [d]) (uploadTimes p) (failedUploads p)
        (initStartTime p) (initEndTime p)).

(** [recordUpload(startTime, success, metadata)] when
    [performance.now()] is [now]. *)
Definition recordUpload (now startTime : num) (success : bool) (md : option metadata)
    (p : t) : t :=
  let d := minus now startTime in
  updateUploadMetrics
    (mk (metrics p)
        (entries p
         ++ [mkEntry upload startTime now d
               (Some (<["success" := Flag success]> (default ∅ md)))])
        (errorProcessingTimes p)
        (if success then uploadTimes p ++ [d] else uploadTimes p)
        (if success then failedUploads p else S (failedUploads p))
        (initStartTime p) (initEndTime p)).

(** [getMetrics()]; [mem] is [performance.memory], [None] where the
    host has none.  The metrics object is returned and kept. *)
Definition getMetrics (mem : option Memory) (p : t) : PerformanceMetrics * t :=
  let m :=
    match mem with
    | Some x => mkMetrics (initTime (metrics p)) (errorProcessing (metrics p))
                          (upload_metrics (metrics p)) (Some x)
    | None => metrics p
    end in
  (m, mk m (entries p) (errorProcessingTimes p) (uploadTimes p) (failedUploads p)
         (initStartTime p) (initEndTime p)).

Definition getEntries (p : t) : list PerformanceEntry := entries p.

(** [a.slice(start)] for an integer [start]. *)
Definition slice {A} (start : Z) (a : list A) : list A :=
  if decide (start < 0)%Z
  then drop (Z.to_nat (Z.max (Z.of_nat (length a) + start) 0)) a
  else drop (Z.to_nat (Z.min start (Z.of_nat (length a)))) a.

(** [getRecentEntries(count)] for an integer [count]. *)
Definition getRecentEntries (count : Z) (p : t) : list PerformanceEntry :=
  slice (- count) (entries p).

Definition clear (p : t) : t := new.

(** The calls that change a performance monitor, as events. *)
Inductive op : Type :=
  | StartInit (now : num)
  | EndInit (now : num)
  | RecordErrorProcessing (now startTime : num) (md : option metadata)
  | RecordUpload (now startTime : num) (success : bool) (md : option metadata)
  | GetMetrics (mem : option Memory)
  | Clear.

Definition step (o : op) (p : t) : t :=
  match o with
  | StartInit now => startInit now p
  | EndInit now => endInit now p
  | RecordErrorProcessing now startTime md => recordErrorProcessing now startTime md p
  | RecordUpload now startTime success md => recordUpload now startTime success md p
  | GetMetrics mem => (getMetrics mem p).2
  | Clear => clear p
  end.

Definition run (ops : list op) (p : t) : t := foldl (λ p o, step o p) p ops.

(** *** Notions the properties of the performance monitor are stated with *)

(** What a run of events has recorded since the last [Clear], given
    what was recorded before it: the error processings, the uploads
    that succeeded and those that failed. *)
Record tally : Type := mkTally {
  processed : nat;
  succeeded : nat;
  failed : nat
}.

Definition count (c : tally) (o : op) : tally :=
  match o with
  | RecordErrorProcessing _ _ _ => mkTally (S (processed c)) (succeeded c) (failed c)
  | RecordUpload _ _ true _ => mkTally (processed c) (S (succeeded c)) (failed c)
  | RecordUpload _ _ false _ => mkTally (processed c) (succeeded c) (S (failed c))
  | Clear => mkTally 0 0 0
  | _ => c
  end.

Definition tally_of (ops : list op) : tally := foldl count (mkTally 0 0 0) ops.

(** The monitor [p] shows the tally [c]. *)
Definition shows (c : tally) (p : t) : Prop :=
  length (errorProcessingTimes p) = processed c
  ∧ length (uploadTimes p) = succeeded c
  ∧ failedUploads p = failed c
  ∧ totalErrors <$> errorProcessing (metrics p)
    = (if decide (processed c = 0) then None else Some (processed c))
  ∧ (λ u, (totalUploads u, upload_failedUploads u)) <$> upload_metrics (metrics p)
    = (if decide (succeeded c = 0) then None else Some (succeeded c, failed c)).

End Monitor.

Arguments PerformanceEntry : clear implicits.
Arguments InitTime : clear implicits.
Arguments ErrorProcessing : clear implicits.
Arguments Upload : clear implicits.
Arguments Memory : clear implicits.
Arguments PerformanceMetrics : clear implicits.
Arguments t : clear implicits.
Arguments op : clear implicits.

End PerformanceMonitor.

(** ** Browser front end: the manual captures of [ErrorMonitorWeb]

    [captureError] and [captureMessage] as the web monitor that adds no
    timing to [capture] has them: both call the [capture] of
    [ErrorMonitor] on an event they build, without options. *)

Module ErrorMonitorWeb.

Import ErrorMonitor.

Section Web.

Variable host : Host.t.

(** [captureError(error, context)]: [message] and [stack] are those of
    the [Error]. *)
Definition captureError (d : Draw.t) (message : string) (stack : option string)
    (context : option dict) (m : t) (e : env) : t * env * completion * fate :=
  capture host d (AnEvent (ErrorType.mk custom message stack context)) None m e.

(** [captureMessage(message, level)]: [level] is [None] when the caller
    leaves it to its default, ['info']. *)
Definition captureMessage (d : Draw.t) (message : string) (level : option string)
    (m : t) (e : env) : t * env * completion * fate :=
  capture host d
    (AnEvent (ErrorType.mk custom message None
                (Some {[ "level" := default "info" level ]})))
    None m e.

End Web.

End ErrorMonitorWeb.

(** ** Concrete hosts, senders and stores used in the examples *)

Module Examples.

(** A transport that takes every report, one whose promise always
    rejects. *)
Definition accepting : string -> unit -> unit * outcome :=
  λ _ w, (w, Resolves).

Definition failing : string -> unit -> unit * outcome :=
  λ _ w, (w, Rejects).

(** A batch sender that takes every batch. *)
Definition batch_accepting : list string -> unit -> unit * outcome :=
  λ _ w, (w, Resolves).

(** An environment with no objects and an empty, working storage. *)
Definition fresh_disk : OfflineCache.env string :=
  OfflineCache.mkEnv [] (Some (OfflineCache.mkStorage None false [])) [].

(** A storage that holds three cached reports from an earlier page. *)
Definition disk_of_three : OfflineCache.env string :=
  OfflineCache.mkEnv []
    (Some (OfflineCache.mkStorage
             (Some (OfflineCache.Json [OfflineCache.mkCached "X" 1 0;
                                       OfflineCache.mkCached "Y" 2 0;
                                       OfflineCache.mkCached "Z" 3 0]))
             false []))
    [].

(** A store that went offline, cached the report X and came back
    online with the failing transport: X has failed once. *)
Definition failed_once : OfflineCache.t * OfflineCache.env string * unit :=
  OfflineCache.run failing
    [OfflineCache.Offline; OfflineCache.Cache 0 "X"; OfflineCache.Online]
    (OfflineCache.new (OfflineCache.mkConfig 100 true "k") (Some true) fresh_disk, tt).

(** *** Monitors *)

Import ErrorMonitor.

(** A plugin whose [beforeCapture] returns a new event, the message
    extended by [suffix]. *)
Definition appending (suffix : string) : Plugin.t :=
  Plugin.mk ("append-" +:+ suffix)
    (Some (λ err,
       HookReturns err
         (Ret (RetNew (ErrorType.mk (ErrorType.type err)
                         (ErrorType.message err +:+ suffix)
                         (ErrorType.stack err) (ErrorType.context err))))))
    None None.

(** A plugin whose [beforeCapture] throws. *)
Definition throwing_plugin : Plugin.t :=
  Plugin.mk "throwing" (Some (λ _, HookThrows)) None None.

(** A browser whose [sendBeacon] takes every payload, and one whose
    [sendBeacon] throws. *)
Definition browser : Host.t :=
  Host.mk (Some (Navigator.mk "agent" true (Some (λ _ _, Resolves))))
          (Some "http://app.example/") (Some (800, 600)) true.

Definition browser_beacon_throws : Host.t :=
  Host.mk (Some (Navigator.mk "agent" true (Some (λ _ _, Throws))))
          (Some "http://app.example/") (Some (800, 600)) true.

(** The object given to the constructor: only [appId] and [dsn]. *)
Definition minimal_input : ConfigInput.t :=
  ConfigInput.mk "app" "http://collect.example/" None None
    Absent Absent Absent Absent Absent Absent.

(** The same with [report: undefined]. *)
Definition input_report_undefined : ConfigInput.t :=
  ConfigInput.mk "app" "http://collect.example/" None None
    Absent Absent Absent (Present None) Absent Absent.

(** The same with a custom reporter that throws. *)
Definition input_reporter_throws : ConfigInput.t :=
  ConfigInput.mk "app" "http://collect.example/" None None
    Absent Absent Absent
    (Present (Some (ReportConfig.mk None None (Some (λ _, Throws)))))
    Absent Absent.

(** The surroundings of a new page: no objects, no timers, an empty
    working storage, nothing sent. *)
Definition fresh_env : env :=
  mkEnv [] (BatchQueue.mkEnv [] 1 [])
        (OfflineCache.mkEnv [] (Some (OfflineCache.mkStorage None false [])) [])
        [] ∅ None.

Definition draw : Draw.t := Draw.mk 1000 (1 # 2) "event-1".

(** A browser that is offline. *)
Definition browser_offline : Host.t :=
  Host.mk (Some (Navigator.mk "agent" false (Some (λ _ _, Resolves))))
          (Some "http://app.example/") (Some (800, 600)) true.

End Examples.

(** * Properties *)

Module RingBufferFacts.
Import RingBuffer.

Section Facts.

Context {T : Type}.
Implicit Types (rb : t) (h : arrays T) (l items : list T) (x : T).

Lemma rem_inj N hd i j :
  i < N → j < N → (hd + i) mod N = (hd + j) mod N → i = j.
Proof.
  intros Hi Hj E.
  pose proof (Nat.div_mod_eq (hd + i) N) as E1.
  pose proof (Nat.div_mod_eq (hd + j) N) as E2.
  rewrite E in E1.
  set (q1 := (hd + i) / N) in *. set (q2 := (hd + j) / N) in *.
  set (r := (hd + j) mod N) in *.
  destruct (lt_eq_lt_dec q1 q2) as [[Hq|Hq]|Hq]; [|subst; lia|].
  - assert (N * q1 + N ≤ N * q2) by nia. lia.
  - assert (N * q2 + N ≤ N * q1) by nia. lia.
Qed.

Lemma rem_wrap N hd : 0 < N → hd < N → (hd + N) mod N = hd.
Proof.
  intros. replace (hd + N) with (hd + 1 * N) by lia.
  rewrite Nat.Div0.mod_add. by apply Nat.mod_small.
Qed.

Lemma rem_shift N hd i : (((hd + 1) mod N) + i) mod N = (hd + S i) mod N.
Proof.
  rewrite Nat.Div0.add_mod_idemp_l. f_equal. lia.
Qed.

Lemma push_buffer rb x h : buffer (push rb x h).1 = buffer rb.
Proof. unfold push. by case_decide. Qed.

Lemma push_length rb x h : length (push rb x h).2 = length h.
Proof. unfold push. case_decide; simpl; by rewrite length_insert. Qed.

Lemma push_frame rb x h a : a ≠ buffer rb → (push rb x h).2 !! a = h !! a.
Proof.
  intros Ha. unfold push. case_decide; simpl; by rewrite list_lookup_insert_ne.
Qed.

Lemma pushes_buffer items : ∀ rb h, buffer (pushes rb items h).1 = buffer rb.
Proof.
  induction items as [|x items IH]; intros rb h; simpl; [done|].
  destruct (push rb x h) as [rb' h'] eqn:E. rewrite IH.
  change rb' with (rb', h').1. rewrite <- E. apply push_buffer.
Qed.

Lemma pushes_frame items : ∀ rb h a,
  a ≠ buffer rb → (pushes rb items h).2 !! a = h !! a.
Proof.
  induction items as [|x items IH]; intros rb h a Ha; simpl; [done|].
  destruct (push rb x h) as [rb' h'] eqn:E.
  assert (buffer rb' = buffer rb) as Eb
    by (change rb' with (rb', h').1; rewrite <- E; apply push_buffer).
  rewrite IH by congruence.
  change h' with (rb', h').2. rewrite <- E. by apply push_frame.
Qed.

Lemma new_represents N h : 0 < N → represents N (new N h).1 (new N h).2 [].
Proof.
  intros HN. unfold represents, new, backing; simpl.
  rewrite length_app; simpl. repeat split; try lia.
  exists 0. rewrite lookup_app_r by lia. rewrite Nat.sub_diag; simpl.
  rewrite length_replicate. repeat split; try done; try lia.
  by rewrite Nat.Div0.mod_0_l.
Qed.

Lemma rem_pos n N : 0 < N → JS.rem (JS.Num n) N = JS.Num (n mod N).
Proof. destruct N; [lia|done]. Qed.

Lemma push_represents N rb h l x :
  0 < N → represents N rb h l →
  represents N (push rb x h).1 (push rb x h).2 (retain N l x).
Proof.
  intros HN (Hc & Hs & Hl & Hb & hd & Hh & Hhd & Ht & Hlen & Hel).
  assert (Hm : (hd + length l) mod N < N) by (apply Nat.mod_upper_bound; lia).
  assert (Hback : backing (push rb x h).1 (push rb x h).2
                  = JS.mkArray (<[(hd + length l) mod N := Some x]> (JS.elems (backing rb h)))
                               (JS.prop_NaN (backing rb h))).
  { unfold backing at 1. rewrite push_buffer. unfold push.
    case_decide; simpl; rewrite list_lookup_insert_eq by done; simpl;
      rewrite Ht; unfold JS.set; rewrite decide_True by lia; done. }
  unfold represents. rewrite Hback, push_buffer, push_length.
  cbn [JS.elems]. rewrite length_insert.
  unfold retain, push. rewrite Hc, Hs, Ht, Hh. unfold JS.add.
  rewrite !rem_pos by done.
  case_decide as Hfull; cbn [fst snd capacity _size head tail].
  - rewrite length_app; simpl.
    repeat split; try lia.
    exists hd. repeat split; try done.
    + f_equal. rewrite Nat.Div0.add_mod_idemp_l. f_equal. lia.
    + intros i Hi.
      destruct (decide (i = length l)) as [->|Hne].
      * rewrite list_lookup_insert_eq by lia.
        by rewrite lookup_app_r, Nat.sub_diag by lia.
      * rewrite list_lookup_insert_ne.
        2:{ intros E. apply rem_inj in E; lia. }
        rewrite lookup_app_l by lia. apply Hel. lia.
  - assert (length l = N) as HlN by lia.
    rewrite length_app, length_drop; simpl.
    repeat split; try lia.
    exists ((hd + 1) mod N).
    assert ((hd + 1) mod N < N) by (apply Nat.mod_upper_bound; lia).
    repeat split; try done.
    + f_equal. rewrite !Nat.Div0.add_mod_idemp_l. f_equal. lia.
    + intros i Hi. rewrite rem_shift.
      rewrite HlN, rem_wrap by lia.
      destruct (decide (S i = N)) as [E|Hne].
      * rewrite E, rem_wrap by lia.
        rewrite list_lookup_insert_eq by lia.
        rewrite lookup_app_r by (rewrite length_drop; lia).
        rewrite length_drop, HlN.
        by replace (i - (N - 1)) with 0 by lia.
      * rewrite list_lookup_insert_ne.
        2:{ intros E. pose proof (rem_inj N hd 0 (S i)) as R.
            rewrite Nat.add_0_r, (Nat.mod_small hd) in R by lia.
            specialize (R ltac:(lia) ltac:(lia) E). lia. }
        rewrite lookup_app_l by (rewrite length_drop; lia).
        rewrite lookup_drop. rewrite Hel by lia. done.
Qed.

Lemma pushes_length items : ∀ rb h, length (pushes rb items h).2 = length h.
Proof.
  induction items as [|x items IH]; intros rb h; simpl; [done|].
  destruct (push rb x h) as [rb' h'] eqn:E. rewrite IH.
  change h' with (rb', h').2. rewrite <- E. apply push_length.
Qed.

Lemma pushes_represents N items : ∀ rb h l,
  0 < N → represents N rb h l →
  represents N (pushes rb items h).1 (pushes rb items h).2 (foldl (retain N) l items).
Proof.
  induction items as [|x items IH]; intros rb h l HN R; simpl; [done|].
  pose proof (push_represents N rb h l x HN R) as R'.
  destruct (push rb x h) as [rb' h']. by apply IH.
Qed.

Lemma length_last_n n l : length (last_n n l) = n `min` length l.
Proof. unfold last_n. rewrite length_drop. lia. Qed.

Lemma retain_last_n N l x :
  0 < N → retain N (last_n N l) x = last_n N (l ++ [x]).
Proof.
  intros HN. unfold retain. rewrite length_last_n. unfold last_n.
  rewrite length_app; simpl. case_decide.
  - replace (length l - N) with 0 by lia.
    by replace (length l + 1 - N) with 0 by lia.
  - rewrite drop_drop, drop_app_le by lia.
    by replace (length l - N + 1) with (length l + 1 - N) by lia.
Qed.

Lemma retain_all N items : ∀ l,
  0 < N → foldl (retain N) (last_n N l) items = last_n N (l ++ items).
Proof.
  induction items as [|x items IH]; intros l HN; simpl.
  - by rewrite app_nil_r.
  - rewrite retain_last_n, IH by done. by rewrite <- app_assoc.
Qed.

Lemma toArray_loop_represents N (buf : JS.array T) hd l :
  0 < N →
  (∀ i, i < length l → JS.elems buf !! ((hd + i) mod N) = Some (l !! i)) →
  ∀ n i result, i + n ≤ length l →
    toArray_loop buf (JS.Num hd) N i n result = result ++ take n (drop i l).
Proof.
  intros HN Hel. induction n as [|n IH]; intros i result Hin;
    cbn [toArray_loop JS.add].
  - by rewrite app_nil_r.
  - destruct (lookup_lt_is_Some_2 l i ltac:(lia)) as [x Hx].
    rewrite rem_pos by done. cbn [JS.get]. rewrite Hel, Hx by lia. simpl.
    rewrite IH by lia. rewrite (drop_S _ _ _ Hx). simpl.
    by rewrite <- app_assoc.
Qed.

Lemma toArray_items_represents N rb h l :
  0 < N → represents N rb h l → toArray_items rb h = l.
Proof.
  intros HN (Hc & Hs & Hl & Hb & hd & Hh & Hhd & Ht & Hlen & Hel).
  unfold toArray_items. rewrite Hh, Hc, Hs.
  rewrite (toArray_loop_represents N _ hd l) by (done || lia).
  simpl. by rewrite firstn_all.
Qed.

(** A ring of capacity zero stays empty. *)
Lemma pushes_zero items : ∀ rb h,
  capacity rb = 0 → _size rb = 0 →
  capacity (pushes rb items h).1 = 0 ∧ _size (pushes rb items h).1 = 0.
Proof.
  induction items as [|x items IH]; intros rb h Hc Hs; simpl; [done|].
  destruct (push rb x h) as [rb' h'] eqn:E.
  apply IH.
  - change rb' with (rb', h').1. rewrite <- E. unfold push. by case_decide.
  - change rb' with (rb', h').1. rewrite <- E. unfold push.
    case_decide; [lia|done].
Qed.

Lemma toArray_items_pushes N items h0 :
  toArray_items (pushes (new N h0).1 items (new N h0).2).1
                (pushes (new N h0).1 items (new N h0).2).2
  = last_n N items.
Proof.
  destruct (decide (0 < N)) as [HN|HN].
  - rewrite (toArray_items_represents N _ _ (foldl (retain N) [] items)); [|done|].
    + exact (retain_all N items [] HN).
    + apply pushes_represents; [done|]. by apply new_represents.
  - assert (N = 0) as -> by lia.
    destruct (pushes_zero items (new 0 h0).1 (new 0 h0).2) as [Hc Hs]; [done..|].
    unfold toArray_items. rewrite Hs. simpl.
    unfold last_n. by rewrite Nat.sub_0_r, drop_all.
Qed.

End Facts.

(** C2.  Whatever is pushed on a ring of capacity [N] made by the
    constructor, [toArray] returns a newly allocated array that holds
    the last [N] pushed items (all of them when fewer were pushed),
    oldest first, so at most [N] of them; the array is not the ring's
    backing array, and pushing further items leaves it as it was. *)
Theorem snapshot_recent {T : Type} (N : nat) (h0 : RingBuffer.arrays T)
    (items later : list T) :
  let r0 := RingBuffer.new N h0 in
  let r1 := RingBuffer.pushes r0.1 items r0.2 in
  let s := RingBuffer.toArray r1.1 r1.2 in
  let r2 := RingBuffer.pushes r1.1 later s.2 in
  s.2 !! s.1 = Some (JS.mkArray (Some <$> RingBuffer.last_n N items) None)
  ∧ length (RingBuffer.last_n N items) ≤ N
  ∧ r1.2 !! s.1 = None
  ∧ s.1 ≠ RingBuffer.buffer r1.1
  ∧ r2.2 !! s.1 = s.2 !! s.1.
Proof.
  intros r0 r1 s r2.
  assert (Hbuf : RingBuffer.buffer r1.1 < length r1.2).
  { unfold r1. rewrite pushes_buffer, pushes_length. unfold r0; simpl.
    rewrite length_app; simpl. lia. }
  assert (Hs1 : s.1 = length r1.2) by done.
  assert (Hne : s.1 ≠ RingBuffer.buffer r1.1) by lia.
  repeat split.
  - unfold s, RingBuffer.toArray; simpl.
    rewrite lookup_app_r, Nat.sub_diag by lia. simpl.
    unfold r1, r0. by rewrite toArray_items_pushes.
  - rewrite length_last_n. lia.
  - apply lookup_ge_None. lia.
  - done.
  - unfold r2. by rewrite pushes_frame.
Qed.

Section Access.

Context {T : Type}.
Implicit Types (rb : t) (h : arrays T) (l items : list T) (x : T).

Lemma clear_represents N rb h :
  0 < N → capacity rb = N → represents N (clear rb h).1 (clear rb h).2 [].
Proof.
  intros HN Hc. unfold represents, clear, backing; simpl.
  rewrite length_app; simpl. repeat split; try lia.
  exists 0. rewrite lookup_app_r by lia. rewrite Nat.sub_diag; simpl.
  rewrite length_replicate. repeat split; try done; try lia.
  by rewrite Nat.Div0.mod_0_l.
Qed.

Lemma ring_run_snoc (ops : list (op T)) o s : run (ops ++ [o]) s = step o (run ops s).
Proof. unfold run. by rewrite foldl_app. Qed.

Lemma since_clear_snoc l (ops : list (op T)) o :
  since_clear l (ops ++ [o])
  = match o with Push x => since_clear l ops ++ [x] | Clear => [] end.
Proof. unfold since_clear. by rewrite foldl_app. Qed.

Lemma run_represents N (ops : list (op T)) : ∀ rb h l,
  0 < N → represents N rb h (last_n N l) →
  represents N (run ops (rb, h)).1 (run ops (rb, h)).2 (last_n N (since_clear l ops)).
Proof.
  induction ops as [|o ops IH] using rev_ind; intros rb h l HN R; [done|].
  rewrite ring_run_snoc, since_clear_snoc.
  specialize (IH rb h l HN R). destruct (run ops (rb, h)) as [rb1 h1].
  destruct o as [x|]; cbn [step fst snd].
  - rewrite <- retain_last_n by done. by apply push_represents.
  - apply clear_represents; [done|]. by destruct IH.
Qed.

Lemma run_zero (ops : list (op T)) : ∀ rb h,
  capacity rb = 0 → _size rb = 0 →
  capacity (run ops (rb, h)).1 = 0 ∧ _size (run ops (rb, h)).1 = 0.
Proof.
  induction ops as [|o ops IH] using rev_ind; intros rb h Hc Hs; [done|].
  rewrite ring_run_snoc. destruct (IH rb h Hc Hs) as [Hc1 Hs1].
  destruct (run ops (rb, h)) as [rb1 h1]. simpl in *.
  destruct o as [x|]; cbn [step fst snd].
  - unfold push. case_decide; simpl; [lia|done].
  - done.
Qed.

Lemma get_represents N rb h l (index : Z) :
  0 < N → represents N rb h l →
  get rb index h = if decide (0 ≤ index)%Z then l !! Z.to_nat index else None.
Proof.
  intros HN (Hc & Hs & Hl & Hb & hd & Hh & Hhd & Ht & Hlen & Hel).
  unfold get. rewrite Hs, Hh, Hc. cbn [JS.add]. rewrite rem_pos by done.
  cbn [JS.get].
  case_decide as Hout.
  - case_decide; [|done]. symmetry. apply lookup_ge_None. lia.
  - rewrite decide_True by lia. rewrite Hel by lia. done.
Qed.

End Access.

Section Store.

Context {T : Type}.
Implicit Types (rb : t) (h : arrays T) (l items : list T) (x : T).

(** Allocating another array leaves the ring as it is. *)
Lemma represents_app N rb h l (a : JS.array T) :
  represents N rb h l → represents N rb (h ++ [a]) l.
Proof.
  intros (Hc & Hs & Hl & Hb & hd & Hh & Hhd & Ht & Hlen & Hel).
  assert (backing rb (h ++ [a]) = backing rb h) as Eb.
  { unfold backing. by rewrite lookup_app_l. }
  unfold represents. rewrite Eb, length_app. simpl.
  repeat split; try done; try lia. exists hd. by repeat split.
Qed.

End Store.

(** X1.  Whatever is pushed on and cleared from a ring made by the
    constructor, [get(index)] with an integer [index] is the element
    of the [toArray] snapshot at that index, and [undefined] for an
    index that is negative or not below the size. *)
Theorem get_reads_snapshot {T : Type} (N : nat) (h0 : RingBuffer.arrays T)
    (ops : list (RingBuffer.op T)) (index : Z) :
  let r := RingBuffer.run ops (RingBuffer.new N h0) in
  RingBuffer.get r.1 index r.2
  = if decide (0 ≤ index)%Z
    then RingBuffer.toArray_items r.1 r.2 !! Z.to_nat index
    else None.
Proof.
  intros r.
  destruct (decide (0 < N)) as [HN|HN].
  - pose proof (run_represents N ops (new N h0).1 (new N h0).2 [] HN
                  (new_represents N h0 HN)) as R.
    replace ((new N h0).1, (new N h0).2) with (new N h0) in R by done.
    fold r in R.
    rewrite (toArray_items_represents N _ _ _ HN R).
    by apply (get_represents N).
  - assert (N = 0) as -> by lia.
    destruct (run_zero ops (new 0 h0).1 (new 0 h0).2) as [Hc Hs]; [done..|].
    replace ((new 0 h0).1, (new 0 h0).2) with (new 0 h0) in * by done.
    fold r in Hc, Hs.
    unfold get, toArray_items. rewrite Hs. simpl.
    rewrite decide_True by lia. by case_decide.
Qed.

(** X2.  After any pushes and clears on a ring of capacity [N] made by
    the constructor, [toArray] returns the last [N] items pushed since
    the last clear, oldest first, and [getSize] is their number. *)
Theorem clear_starts_over {T : Type} (N : nat) (h0 : RingBuffer.arrays T)
    (ops : list (RingBuffer.op T)) :
  let r := RingBuffer.run ops (RingBuffer.new N h0) in
  let recent := RingBuffer.last_n N (RingBuffer.since_clear [] ops) in
  RingBuffer.toArray_items r.1 r.2 = recent
  ∧ RingBuffer.getSize r.1 = length recent
  ∧ RingBuffer.getSize r.1 = N `min` length (RingBuffer.since_clear [] ops).
Proof.
  intros r recent.
  destruct (decide (0 < N)) as [HN|HN].
  - pose proof (run_represents N ops (new N h0).1 (new N h0).2 [] HN
                  (new_represents N h0 HN)) as R.
    replace ((new N h0).1, (new N h0).2) with (new N h0) in R by done.
    fold r in R. fold recent in R.
    split; [by apply (toArray_items_represents N)|].
    destruct R as (_ & Hs & _). unfold getSize. rewrite Hs.
    split; [done|]. unfold recent. apply length_last_n.
  - assert (N = 0) as -> by lia.
    destruct (run_zero ops (new 0 h0).1 (new 0 h0).2) as [Hc Hs]; [done..|].
    replace ((new 0 h0).1, (new 0 h0).2) with (new 0 h0) in * by done.
    fold r in Hc, Hs.
    assert (recent = []) as ->.
    { unfold recent, last_n. by rewrite Nat.sub_0_r, drop_all. }
    unfold getSize, toArray_items. rewrite Hs. done.
Qed.

End RingBufferFacts.

Module BatchQueueFacts.
Import BatchQueue.

Section Facts.

Context {Report W : Type}.
Variable sender : list Report -> W -> W * outcome.

Implicit Types (q : t Report) (e : env Report) (w : W) (r : Report).

Local Abbreviation state := (t Report * env Report * W)%type.






(** *** Delayed-flush timers *)

Lemma timer_inv_ok q e : timer_inv q e → timers_ok q e.
Proof.
  unfold timer_inv, timers_ok. destruct (timerId q).
  - intros (tm & ? & ? & -> & <- & _) tm' Hin.
    apply list_elem_of_singleton in Hin. by subst.
  - intros [-> _] tm Hin. by apply elem_of_nil in Hin.
Qed.

Lemma clearTimeout_ok q e id :
  timerId q = Some id → timers_ok q e → timers (clearTimeout id e) = [].
Proof.
  intros Hid Hok. unfold clearTimeout, timers_ok in *; simpl.
  induction (timers e) as [|tm tms IH]; [done|].
  rewrite filter_cons, decide_False.
  - apply IH. intros tm' Hin. apply Hok. by right.
  - intros Hne. specialize (Hok tm ltac:(left)). congruence.
Qed.

Lemma flush_timers q e w :
  timers_ok q e →
  timers (flush sender q e w).1.2 = [] ∧ timerId (flush sender q e w).1.1 = None ∧
  queue (flush sender q e w).1.1 = [].
Proof.
  intros Hok. unfold flush.
  destruct (timerId q) as [id|] eqn:Et.
  - pose proof (clearTimeout_ok q e id Et Hok) as Hc. simpl.
    destruct (queue q); simpl; done.
  - assert (timers e = []) as Ht.
    { destruct (timers e) as [|tm tms] eqn:E; [done|].
      specialize (Hok tm). rewrite E in Hok. specialize (Hok ltac:(left)).
      congruence. }
    destruct (queue q) eqn:Eq; simpl; rewrite ?Et; done.
Qed.

Lemma flush_inv q e w :
  timers_ok q e → timer_inv (flush sender q e w).1.1 (flush sender q e w).1.2.
Proof.
  intros H. destruct (flush_timers q e w H) as (Ht & Hid & Hq).
  unfold timer_inv. by rewrite Hid.
Qed.

Lemma add_inv now r q e w :
  timer_inv q e →
  timer_inv (add sender now r q e w).1.1.1 (add sender now r q e w).1.1.2.
Proof.
  intros H. unfold add.
  destruct (enabled (config q)); simpl.
  2:{ destruct (sender [r] w). simpl. unfold timer_inv in *. simpl.
      destruct (timerId q); done. }
  case_decide as Hreach; simpl.
  - apply flush_inv. by apply timer_inv_ok in H.
  - unfold scheduleFlush, timer_inv in *. simpl.
    destruct (timerId q) as [id|] eqn:Et; simpl.
    + destruct H as (tm & first & rest & ? & ? & Hq & ?).
      exists tm, first, (rest ++ [mkQueued r now]). rewrite Hq. done.
    + destruct H as [Ht Hq]. rewrite Ht, Hq. simpl.
      by exists (mkTimer (next_timer e) now (delay (config q))), (mkQueued r now), [].
Qed.

Lemma fire_inv id q e w :
  timer_inv q e → timer_inv (fire sender id q e w).1.1 (fire sender id q e w).1.2.
Proof.
  intros H. unfold fire. case_decide as Hin; [|done].
  apply flush_inv. apply timer_inv_ok in H.
  intros tm Htm. apply H. unfold clearTimeout in Htm; simpl in Htm.
  by apply list_elem_of_filter in Htm as [_ ?].
Qed.

Lemma clear_inv q e : timer_inv q e → timer_inv (clear q e).1 (clear q e).2.
Proof.
  intros H. unfold clear.
  destruct (timerId q) as [id|] eqn:Et; unfold timer_inv; simpl.
  - split; [|done]. eapply clearTimeout_ok; [done|]. by apply timer_inv_ok.
  - unfold timer_inv in H. rewrite Et in H. by destruct H.
Qed.

Lemma step_inv o q e w :
  timer_inv q e →
  timer_inv (step sender o (q, e, w)).1.1 (step sender o (q, e, w)).1.2.
Proof.
  intros H. destruct o as [now r| |id| |u|]; simpl.
  - by apply add_inv.
  - apply flush_inv. by apply timer_inv_ok.
  - by apply fire_inv.
  - pose proof (clear_inv q e H). by destruct (clear q e).
  - done.
  - apply flush_inv. by apply timer_inv_ok.
Qed.

Lemma queue_run_cons o ops (s : state) :
  run sender (o :: ops) s = run sender ops (step sender o s).
Proof. done. Qed.

Lemma run_inv ops : ∀ q e w,
  timer_inv q e →
  timer_inv (run sender ops (q, e, w)).1.1 (run sender ops (q, e, w)).1.2.
Proof.
  induction ops as [|o ops IH]; intros q e w H; [done|].
  rewrite queue_run_cons. pose proof (step_inv o q e w H) as H'.
  destruct (step sender o (q, e, w)) as [[q1 e1] w1]. by apply IH.
Qed.

End Facts.




(** C9.  After any run of operations on a queue made by the
    constructor (adds, flushes, timers coming due, clears, changes of
    configuration, destruction), at most one delayed-flush timer is
    pending, and a pending one was set when the first report now queued
    was added; an add on an enabled queue that leaves it below the
    batch size sets a timer when none is pending and leaves the pending
    one alone otherwise; a flush leaves no timer pending. *)
Theorem one_delayed_flush {Report W : Type}
    (sender : list Report -> W -> W * outcome)
    (cfg : BatchQueueConfig) (next : nat) (log : list (list Report)) (w0 : W)
    (ops : list (op Report)) :
  let s := run sender ops (BatchQueue.new cfg, mkEnv [] next log, w0) in
  let q := s.1.1 in
  let e := s.1.2 in
  length (timers e) ≤ 1
  ∧ (∀ tm, tm ∈ timers e →
       timerId q = Some (tid tm) ∧
       ∃ first, head (queue q) = Some first ∧ setAt tm = timestamp first)
  ∧ (∀ now r,
       enabled (config q) = true →
       length (queue q) + 1 < batchSize (config q) →
       timers (add sender now r q e s.2).1.1.2
       = match timerId q with
         | Some _ => timers e
         | None => [mkTimer (next_timer e) now (delay (config q))]
         end)
  ∧ timers (flush sender q e s.2).1.2 = []
  ∧ timerId (flush sender q e s.2).1.1 = None.
Proof.
  intros s q e.
  assert (Hinv : timer_inv q e).
  { apply run_inv. unfold timer_inv. done. }
  pose proof (timer_inv_ok q e Hinv) as Hok.
  split; [|split; [|split]].
  - unfold timer_inv in Hinv. destruct (timerId q).
    + destruct Hinv as (tm & _ & _ & -> & _). simpl. lia.
    + destruct Hinv as [-> _]. simpl. lia.
  - intros tm Hin. split; [by apply Hok|].
    unfold timer_inv in Hinv. destruct (timerId q).
    + destruct Hinv as (tm' & first & rest & Ht & _ & Hq & Hs).
      rewrite Ht in Hin. apply list_elem_of_singleton in Hin. subst tm'.
      exists first. by rewrite Hq.
    + destruct Hinv as [Ht _]. rewrite Ht in Hin. by apply elem_of_nil in Hin.
  - intros now r Hen Hlen. unfold add. rewrite Hen. simpl.
    rewrite decide_False by (rewrite length_app; simpl; lia).
    unfold scheduleFlush. simpl.
    destruct (timerId q) eqn:Et; simpl; [done|].
    unfold timer_inv in Hinv. rewrite Et in Hinv. destruct Hinv as [-> _]. done.
  - destruct (flush_timers sender q e s.2 Hok) as (? & ? & _). done.
Qed.

(** A queue of batch size three holding A, with its timer pending:
    adding B sets no second timer. *)
Lemma one_delayed_flush_witness :
  let s := run Examples.batch_accepting [Add 5 "A"]
             (BatchQueue.new (mkConfig 3 1000 true), mkEnv [] 1 [], tt) in
  length (timers s.1.2) ≤ 1
  ∧ timers (add Examples.batch_accepting 7 "B" s.1.1 s.1.2 s.2).1.1.2 = timers s.1.2.
Proof.
  pose proof (one_delayed_flush Examples.batch_accepting (mkConfig 3 1000 true)
                1 [] tt [Add 5 "A"]) as (H1 & _ & H3 & _).
  split; [exact H1|].
  exact (H3 7 "B" eq_refl ltac:(vm_compute; lia)).
Defined.

Section Accounting.

Context {Report W : Type}.
Variable sender : list Report -> W -> W * outcome.

Implicit Types (q : t Report) (e : env Report) (w : W) (r : Report).

Local Abbreviation state := (t Report * env Report * W)%type.

Lemma state_eta (s : state) : (s.1.1, s.1.2, s.2) = s.
Proof. by destruct s as [[??]?]. Qed.

Lemma queue_run_snoc ops o (s : state) :
  run sender (ops ++ [o]) s = step sender o (run sender ops s).
Proof. unfold run. by rewrite foldl_app. Qed.

Lemma added_snoc (ops : list (op Report)) o :
  added (ops ++ [o]) = added ops ++ match o with Add _ r => [r] | _ => [] end.
Proof. unfold added. rewrite omap_app. by destruct o. Qed.

(** What [flush] does to the queue, the configuration, the batches
    sent and the reports accounted for. *)
Lemma flush_facts q e w :
  let s' := flush sender q e w in
  queue s'.1.1 = [] ∧ config s'.1.1 = config q ∧ timerId s'.1.1 = None
  ∧ accepted s'.1.1 s'.1.2 = accepted q e
  ∧ calls s'.1.2 = calls e ++ match queue q with [] => [] | _ => [report <$> queue q] end.
Proof.
  unfold flush, accepted.
  destruct (timerId q) as [id|] eqn:Et; cbn [queue config timerId];
    destruct (queue q) as [|x rest] eqn:Eq; cbn [fst snd queue config timerId calls
      sendReports clearTimeout];
    rewrite ?Et, ?Eq, ?app_nil_r, ?concat_app; simpl; rewrite ?app_nil_r; done.
Qed.

Lemma fire_facts id q e w :
  let s' := fire sender id q e w in
  config s'.1.1 = config q
  ∧ accepted s'.1.1 s'.1.2 = accepted q e
  ∧ (queue s'.1.1 = queue q ∧ calls s'.1.2 = calls e
     ∨ queue s'.1.1 = [] ∧
       calls s'.1.2 = calls e ++ match queue q with [] => [] | _ => [report <$> queue q] end).
Proof.
  unfold fire. case_decide; [|by auto].
  destruct (flush_facts q (clearTimeout id e) w) as (Hq & Hc & _ & Ha & Hcalls).
  cbv zeta. split; [done|]. split; [exact Ha|]. right. split; [done|exact Hcalls].
Qed.

Lemma step_accounts o q e w :
  keeps o = true → idle q →
  let s' := step sender o (q, e, w) in
  idle s'.1.1
  ∧ accepted s'.1.1 s'.1.2 = accepted q e ++ added [o].
Proof.
  intros Hk Hidle. destruct o as [now r| |id| |u|]; cbn [step added omap]; try done.
  - unfold add. destruct (enabled (config q)) eqn:Hen; cbn [negb].
    + case_decide.
      * destruct (flush_facts (mk (queue q ++ [mkQueued r now]) (config q) (timerId q)) e w)
          as (Hq & Hc & _ & Ha & _).
        cbn [fst]. split; [by intros _|].
        rewrite Ha. unfold accepted; simpl. by rewrite fmap_app, app_assoc.
      * unfold scheduleFlush; cbn [timerId config queue].
        destruct (timerId q); cbn [fst snd setTimeout].
        -- split; [intros E; simpl in E; congruence|].
           unfold accepted; simpl. by rewrite fmap_app, app_assoc.
        -- split; [intros E; simpl in E; congruence|].
           unfold accepted; simpl. by rewrite fmap_app, app_assoc.
    + destruct (sender [r] w) as [w1 o]. cbn [fst snd].
      split; [done|].
      unfold accepted; simpl. rewrite (Hidle Hen), concat_app. simpl.
      by rewrite !app_nil_r.
  - destruct (flush_facts q e w) as (Hq & Hc & _ & Ha & _).
    split; [by intros _|]. by rewrite app_nil_r.
  - destruct (fire_facts id q e w) as (Hc & Ha & Hq).
    split; [|by rewrite app_nil_r].
    unfold idle. rewrite Hc. intros Hen.
    destruct Hq as [[-> _]|[-> _]]; [by apply Hidle|done].
  - simpl in Hk. apply bool_decide_eq_true in Hk.
    split; [|by rewrite app_nil_r].
    unfold idle, updateConfig; simpl. rewrite Hk. simpl. apply Hidle.
  - unfold destroy. destruct (flush_facts q e w) as (Hq & Hc & _ & Ha & _).
    split; [by intros _|]. by rewrite app_nil_r.
Qed.

Lemma run_accounts ops : ∀ q e w,
  forallb keeps ops = true → idle q →
  let s' := run sender ops (q, e, w) in
  idle s'.1.1
  ∧ accepted s'.1.1 s'.1.2 = accepted q e ++ added ops.
Proof.
  induction ops as [|o ops IH] using rev_ind; intros q e w Hk Hidle.
  - cbv zeta. simpl. by rewrite app_nil_r.
  - rewrite forallb_app in Hk. apply andb_true_iff in Hk as [Hk1 Hk2].
    simpl in Hk2. rewrite andb_true_r in Hk2.
    destruct (IH q e w Hk1 Hidle) as [Hi Ha].
    cbv zeta. rewrite queue_run_snoc, added_snoc.
    destruct (run sender ops (q, e, w)) as [[q1 e1] w1]. cbn [fst snd] in *.
    destruct (step_accounts o q1 e1 w1 Hk2 Hi) as [Hi' Ha'].
    split; [done|]. rewrite Ha', Ha, <- app_assoc. f_equal.
    unfold added. by destruct o.
Qed.

Lemma flush_sized bs log q e w :
  batchSize (config q) = bs → length (queue q) ≤ bs → 0 < bs →
  (∃ batches, calls e = log ++ batches ∧ Forall (λ b, 1 ≤ length b ≤ bs) batches) →
  sized bs log (flush sender q e w).1.1 (flush sender q e w).1.2.
Proof.
  intros Hb Hl Hpos (batches & Hc & Hall).
  destruct (flush_facts q e w) as (Hq & Hcfg & _ & _ & Hcalls).
  unfold sized. rewrite Hq, Hcfg, Hcalls, Hc.
  split; [done|]. split; [simpl; lia|].
  destruct (queue q) as [|x rest] eqn:Eq.
  - exists batches. by rewrite app_nil_r.
  - exists (batches ++ [report <$> x :: rest]). rewrite app_assoc. split; [done|].
    apply Forall_app. split; [done|]. apply Forall_singleton.
    rewrite length_fmap. simpl in *. lia.
Qed.

Lemma step_sized bs log o q e w :
  fixed o = true → sized bs log q e →
  sized bs log (step sender o (q, e, w)).1.1 (step sender o (q, e, w)).1.2.
Proof.
  intros Hf (Hb & Hl & batches & Hc & Hall).
  assert (Hlog : ∃ batches, calls e = log ++ batches
                            ∧ Forall (λ b, 1 ≤ length b ≤ bs) batches) by eauto.
  destruct o as [now r| |id| |u|]; cbn [step]; try done.
  - unfold add. destruct (enabled (config q)) eqn:Hen; cbn [negb].
    + case_decide as Hfull; cbn [config queue] in Hfull.
      * cbn [fst]. apply flush_sized; simpl; try done; try lia.
        rewrite length_app in *. simpl in *. lia.
      * unfold scheduleFlush; cbn [timerId config queue].
        rewrite length_app in Hfull; simpl in Hfull.
        destruct (timerId q); cbn [fst snd setTimeout]; unfold sized; simpl;
          rewrite length_app; simpl; (split; [done|]); (split; [lia|]); eauto.
    + destruct (sender [r] w) as [w1 o]. cbn [fst snd].
      unfold sized; simpl. split; [done|]. split; [done|].
      exists (batches ++ [[r]]). rewrite Hc, app_assoc. split; [done|].
      apply Forall_app. split; [done|]. apply Forall_singleton. simpl. lia.
  - apply flush_sized; try done; lia.
  - unfold fire. case_decide; [|by unfold sized; eauto].
    apply flush_sized; try done; lia.
  - unfold clear. destruct (timerId q); unfold sized; simpl;
      (split; [done|]); (split; [lia|]); eauto.
  - unfold destroy. apply flush_sized; try done; lia.
Qed.

Lemma run_sized bs log ops : ∀ q e w,
  forallb fixed ops = true → sized bs log q e →
  sized bs log (run sender ops (q, e, w)).1.1 (run sender ops (q, e, w)).1.2.
Proof.
  induction ops as [|o ops IH] using rev_ind; intros q e w Hf Hs; [done|].
  rewrite forallb_app in Hf. apply andb_true_iff in Hf as [Hf1 Hf2].
  simpl in Hf2. rewrite andb_true_r in Hf2.
  specialize (IH q e w Hf1 Hs). rewrite queue_run_snoc.
  destruct (run sender ops (q, e, w)) as [[q1 e1] w1]. by apply step_sized.
Qed.

End Accounting.

Section World.

Context {Report W : Type}.
Variable sender : list Report -> W -> W * outcome.
Variable P : W → Prop.
Hypothesis sender_keeps : ∀ reports w, P w → P (sender reports w).1.

Implicit Types (q : t Report) (e : env Report) (w : W) (r : Report).

Lemma queue_flush_world q e w : P w → P (flush sender q e w).2.
Proof using sender_keeps.
  intros Hw. unfold flush.
  destruct (timerId q); cbn [queue]; destruct (queue q); cbn [snd sendReports];
    auto.
Qed.

Lemma fire_world id q e w : P w → P (fire sender id q e w).2.
Proof using sender_keeps.
  intros Hw. unfold fire. case_decide; [|done]. by apply queue_flush_world.
Qed.

Lemma add_world now r q e w : P w → P (add sender now r q e w).1.2.
Proof using sender_keeps.
  intros Hw. unfold add. destruct (negb (enabled (config q))).
  - pose proof (sender_keeps [r] w Hw). by destruct (sender [r] w).
  - case_decide; cbn [fst snd].
    + by apply queue_flush_world.
    + by destruct (scheduleFlush _ _ _).
Qed.

End World.

Section Config.

Context {Report W : Type}.
Variable sender : list Report -> W -> W * outcome.

Implicit Types (q : t Report) (e : env Report) (w : W) (r : Report).

Lemma flush_config q e w : config (flush sender q e w).1.1 = config q.
Proof. unfold flush. by destruct (timerId q); cbn [queue]; destruct (queue q). Qed.

Lemma fire_config id q e w : config (fire sender id q e w).1.1 = config q.
Proof. unfold fire. case_decide; [|done]. apply flush_config. Qed.

Lemma add_config now r q e w : config (add sender now r q e w).1.1.1 = config q.
Proof.
  unfold add. destruct (negb (enabled (config q))).
  - by destruct (sender [r] w).
  - case_decide; cbn [fst snd].
    + by rewrite flush_config.
    + unfold scheduleFlush. by destruct (timerId _).
Qed.

End Config.

(** X3.  From the constructor on, as long as the queue is not cleared
    and batching is not switched on or off, the reports handed to the
    sender, batch after batch, followed by the reports still queued are
    exactly the reports added, in the order of the adds: none is lost,
    none is sent twice, none overtakes another. *)
Theorem reports_sent_in_order {Report W : Type}
    (sender : list Report -> W -> W * outcome)
    (cfg : BatchQueueConfig) (next : nat) (w0 : W) (ops : list (op Report)) :
  forallb keeps ops = true →
  let s := run sender ops (BatchQueue.new cfg, mkEnv [] next [], w0) in
  concat (calls s.1.2) ++ (report <$> queue s.1.1) = added ops.
Proof.
  intros Hk s.
  destruct (run_accounts sender ops (BatchQueue.new cfg) (mkEnv [] next []) w0 Hk)
    as [_ Ha]; [done|].
  exact Ha.
Qed.

Lemma reports_sent_in_order_witness :
  let ops := [Add 1 "A"; Add 2 "B"; Flush; Add 3 "C"; Add 4 "D"; Add 5 "E"; Add 6 "F"] in
  let s := run Examples.batch_accepting ops
             (BatchQueue.new (mkConfig 3 1000 true), mkEnv [] 1 [], tt) in
  concat (calls s.1.2) ++ (report <$> queue s.1.1) = ["A"; "B"; "C"; "D"; "E"; "F"].
Proof.
  exact (reports_sent_in_order Examples.batch_accepting (mkConfig 3 1000 true) 1 tt
           [Add 1 "A"; Add 2 "B"; Flush; Add 3 "C"; Add 4 "D"; Add 5 "E"; Add 6 "F"]
           eq_refl).
Defined.

(** X4.  From the constructor on, as long as [updateConfig] is not
    called, every batch handed to the sender holds at least one report
    and at most as many as the batch size, and between two operations
    the queue holds fewer reports than the batch size. *)
Theorem batches_within_size {Report W : Type}
    (sender : list Report -> W -> W * outcome)
    (cfg : BatchQueueConfig) (next : nat) (w0 : W) (ops : list (op Report)) :
  forallb fixed ops = true →
  let q0 : t Report := BatchQueue.new cfg in
  let bs := batchSize (config q0) in
  let s := run sender ops (q0, mkEnv [] next [], w0) in
  size s.1.1 < bs
  ∧ Forall (λ batch, 1 ≤ length batch ≤ bs) (calls s.1.2).
Proof.
  intros Hf q0 bs s.
  assert (0 < bs) as Hpos.
  { unfold bs; simpl. case_decide; lia. }
  destruct (run_sized sender bs [] ops q0 (mkEnv [] next []) w0 Hf)
    as (_ & Hl & batches & Hc & Hall).
  { split; [done|]. split; [simpl; lia|]. exists []. by split. }
  fold s in Hl, Hc. split; [exact Hl|]. by rewrite Hc.
Qed.

Lemma batches_within_size_witness :
  let s := run Examples.batch_accepting
             [Add 1 "A"; Add 2 "B"; Flush; Add 3 "C"; Clear; Add 4 "D"; Destroy]
             (BatchQueue.new (mkConfig 0 0 true), mkEnv [] 1 [], tt) in
  size s.1.1 < 10 ∧ Forall (λ batch, 1 ≤ length batch ≤ 10) (calls s.1.2).
Proof.
  exact (batches_within_size Examples.batch_accepting (mkConfig 0 0 true) 1 tt
           [Add 1 "A"; Add 2 "B"; Flush; Add 3 "C"; Clear; Add 4 "D"; Destroy] eq_refl).
Defined.

(** X5.  A second [flush] right after a [flush] does nothing: the
    sender is not called again and the state stays as the first flush
    left it; a [flush] of an empty queue does not call the sender. *)
Theorem flush_twice_sends_once {Report W : Type}
    (sender : list Report -> W -> W * outcome)
    (q : t Report) (e : env Report) (w : W) :
  let s1 := flush sender q e w in
  flush sender s1.1.1 s1.1.2 s1.2 = s1
  ∧ (queue q = [] → calls s1.1.2 = calls e ∧ s1.2 = w).
Proof.
  intros s1.
  destruct (flush_facts sender q e w) as (Hq & _ & Ht & _ & Hc).
  fold s1 in Hq, Ht, Hc. split.
  - destruct s1 as [[q1 e1] w1]. simpl in *. unfold flush. by rewrite Ht, Hq.
  - intros Eq. rewrite Hc, Eq, app_nil_r. split; [done|].
    unfold s1, flush. destruct (timerId q); simpl; by rewrite Eq.
Qed.

(** X6.  The reports queued when [clear] is called are dropped for
    good: [clear] calls no sender and cancels the pending timer, and
    whatever is done with the queue afterwards (short of another
    [clear] or of switching batching) the sender gets, and the queue
    holds, only reports added after the [clear]. *)
Theorem clear_discards_queued {Report W : Type}
    (sender : list Report -> W -> W * outcome)
    (q : t Report) (e : env Report) (w : W) (ops : list (op Report)) :
  forallb keeps ops = true →
  let s1 := step sender Clear (q, e, w) in
  let s2 := run sender ops s1 in
  calls s1.1.2 = calls e ∧ s1.2 = w ∧ size s1.1.1 = 0
  ∧ (timer_inv q e → timers s1.1.2 = [])
  ∧ concat (calls s2.1.2) ++ (report <$> queue s2.1.1)
    = concat (calls e) ++ added ops.
Proof.
  intros Hk s1 s2.
  assert (E1 : calls s1.1.2 = calls e ∧ s1.2 = w ∧ queue s1.1.1 = []).
  { unfold s1; simpl. unfold clear. by destruct (timerId q). }
  destruct E1 as (Ec & Ew & Eq).
  repeat split; try done.
  - unfold size. by rewrite Eq.
  - intros Hinv. unfold timer_inv in Hinv. unfold s1; simpl. unfold clear.
    destruct (timerId q) as [id|]; cbn [fst snd clearTimeout timers].
    + destruct Hinv as (tm & first & rest & -> & Hid & _).
      rewrite filter_cons_False; [done|]. intros Hne. by apply Hne.
    + by destruct Hinv.
  - destruct (run_accounts sender ops s1.1.1 s1.1.2 s1.2 Hk) as [_ Ha].
    { intros _. exact Eq. }
    rewrite state_eta in Ha.
    fold s2 in Ha. unfold accepted in Ha. rewrite Ha, Eq, Ec. simpl.
    by rewrite app_nil_r.
Qed.

Lemma clear_discards_queued_witness :
  let s0 := run Examples.batch_accepting [Add 1 "A"; Add 2 "B"]
              (BatchQueue.new (mkConfig 3 1000 true), mkEnv [] 1 [], tt) in
  let s1 := step Examples.batch_accepting Clear s0 in
  let s2 := run Examples.batch_accepting [Add 3 "C"; Flush] s1 in
  calls s1.1.2 = calls s0.1.2 ∧ s1.2 = s0.2 ∧ size s1.1.1 = 0
  ∧ (timer_inv s0.1.1 s0.1.2 → timers s1.1.2 = [])
  ∧ concat (calls s2.1.2) ++ (report <$> queue s2.1.1)
    = concat (calls s0.1.2) ++ ["C"].
Proof.
  intros s0.
  exact (clear_discards_queued Examples.batch_accepting s0.1.1 s0.1.2 s0.2
           [Add 3 "C"; Flush] eq_refl).
Defined.

End BatchQueueFacts.

Module OfflineCacheFacts.
Import OfflineCache.

Section Facts.

Context {Report W : Type}.
Variable sender : Report -> W -> W * outcome.

Implicit Types (c : t) (e : env Report) (w : W) (x : Report) (a b : nat)
  (q todo : list nat) (h : list (CachedReport Report)) (cr : CachedReport Report).

Local Abbreviation state := (t * env Report * W)%type.

(** *** [indexOf] and [remove] *)

Lemma remove_cons a d q :
  remove a (d :: q) = if decide (d = a) then q else d :: remove a q.
Proof.
  unfold remove. simpl. case_decide; [done|].
  by destruct (indexOf a q).
Qed.

Lemma remove_sublist a q : sublist (remove a q) q.
Proof.
  unfold remove. destruct (indexOf a q) as [i|]; [|done].
  apply sublist_delete.
Qed.

Lemma elem_of_remove a b q :
  NoDup q → b ∈ remove a q ↔ b ∈ q ∧ b ≠ a.
Proof.
  induction q as [|d q IH]; intros Hnd.
  - split; [intros H; by apply elem_of_nil in H|by intros [H _]].
  - apply NoDup_cons in Hnd as [Hd Hnd]. rewrite remove_cons.
    case_decide as E.
    + subst d. rewrite elem_of_cons. split.
      * intros Hb. split; [by right|]. by intros ->.
      * by intros [[?|?] ?].
    + rewrite !elem_of_cons, (IH Hnd). split.
      * intros [->|[? ?]]; split; auto.
      * intros [[->|?] ?]; auto.
Qed.

Lemma remove_NoDup a q : NoDup q → NoDup (remove a q).
Proof. intros. eapply sublist_NoDup; [done|apply remove_sublist]. Qed.

Lemma contents_ext q : ∀ h1 h2,
  (∀ a, a ∈ q → h1 !! a = h2 !! a) → contents q h1 = contents q h2.
Proof.
  induction q as [|a q IH]; intros h1 h2 Heq; [done|].
  unfold contents in *. cbn [omap list_omap].
  rewrite (Heq a) by (by left).
  rewrite (IH h1 h2); [done|]. intros b Hb. apply Heq. by right.
Qed.

(** *** One pass *)

Lemma attempt_all_ext todo : ∀ h1 h2 w,
  (∀ a, a ∈ todo → h1 !! a = h2 !! a) →
  attempt_all sender todo h1 w = attempt_all sender todo h2 w.
Proof.
  induction todo as [|a rest IH]; intros h1 h2 w Heq; simpl; [done|].
  rewrite <- (Heq a) by (by left).
  destruct (h1 !! a) as [cr|].
  - destruct (sender (report cr) w) as [w1 o].
    rewrite (IH h1 h2 w1); [done|]. intros b Hb. apply Heq. by right.
  - apply IH. intros b Hb. apply Heq. by right.
Qed.

Lemma attempt_all_fst todo : ∀ h w,
  (∀ a, a ∈ todo → a < length h) →
  (attempt_all sender todo h w).1.*1 = todo.
Proof.
  induction todo as [|a rest IH]; intros h w Hv; simpl; [done|].
  destruct (lookup_lt_is_Some_2 h a (Hv a ltac:(left))) as [cr Hcr].
  rewrite Hcr. destruct (sender (report cr) w) as [w1 o].
  specialize (IH h w1 ltac:(intros b Hb; apply Hv; by right)).
  destruct (attempt_all sender rest h w1) as [outs w2]. simpl in *.
  f_equal. exact IH.
Qed.

Lemma retry_one_eq a c e w failed cr w1 o :
  heap e !! a = Some cr → sender (report cr) w = (w1, o) →
  ∃ failed', retry_one sender a (c, e, w, failed)
             = (attempted a cr o c, attempted_env a cr o e, w1, failed').
Proof.
  intros Hcr Es. unfold retry_one, attempted, attempted_env, drops.
  rewrite Hcr, Es. destruct o; simpl; [by eexists|..];
    case_decide; rewrite ?bool_decide_eq_true_2, ?bool_decide_eq_false_2 by done;
    by eexists.
Qed.

Lemma retry_loop_cons a todo (s : t * env Report * W * list nat) :
  retry_loop sender (a :: todo) s = retry_loop sender todo (retry_one sender a s).
Proof. done. Qed.

Lemma retry_loop_spec todo : ∀ c e w failed,
  NoDup todo → (∀ a, a ∈ todo → a < length (heap e)) → NoDup (cacheQueue c) →
  pass_spec sender todo c e w (retry_loop sender todo (c, e, w, failed)).
Proof.
  induction todo as [|a rest IH]; intros c e w failed Hnd Hv Hq.
  - split; simpl; try done.
    + by rewrite app_nil_r.
    + intros a o cr Hin. by apply elem_of_nil in Hin.
    + intros a. split; [|by intros [? _]].
      intros Ha. split; [done|]. intros o cr Hin. by apply elem_of_nil in Hin.
  - apply NoDup_cons in Hnd as [Ha Hnd].
    destruct (lookup_lt_is_Some_2 (heap e) a (Hv a ltac:(left))) as [cr Hcr].
    rewrite retry_loop_cons.
    assert (Hvr : ∀ b, b ∈ rest → b < length (heap e))
      by (intros b Hb; apply Hv; by right).
    destruct (sender (report cr) w) as [w1 o] eqn:Es.
    destruct (retry_one_eq a c e w failed cr w1 o Hcr Es) as [failed' ->].
    set (c' := attempted a cr o c). set (e' := attempted_env a cr o e).
    set (drop := drops cr o).
    assert (Hh' : ∀ b, b ≠ a → heap e' !! b = heap e !! b).
    { intros b Hb. unfold e', attempted_env. destruct o; simpl; [done|..];
        by rewrite list_lookup_insert_ne. }
    assert (Hha : heap e' !! a = Some (match o with Resolves => cr | _ => bump cr end)).
    { unfold e', attempted_env. destruct o; simpl; [done|..];
        apply list_lookup_insert_eq; by eapply lookup_lt_Some. }
    assert (Hlen : length (heap e') = length (heap e)).
    { unfold e', attempted_env. destruct o; simpl; by rewrite ?length_insert. }
    assert (Hc'cfg : config c' = config c)
      by (unfold c', attempted; fold drop; by destruct drop).
    assert (Hc'on : isOnline c' = isOnline c)
      by (unfold c', attempted; fold drop; by destruct drop).
    assert (Hc'sub : sublist (cacheQueue c') (cacheQueue c)).
    { unfold c', attempted. fold drop. destruct drop; [apply remove_sublist|done]. }
    assert (Hc'q : ∀ b, b ∈ cacheQueue c' ↔
                        b ∈ cacheQueue c ∧ (b = a → drop = false)).
    { intros b. unfold c', attempted. fold drop. destruct drop; simpl.
      - rewrite elem_of_remove by done. split.
        + intros [Hb Hne]. split; [done|]. intros E. by destruct Hne.
        + intros [Hb Hd]. split; [done|]. intros E. by specialize (Hd E).
      - split; [by intros Hb|by intros [Hb _]]. }
    assert (Hext : attempt_all sender rest (heap e') w1
                   = attempt_all sender rest (heap e) w1).
    { apply attempt_all_ext. intros b Hb. apply Hh'. by intros ->. }
    destruct (IH c' e' w1 failed' Hnd
                ltac:(intros b Hb; rewrite Hlen; by apply Hvr)
                ltac:(eapply sublist_NoDup; [exact Hq|exact Hc'sub]))
      as [I1 I2 I3 I4 I5 I6 I7 I8 I9 I10].
    rewrite Hext in *.
    assert (Hnotin : ∀ o', (a, o') ∉ (attempt_all sender rest (heap e) w1).1).
    { intros o' Hin. apply Ha.
      rewrite <- (attempt_all_fst rest (heap e) w1 Hvr).
      apply list_elem_of_fmap. by exists (a, o'). }
    destruct (attempt_all sender rest (heap e) w1) as [outs w2] eqn:Eo.
    assert (Eall : attempt_all sender (a :: rest) (heap e) w = ((a, o) :: outs, w2)).
    { cbn [attempt_all]. by rewrite Hcr, Es, Eo. }
    split; rewrite ?Eall; cbn [fst snd] in *.
    + done.
    + by rewrite I2.
    + by rewrite I3.
    + by rewrite I4.
    + by rewrite I5.
    + rewrite I6. unfold contents. cbn [omap list_omap]. rewrite Hcr.
      fold (contents rest (heap e')). fold (contents rest (heap e)).
      rewrite (contents_ext rest (heap e') (heap e))
        by (intros b Hb; apply Hh'; by intros ->).
      unfold e', attempted_env. simpl. by rewrite <- app_assoc.
    + intros b Hb. apply not_elem_of_cons in Hb as [Hne Hb].
      rewrite I7 by done. by apply Hh'.
    + intros b o' cr' Hin Hb. apply elem_of_cons in Hin as [Heq|Hin].
      * simplify_eq. by rewrite I7, Hha.
      * assert (b ≠ a) by (intros ->; by eapply Hnotin).
        eapply I8; [done|]. by rewrite Hh'.
    + intros b. rewrite I9, Hc'q. split.
      * intros [[Hb Hd] Hall]. split; [done|]. intros o' cr' Hin Hcr'.
        apply elem_of_cons in Hin as [Heq|Hin].
        -- simplify_eq. specialize (Hd eq_refl).
           unfold drop, drops in Hd. destruct o; [done|..];
             apply bool_decide_eq_false in Hd; split; [done|lia|done|lia].
        -- assert (b ≠ a) by (intros ->; by eapply Hnotin).
           eapply Hall; [done|]. by rewrite Hh'.
      * intros [Hb Hall]. split; [split; [done|]|].
        -- intros ->. destruct (Hall o cr ltac:(left) Hcr) as [Ho Hle].
           unfold drop, drops. destruct o; [done|..]; apply bool_decide_eq_false; lia.
        -- intros o' cr' Hin Hcr'.
           assert (b ≠ a) by (intros ->; by eapply Hnotin).
           apply (Hall o' cr'); [by right|]. by rewrite <- Hh'.
    + by etrans.
Qed.

(** *** [saveToStorage], [flush] and the other operations *)

Lemma saveToStorage_heap c e : heap (saveToStorage c e) = heap e.
Proof.
  unfold saveToStorage. destruct (storage e) as [st|]; [|done].
  by destruct (setItem_throws st).
Qed.

Lemma saveToStorage_attempts c e : attempts (saveToStorage c e) = attempts e.
Proof.
  unfold saveToStorage. destruct (storage e) as [st|]; [|done].
  by destruct (setItem_throws st).
Qed.

Lemma saveToStorage_written c e st :
  storage e = Some st → setItem_throws st = false →
  storage (saveToStorage c e)
  = Some (written st (contents (cacheQueue c) (heap (saveToStorage c e)))).
Proof.
  intros Hst Hok. rewrite saveToStorage_heap. unfold saveToStorage, written.
  rewrite Hst, Hok. done.
Qed.

Lemma flush_empty c e w : cacheQueue c = [] → flush sender c e w = (c, e, w).
Proof. unfold flush. by intros ->. Qed.

Lemma flush_pass c e w :
  cacheQueue c ≠ [] →
  flush sender c e w
  = ((retry_loop sender (cacheQueue c) (c, e, w, [])).1.1.1,
     saveToStorage (retry_loop sender (cacheQueue c) (c, e, w, [])).1.1.1
                   (retry_loop sender (cacheQueue c) (c, e, w, [])).1.1.2,
     (retry_loop sender (cacheQueue c) (c, e, w, [])).1.2).
Proof.
  intros Hne. unfold flush. destruct (cacheQueue c) as [|a q] eqn:E; [done|].
  by destruct (retry_loop sender (a :: q) (c, e, w, [])) as [[[c1 e1] w1] f].
Qed.

(** What a pass leaves, whether or not the queue was empty. *)
Lemma flush_spec c e w :
  wf c e →
  config (flush sender c e w).1.1 = config c
  ∧ isOnline (flush sender c e w).1.1 = isOnline c
  ∧ length (heap (flush sender c e w).1.2) = length (heap e)
  ∧ sublist (cacheQueue (flush sender c e w).1.1) (cacheQueue c)
  ∧ attempts (flush sender c e w).1.2
    = attempts e ++ (report <$> contents (cacheQueue c) (heap e)).
Proof.
  intros [Hnd Hv]. destruct (decide (cacheQueue c = [])) as [E|E].
  - rewrite flush_empty by done. simpl. rewrite E at 3. simpl.
    rewrite app_nil_r. repeat split; done.
  - rewrite flush_pass by done. simpl.
    destruct (retry_loop_spec (cacheQueue c) c e w [] Hnd Hv Hnd).
    rewrite saveToStorage_heap, saveToStorage_attempts. repeat split; done.
Qed.

Lemma flush_wf c e w : wf c e → wf (flush sender c e w).1.1 (flush sender c e w).1.2.
Proof.
  intros Hwf. destruct (flush_spec c e w Hwf) as (_ & _ & Hlen & Hsub & _).
  destruct Hwf as [Hnd Hv]. split.
  - by eapply sublist_NoDup.
  - intros a Ha. rewrite Hlen. apply Hv. by eapply elem_of_sublist.
Qed.

Lemma cache_enabled now x c e :
  enabled (config c) = true →
  cache now x c e
  = (mk (config c)
        (if decide (maxCacheSize (config c) < length (cacheQueue c ++ [length (heap e)]))
         then drop 1 (cacheQueue c ++ [length (heap e)])
         else cacheQueue c ++ [length (heap e)])
        (isOnline c),
     saveToStorage
       (mk (config c)
           (if decide (maxCacheSize (config c) < length (cacheQueue c ++ [length (heap e)]))
            then drop 1 (cacheQueue c ++ [length (heap e)])
            else cacheQueue c ++ [length (heap e)])
           (isOnline c))
       (mkEnv (heap e ++ [mkCached x now 0]) (storage e) (attempts e))).
Proof. intros Hen. unfold cache. by rewrite Hen. Qed.

Lemma cache_disabled now x c e : enabled (config c) = false → cache now x c e = (c, e).
Proof. intros Hen. unfold cache. by rewrite Hen. Qed.

Lemma cache_spec now x c e :
  wf c e →
  config (cache now x c e).1 = config c
  ∧ isOnline (cache now x c e).1 = isOnline c
  ∧ length (heap e) ≤ length (heap (cache now x c e).2)
  ∧ attempts (cache now x c e).2 = attempts e
  ∧ wf (cache now x c e).1 (cache now x c e).2
  ∧ (∀ a, a < length (heap e) → a ∉ cacheQueue c → a ∉ cacheQueue (cache now x c e).1)
  ∧ (0 < maxCacheSize (config c) →
     length (cacheQueue c) ≤ maxCacheSize (config c) →
     length (cacheQueue (cache now x c e).1) ≤ maxCacheSize (config c)).
Proof.
  intros [Hnd Hv]. destruct (enabled (config c)) eqn:Hen.
  2:{ rewrite cache_disabled by done. simpl. repeat split; auto. }
  rewrite cache_enabled by done. cbn [fst snd config isOnline].
  rewrite saveToStorage_heap, saveToStorage_attempts. cbn [heap attempts cacheQueue].
  set (q1 := cacheQueue c ++ [length (heap e)]).
  set (q2 := if decide (maxCacheSize (config c) < length q1) then drop 1 q1 else q1).
  assert (Hfresh : length (heap e) ∉ cacheQueue c).
  { intros Hin. apply Hv in Hin. lia. }
  assert (Hnd1 : NoDup q1).
  { apply NoDup_app. split; [done|]. split; [|apply NoDup_singleton].
    intros a Ha Hin. apply list_elem_of_singleton in Hin. subst. done. }
  assert (Hv1 : ∀ a, a ∈ q1 → a ∈ cacheQueue c ∨ a = length (heap e)).
  { intros a Ha. apply elem_of_app in Ha as [Ha|Ha]; [by left|].
    apply list_elem_of_singleton in Ha. by right. }
  assert (Hsub : sublist q2 q1).
  { unfold q2. case_decide; [apply sublist_drop|done]. }
  assert (Hlen1 : length q1 = S (length (cacheQueue c))).
  { unfold q1. rewrite length_app. simpl. lia. }
  rewrite length_app. simpl.
  split; [done|]. split; [done|]. split; [lia|]. split; [done|].
  split; [|split].
  - split; cbn [cacheQueue]; rewrite ?saveToStorage_heap; cbn [heap].
    + by eapply sublist_NoDup.
    + intros a Ha. rewrite length_app. simpl.
      destruct (Hv1 a) as [Hin| ->]; [by eapply elem_of_sublist| |lia].
      apply Hv in Hin. lia.
  - intros a Ha Hnot Hin.
    destruct (Hv1 a) as [?| ->]; [by eapply elem_of_sublist|done|lia].
  - intros Hpos Hle. unfold q2. case_decide.
    + rewrite length_drop. lia.
    + lia.
Qed.

Lemma flush_step c e w : wf c e → step_spec (c, e, w) (flush sender c e w).
Proof.
  intros Hwf. pose proof (flush_wf c e w Hwf) as Hwf'.
  destruct (flush_spec c e w Hwf) as (Hc & _ & Hlen & Hsub & _).
  split; simpl; try done.
  - lia.
  - intros a _ Hnot Hin. apply Hnot. by eapply elem_of_sublist.
  - intros _ Hle. apply sublist_length in Hsub. lia.
Qed.

Lemma cache_step now x c e w :
  wf c e → step_spec (c, e, w) ((cache now x c e).1, (cache now x c e).2, w).
Proof.
  intros Hwf. destruct (cache_spec now x c e Hwf) as (? & ? & ? & ? & ? & ? & ?).
  by split.
Qed.

Lemma step_step o c e w : wf c e → step_spec (c, e, w) (step sender o (c, e, w)).
Proof.
  intros Hwf. destruct o as [now x|now x| | | |]; simpl.
  - pose proof (cache_step now x c e w Hwf) as H.
    by destruct (cache now x c e).
  - unfold send. destruct (isOnline c).
    + destruct (sender x w) as [w1 o]. simpl. by split.
    + pose proof (cache_step now x c e w Hwf) as H.
      by destruct (cache now x c e).
  - by apply flush_step.
  - unfold handleOnline.
    destruct (flush_step (mk (config c) (cacheQueue c) true) e w Hwf). by split.
  - by split.
  - unfold clear. simpl. split; simpl; try done.
    + rewrite saveToStorage_heap. done.
    + split; [apply NoDup_nil_2|]. intros a Ha. by apply elem_of_nil in Ha.
    + intros a _ _ Ha. by apply elem_of_nil in Ha.
    + lia.
Qed.

Lemma store_run_cons o ops (s : state) :
  run sender (o :: ops) s = run sender ops (step sender o s).
Proof. done. Qed.

Lemma run_step ops : ∀ c e w,
  wf c e → step_spec (c, e, w) (run sender ops (c, e, w)).
Proof.
  induction ops as [|o ops IH]; intros c e w Hwf.
  - by split.
  - rewrite store_run_cons. destruct (step_step o c e w Hwf) as [S1 S2 S3 S4 S5].
    destruct (step sender o (c, e, w)) as [[c1 e1] w1]. simpl in *.
    destruct (IH c1 e1 w1 S3) as [T1 T2 T3 T4 T5]. simpl in *.
    split; simpl; try done.
    + congruence.
    + lia.
    + intros a Ha Hnot. apply T4; [lia|]. by apply S4.
    + intros Hpos Hle. rewrite <- S1. apply T5; rewrite S1; auto.
Qed.

Lemma new_wf (cfg : OfflineCacheConfig) onLine e : wf (new cfg onLine e).1 (new cfg onLine e).2.
Proof.
  unfold new, loadFromStorage. simpl.
  assert (wf0 : ∀ cf (on : bool), wf (mk cf [] on) e).
  { intros. split; [apply NoDup_nil_2|]. intros a Ha. by apply elem_of_nil in Ha. }
  destruct (storage e) as [st|]; [|apply wf0].
  destruct (item st) as [[items|]|]; simpl; try apply wf0.
  split; simpl.
  - apply NoDup_seq.
  - intros a Ha. apply elem_of_seq in Ha. rewrite length_app. lia.
Qed.

Lemma new_maxCacheSize (cfg : OfflineCacheConfig) onLine e :
  0 < maxCacheSize (config (new cfg onLine e).1).
Proof.
  unfold new, loadFromStorage. simpl.
  assert (0 < (if decide (maxCacheSize cfg = 0) then 100 else maxCacheSize cfg))
    by (case_decide; lia).
  destruct (storage e) as [st|]; [|done].
  by destruct (item st) as [[items|]|].
Qed.

Lemma outcome_unique (outs : list (nat * outcome)) a o o' :
  NoDup outs.*1 → (a, o) ∈ outs → (a, o') ∈ outs → o = o'.
Proof.
  induction outs as [|[b p] outs IH]; intros Hnd H1 H2.
  - by apply elem_of_nil in H1.
  - simpl in Hnd. apply NoDup_cons in Hnd as [Hb Hnd].
    apply elem_of_cons in H1 as [E1|H1]; apply elem_of_cons in H2 as [E2|H2].
    + congruence.
    + exfalso. apply Hb. injection E1 as <- <-.
      apply list_elem_of_fmap. by exists (a, o').
    + exfalso. apply Hb. injection E2 as <- <-.
      apply list_elem_of_fmap. by exists (a, o).
    + by apply IH.
Qed.

Lemma retry_rule_wf c e w : wf c e → retry_rule sender retryLimit c e w.
Proof.
  intros Hwf a cr o Hcr Hin Hfail.
  pose proof Hwf as [Hnd Hv].
  pose proof (attempt_all_fst (cacheQueue c) (heap e) w Hv) as Hfst.
  assert (Ha : a ∈ cacheQueue c).
  { rewrite <- Hfst. apply list_elem_of_fmap. by exists (a, o). }
  assert (Hne : cacheQueue c ≠ []).
  { intros E. rewrite E in Ha. by apply elem_of_nil in Ha. }
  destruct (retry_loop_spec (cacheQueue c) c e w [] Hnd Hv Hnd)
    as [_ _ _ _ Hlen _ _ Hdone Hq _].
  assert (Hheap : heap (flush sender c e w).1.2 !! a = Some (bump cr)).
  { rewrite flush_pass by done. cbn [fst snd]. rewrite saveToStorage_heap.
    rewrite (Hdone a o cr Hin Hcr). by destruct o. }
  assert (Hmem : a ∈ cacheQueue (flush sender c e w).1.1 ↔ S (retryCount cr) ≤ retryLimit).
  { rewrite flush_pass by done. cbn [fst snd]. rewrite Hq. split.
    - intros [_ Hall]. by destruct (Hall o cr Hin Hcr).
    - intros Hle. split; [done|]. intros o' cr' Hin' Hcr'.
      assert (o' = o) as ->.
      { eapply outcome_unique; [|done..]. rewrite Hfst. done. }
      assert (cr' = cr) as -> by congruence. done. }
  split; [done|]. split; [done|].
  intros Hgt ops.
  pose proof (flush_wf c e w Hwf) as Hwf'.
  destruct (flush sender c e w) as [[c1 e1] w1] eqn:Ef. cbn [fst snd] in *.
  destruct (run_step ops c1 e1 w1 Hwf') as [_ _ _ Hgone _]. cbn [fst snd] in *.
  apply Hgone.
  - apply lookup_lt_Some in Hheap. done.
  - rewrite Hmem. lia.
Qed.

Lemma reachable_wf (cfg : OfflineCacheConfig) onLine (e0 : env Report) w0 ops :
  wf (run sender ops (new cfg onLine e0, w0)).1.1
     (run sender ops (new cfg onLine e0, w0)).1.2.
Proof.
  pose proof (new_wf cfg onLine e0) as H0.
  destruct (new cfg onLine e0) as [c0 e1].
  by destruct (run_step ops c0 e1 w0 H0).
Qed.

Lemma reachable_config (cfg : OfflineCacheConfig) onLine (e0 : env Report) w0 ops :
  config (run sender ops (new cfg onLine e0, w0)).1.1 = config (new cfg onLine e0).1.
Proof.
  pose proof (new_wf cfg onLine e0) as H0.
  destruct (new cfg onLine e0) as [c0 e1].
  by destruct (run_step ops c0 e1 w0 H0).
Qed.

Lemma reachable_bound (cfg : OfflineCacheConfig) onLine (e0 : env Report) w0 ops :
  length (cacheQueue (new cfg onLine e0).1) ≤ maxCacheSize (config (new cfg onLine e0).1) →
  length (cacheQueue (run sender ops (new cfg onLine e0, w0)).1.1)
  ≤ maxCacheSize (config (run sender ops (new cfg onLine e0, w0)).1.1).
Proof.
  intros Hle. rewrite reachable_config.
  pose proof (new_wf cfg onLine e0) as H0.
  pose proof (new_maxCacheSize cfg onLine e0) as Hpos.
  destruct (new cfg onLine e0) as [c0 e1].
  destruct (run_step ops c0 e1 w0 H0) as [_ _ _ _ Hb]. by apply Hb.
Qed.

Lemma cache_facts now x c e :
  0 < maxCacheSize (config c) →
  if enabled (config c) then
    (length (cacheQueue c) < maxCacheSize (config c) →
     cacheQueue (cache now x c e).1 = cacheQueue c ++ [length (heap e)])
    ∧ (length (cacheQueue c) = maxCacheSize (config c) →
       cacheQueue (cache now x c e).1 = drop 1 (cacheQueue c) ++ [length (heap e)])
    ∧ heap (cache now x c e).2 !! length (heap e) = Some (mkCached x now 0)
    ∧ (∀ st, storage e = Some st → setItem_throws st = false →
         storage (cache now x c e).2
         = Some (written st (contents (cacheQueue (cache now x c e).1)
                                      (heap (cache now x c e).2))))
  else cache now x c e = (c, e).
Proof.
  intros Hpos. destruct (enabled (config c)) eqn:Hen.
  2:{ by apply cache_disabled. }
  rewrite cache_enabled by done. cbn [fst snd cacheQueue].
  rewrite length_app. cbn [length].
  split; [|split; [|split]].
  - intros Hlt. by rewrite decide_False by lia.
  - intros Heq. rewrite decide_True by lia.
    destruct (cacheQueue c) as [|a q]; [simpl in Heq; lia|done].
  - rewrite saveToStorage_heap. cbn [heap].
    by rewrite lookup_app_r, Nat.sub_diag by lia.
  - intros st Hst Hok. by apply saveToStorage_written.
Qed.

Lemma handleOnline_facts c e w :
  wf c e →
  let s' := handleOnline sender c e w in
  isOnline s'.1.1 = true
  ∧ s' = flush sender (mk (config c) (cacheQueue c) true) e w
  ∧ attempts s'.1.2 = attempts e ++ (report <$> contents (cacheQueue c) (heap e))
  ∧ (cacheQueue c ≠ [] →
     ∀ st, storage e = Some st → setItem_throws st = false →
           storage s'.1.2
           = Some (written st (contents (cacheQueue s'.1.1) (heap s'.1.2))))
  ∧ (cacheQueue c = [] → s' = (mk (config c) [] true, e, w))
  ∧ step sender Offline (c, e, w) = (mk (config c) (cacheQueue c) false, e, w).
Proof.
  intros Hwf s'. subst s'. unfold handleOnline.
  set (c1 := mk (config c) (cacheQueue c) true).
  assert (Hwf1 : wf c1 e) by done.
  destruct (flush_spec c1 e w Hwf1) as (_ & Hon & _ & _ & Hatt).
  split; [done|]. split; [done|]. split; [done|]. split; [|split; [|done]].
  - intros Hne st Hst Hok.
    rewrite (flush_pass c1 e w) by done. cbn [fst snd].
    destruct Hwf1 as [Hnd Hv].
    destruct (retry_loop_spec (cacheQueue c1) c1 e w [] Hnd Hv Hnd)
      as [_ _ _ Hsto _ _ _ _ _ _].
    apply saveToStorage_written; [|done]. by rewrite Hsto.
  - intros E. rewrite flush_empty by done. unfold c1. by rewrite E.
Qed.

End Facts.

(** C4, the claim as stated fails: the store has no [maxRetries]
    setting, and the pass does not follow the rule for a limit other
    than three.  With the limit one, the report that has failed once
    and fails again is to be dropped; the pass keeps it. *)
Lemma retry_limit_not_configurable :
  ¬ retry_rule Examples.failing 1
      Examples.failed_once.1.1 Examples.failed_once.1.2 Examples.failed_once.2.
Proof.
  intros H.
  destruct (H 0 (mkCached "X" 0 1) Rejects) as (_ & Hmem & _).
  - reflexivity.
  - vm_compute. left.
  - discriminate.
  - assert (Hin : 0 ∈ cacheQueue
             (flush Examples.failing Examples.failed_once.1.1
                    Examples.failed_once.1.2 Examples.failed_once.2).1.1)
      by (vm_compute; left).
    apply Hmem in Hin. simpl in Hin. lia.
Qed.

(** C4, amended.  In a retry pass of a store made by the constructor,
    after any operations: every queued report is attempted; a report
    whose attempt fails has its [retryCount] raised by one, stays in the
    queue exactly when the raised count is at most three, the limit the
    pass is written with, and once dropped is in no later queue, so no
    later pass attempts it. *)
Theorem retry_limit_three {Report W : Type} (sender : Report -> W -> W * outcome)
    (cfg : OfflineCacheConfig) (onLine : option bool) (e0 : env Report) (w0 : W)
    (ops : list (op Report)) :
  let s := run sender ops (new cfg onLine e0, w0) in
  retry_rule sender retryLimit s.1.1 s.1.2 s.2
  ∧ (attempt_all sender (cacheQueue s.1.1) (heap s.1.2) s.2).1.*1 = cacheQueue s.1.1.
Proof.
  intros s. pose proof (reachable_wf sender cfg onLine e0 w0 ops) as Hwf.
  split.
  - by apply retry_rule_wf.
  - apply attempt_all_fst. by destruct Hwf.
Qed.

(** The report that has failed three times fails a fourth time: its
    count goes to four and it leaves the queue for good. *)
Lemma retry_limit_three_witness :
  let s := run Examples.failing [RetryPass; RetryPass]
               Examples.failed_once in
  heap (flush Examples.failing s.1.1 s.1.2 s.2).1.2 !! 0 = Some (mkCached "X" 0 4)
  ∧ (0 ∈ cacheQueue (flush Examples.failing s.1.1 s.1.2 s.2).1.1 ↔ 4 ≤ retryLimit)
  ∧ (retryLimit < 4 →
     ∀ ops, 0 ∉ cacheQueue (run Examples.failing ops
                               (flush Examples.failing s.1.1 s.1.2 s.2)).1.1).
Proof.
  exact (proj1 (retry_limit_three Examples.failing (mkConfig 100 true "k") (Some true)
                  Examples.fresh_disk tt
                  [Offline; Cache 0 "X"; Online; RetryPass; RetryPass])
               0 (mkCached "X" 0 3) Rejects eq_refl
               ltac:(vm_compute; left) ltac:(discriminate)).
Defined.

(** C6, the claim as stated fails, twice over.  A store constructed
    with [enabled] cleared caches nothing: the object a [cache] call is
    to allocate is not there afterwards.  And the constructor restores a
    persisted queue of three into a store whose [maxCacheSize] is two. *)
Lemma cache_bound_fails :
  ¬ bounded_fifo Examples.accepting (mkConfig 2 false "k") (Some false)
      Examples.fresh_disk tt
  ∧ ¬ bounded_fifo Examples.accepting (mkConfig 2 true "k") (Some true)
        Examples.disk_of_three tt.
Proof.
  split; intros H.
  - destruct (H []) as [_ Hc]. destruct (Hc 0 "X") as (_ & Hnew & _).
    vm_compute in Hnew. discriminate.
  - destruct (H []) as [Hlen _]. vm_compute in Hlen. lia.
Qed.

(** C6, amended.  For a store made by the constructor, after any
    operations: if the queue the constructor restored is within
    [maxCacheSize], so is the queue now.  A [cache] call on a store
    whose [enabled] flag is set appends a new object with [retryCount]
    zero, after dropping the oldest object when the queue is full, and a
    storage that takes writes holds the whole queue when the call
    returns; with the flag cleared the call changes nothing. *)
Theorem cache_bounded_when_enabled {Report W : Type}
    (sender : Report -> W -> W * outcome)
    (cfg : OfflineCacheConfig) (onLine : option bool) (e0 : env Report) (w0 : W)
    (ops : list (op Report)) :
  let c0 := (new cfg onLine e0).1 in
  let s := run sender ops (new cfg onLine e0, w0) in
  let c := s.1.1 in
  let e := s.1.2 in
  (length (cacheQueue c0) ≤ maxCacheSize (config c0) →
   length (cacheQueue c) ≤ maxCacheSize (config c))
  ∧ ∀ now x,
      let r := cache now x c e in
      if enabled (config c) then
        (length (cacheQueue c) < maxCacheSize (config c) →
         cacheQueue r.1 = cacheQueue c ++ [length (heap e)])
        ∧ (length (cacheQueue c) = maxCacheSize (config c) →
           cacheQueue r.1 = drop 1 (cacheQueue c) ++ [length (heap e)])
        ∧ heap r.2 !! length (heap e) = Some (mkCached x now 0)
        ∧ (∀ st, storage e = Some st → setItem_throws st = false →
             storage r.2 = Some (written st (contents (cacheQueue r.1) (heap r.2))))
      else r = (c, e).
Proof.
  intros c0 s c e. split.
  - apply reachable_bound.
  - intros now x. apply cache_facts. unfold c, s.
    rewrite reachable_config. apply new_maxCacheSize.
Qed.

(** The scenario of the specification: offline, [maxCacheSize] two,
    X and Y cached; caching Z evicts X. *)
Lemma cache_bounded_when_enabled_witness :
  let s := run Examples.accepting [Offline; Cache 0 "X"; Cache 1 "Y"]
               (new (mkConfig 2 true "k") (Some true) Examples.fresh_disk, tt) in
  length (cacheQueue s.1.1) ≤ maxCacheSize (config s.1.1)
  ∧ cacheQueue (cache 2 "Z" s.1.1 s.1.2).1
    = drop 1 (cacheQueue s.1.1) ++ [length (heap s.1.2)].
Proof.
  intros s.
  pose proof (cache_bounded_when_enabled Examples.accepting (mkConfig 2 true "k")
                (Some true) Examples.fresh_disk tt
                [Offline; Cache 0 "X"; Cache 1 "Y"]) as [Hb Hc].
  split.
  - apply Hb. vm_compute. lia.
  - specialize (Hc 2 "Z"). cbv zeta in Hc. fold s in Hc.
    change (enabled (config s.1.1)) with true in Hc. cbv iota in Hc.
    destruct Hc as (_ & Hfull & _). apply Hfull. reflexivity.
Defined.

(** C7, the claim as stated fails: a store constructed with [enabled]
    cleared, while offline, neither sends nor caches the report that
    [send] is given; the queue stays empty and no object is made. *)
Lemma send_offline_disabled_drops :
  ¬ forwards_or_caches Examples.accepting
      (new (mkConfig 100 false "k") (Some false) Examples.fresh_disk).1
      (new (mkConfig 100 false "k") (Some false) Examples.fresh_disk).2 tt 9 "W".
Proof.
  intros [_ H]. destruct (H eq_refl) as (_ & _ & a & Hin & _).
  vm_compute in Hin. by apply elem_of_nil in Hin.
Qed.

(** C7, amended.  While the store is online, [send] hands the report to
    the sender and leaves the store, the cached objects and the storage
    as they were.  While it is offline, [send] makes no call of the
    sender and returns; on a store whose [enabled] flag is set it
    caches the report: a new object that holds it, with [retryCount]
    zero, is made and appended to the queue, the oldest object being
    dropped when the queue was full, and the queue is written to a
    storage that takes writes; on a store whose [enabled] flag is
    cleared it changes nothing. *)
Theorem send_online_or_cache {Report W : Type} (sender : Report -> W -> W * outcome)
    (c : t) (e : env Report) (w : W) (now : nat) (x : Report) :
  let s' := send sender now x c e w in
  (isOnline c = true →
     s'.1.1.1 = c
     ∧ heap s'.1.1.2 = heap e
     ∧ storage s'.1.1.2 = storage e
     ∧ attempts s'.1.1.2 = attempts e ++ [x]
     ∧ s'.1.2 = (sender x w).1)
  ∧ (isOnline c = false →
     attempts s'.1.1.2 = attempts e
     ∧ s'.1.2 = w
     ∧ s'.2 = Returned
     ∧ config s'.1.1.1 = config c
     ∧ isOnline s'.1.1.1 = false
     ∧ if enabled (config c) then
         heap s'.1.1.2 = heap e ++ [mkCached x now 0]
         ∧ (0 < maxCacheSize (config c) →
            cacheQueue s'.1.1.1
            = (if decide (length (cacheQueue c) < maxCacheSize (config c))
               then cacheQueue c
               else drop 1 (cacheQueue c)) ++ [length (heap e)])
         ∧ (∀ st, storage e = Some st → setItem_throws st = false →
              storage s'.1.1.2
              = Some (written st (contents (cacheQueue s'.1.1.1) (heap s'.1.1.2))))
       else s'.1.1 = (c, e)).
Proof.
  cbv zeta. split; intros Hon; unfold send; rewrite Hon.
  - by destruct (sender x w) as [w1 o].
  - destruct (enabled (config c)) eqn:Hen.
    + rewrite cache_enabled by done. cbn [fst snd config isOnline cacheQueue].
      split; [by rewrite saveToStorage_attempts|].
      split; [done|]. split; [done|]. split; [done|]. split; [done|].
      split; [by rewrite saveToStorage_heap|]. split.
      * intros Hpos. rewrite length_app. cbn [length].
        destruct (decide (length (cacheQueue c) < maxCacheSize (config c))).
        -- by rewrite decide_False by lia.
        -- rewrite decide_True by lia.
           destruct (cacheQueue c) as [|a q]; [simpl in *; lia|done].
      * intros st Hst Hok. by apply saveToStorage_written.
    + rewrite cache_disabled by done. by repeat split.
Qed.

(** An online store with one cached report sends W straight out; the
    same store, offline, caches it behind the report it holds. *)
Lemma send_online_or_cache_witness :
  attempts (send Examples.accepting 9 "W" Examples.failed_once.1.1
                 Examples.failed_once.1.2 tt).1.1.2 = ["X"; "W"]
  ∧ cacheQueue (send Examples.accepting 9 "W" (handleOffline Examples.failed_once.1.1)
                     Examples.failed_once.1.2 tt).1.1.1 = [0; 1]
  ∧ heap (send Examples.accepting 9 "W" (handleOffline Examples.failed_once.1.1)
               Examples.failed_once.1.2 tt).1.1.2 !! 1 = Some (mkCached "W" 9 0).
Proof.
  split.
  - exact (proj1 (proj2 (proj2 (proj2
             (proj1 (send_online_or_cache Examples.accepting Examples.failed_once.1.1
                       Examples.failed_once.1.2 tt 9 "W") eq_refl))))).
  - destruct (proj2 (send_online_or_cache Examples.accepting
                       (handleOffline Examples.failed_once.1.1)
                       Examples.failed_once.1.2 tt 9 "W") eq_refl)
      as (_ & _ & _ & _ & _ & Hc).
    change (enabled (config (handleOffline Examples.failed_once.1.1))) with true in Hc.
    cbv iota in Hc. destruct Hc as (Hh & Hq & _).
    rewrite Hh, Hq by (vm_compute; lia). split; reflexivity.
Defined.

(** C8, the claim as stated fails: on a store whose queue is empty the
    pass returns at once and writes nothing to the storage. *)
Lemma reconnect_empty_writes_nothing :
  ¬ reconnects Examples.accepting
      (new (mkConfig 100 true "k") (Some false) Examples.fresh_disk).1
      (new (mkConfig 100 true "k") (Some false) Examples.fresh_disk).2 tt.
Proof.
  intros (_ & _ & _ & Hw & _).
  specialize (Hw (mkStorage None false []) eq_refl eq_refl).
  vm_compute in Hw. discriminate.
Qed.

(** C8, amended.  For a store made by the constructor, after any
    operations: the restored signal sets the flag to online and runs
    exactly one pass, which attempts the queued reports in the order of
    the queue, oldest first; when the queue was not empty, a storage
    that takes writes is written exactly once, with the queue the pass
    leaves; when the queue was empty nothing else changes.  The lost
    signal clears the flag and changes nothing else. *)
Theorem reconnect_runs_one_pass {Report W : Type}
    (sender : Report -> W -> W * outcome)
    (cfg : OfflineCacheConfig) (onLine : option bool) (e0 : env Report) (w0 : W)
    (ops : list (op Report)) :
  let s := run sender ops (new cfg onLine e0, w0) in
  let c := s.1.1 in
  let e := s.1.2 in
  let s' := handleOnline sender c e s.2 in
  isOnline s'.1.1 = true
  ∧ s' = flush sender (mk (config c) (cacheQueue c) true) e s.2
  ∧ attempts s'.1.2 = attempts e ++ (report <$> contents (cacheQueue c) (heap e))
  ∧ (cacheQueue c ≠ [] →
     ∀ st, storage e = Some st → setItem_throws st = false →
           storage s'.1.2
           = Some (written st (contents (cacheQueue s'.1.1) (heap s'.1.2))))
  ∧ (cacheQueue c = [] → s' = (mk (config c) [] true, e, s.2))
  ∧ step sender Offline (c, e, s.2) = (mk (config c) (cacheQueue c) false, e, s.2).
Proof.
  intros s c e. apply handleOnline_facts. apply reachable_wf.
Qed.

(** The scenario of the specification: offline, [maxCacheSize] two,
    X, Y and Z cached; on the restored signal Y then Z are attempted,
    and the queue the pass leaves, empty, is written once. *)
Lemma reconnect_runs_one_pass_witness :
  let s := run Examples.accepting [Offline; Cache 0 "X"; Cache 1 "Y"; Cache 2 "Z"]
               (new (mkConfig 2 true "k") (Some true) Examples.fresh_disk, tt) in
  let s' := handleOnline Examples.accepting s.1.1 s.1.2 s.2 in
  attempts s'.1.2 = attempts s.1.2 ++ (report <$> contents (cacheQueue s.1.1) (heap s.1.2))
  ∧ ∃ st, storage s.1.2 = Some st
          ∧ storage s'.1.2
            = Some (written st (contents (cacheQueue s'.1.1) (heap s'.1.2))).
Proof.
  intros s s'.
  pose proof (reconnect_runs_one_pass Examples.accepting (mkConfig 2 true "k")
                (Some true) Examples.fresh_disk tt
                [Offline; Cache 0 "X"; Cache 1 "Y"; Cache 2 "Z"])
    as (_ & _ & Hatt & Hw & _).
  split; [exact Hatt|].
  eexists. split; [reflexivity|].
  apply Hw; [|reflexivity..].
  intros E. vm_compute in E. discriminate.
Defined.

Section Durability.

Context {Report W : Type}.
Variable sender : Report -> W -> W * outcome.

Implicit Types (c : t) (e : env Report) (w : W) (x : Report) (a b : nat)
  (q todo : list nat) (h : list (CachedReport Report)) (cr : CachedReport Report).

Local Abbreviation state := (t * env Report * W)%type.

Lemma store_run_snoc ops o (s : state) :
  run sender (ops ++ [o]) s = step sender o (run sender ops s).
Proof. unfold run. by rewrite foldl_app. Qed.

(** *** What a later page restores *)

Lemma contents_seq h (items : list (CachedReport Report)) :
  contents (seq (length h) (length items)) (h ++ items) = items.
Proof.
  unfold contents. revert h.
  induction items as [|cr items IH]; intros h; [done|].
  cbn [length seq omap list_omap].
  rewrite lookup_app_r, Nat.sub_diag by lia. cbn [lookup list_lookup].
  f_equal.
  specialize (IH (h ++ [cr])). rewrite length_app in IH; simpl in IH.
  rewrite <- app_assoc in IH. simpl in IH.
  by rewrite Nat.add_1_r in IH.
Qed.

Lemma new_contents (cfg : OfflineCacheConfig) onLine e :
  contents (cacheQueue (new cfg onLine e).1) (heap (new cfg onLine e).2)
  = match storage e with Some st => stored_items st | None => [] end.
Proof.
  unfold new, loadFromStorage, stored_items. cbn [storage].
  destruct (storage e) as [st|]; [|done].
  destruct (item st) as [[items|]|]; cbn [fst snd cacheQueue heap]; try done.
  apply contents_seq.
Qed.

Lemma new_synced (cfg : OfflineCacheConfig) onLine e st :
  storage e = Some st → setItem_throws st = false →
  synced (new cfg onLine e).1 (new cfg onLine e).2.
Proof.
  intros Hst Hthrows. exists st.
  rewrite new_contents, Hst. split; [|done].
  unfold new, loadFromStorage. rewrite Hst.
  by destruct (item st) as [[items|]|].
Qed.

Lemma saveToStorage_synced c e :
  (∃ st, storage e = Some st ∧ setItem_throws st = false) →
  synced c (saveToStorage c e).
Proof.
  intros (st & Hst & Hthrows).
  exists (written st (contents (cacheQueue c) (heap (saveToStorage c e)))).
  split; [by apply saveToStorage_written|]. split; [done|].
  unfold stored_items; simpl. done.
Qed.

Lemma cache_synced now x c e : synced c e → synced (cache now x c e).1 (cache now x c e).2.
Proof.
  intros Hs. unfold cache. destruct (enabled (config c)); cbn [negb fst snd]; [|done].
  apply saveToStorage_synced. destruct Hs as (st & Hst & Hthrows & _). eauto.
Qed.

Lemma flush_synced c e w :
  wf c e → synced c e → synced (flush sender c e w).1.1 (flush sender c e w).1.2.
Proof.
  intros [Hnd Hb] Hs.
  destruct (decide (cacheQueue c = [])) as [Eq|Eq]; [by rewrite flush_empty|].
  rewrite flush_pass by done. cbn [fst snd].
  apply saveToStorage_synced.
  destruct (retry_loop_spec sender (cacheQueue c) c e w [] Hnd Hb Hnd)
    as [_ _ _ Hsto _ _ _ _ _ _].
  rewrite Hsto. destruct Hs as (st & Hst & Hthrows & _). eauto.
Qed.

Lemma step_synced o c e w :
  wf c e → synced c e →
  synced (step sender o (c, e, w)).1.1 (step sender o (c, e, w)).1.2.
Proof.
  intros Hwf Hs. destruct o as [now x|now x| | | |]; cbn [step].
  - pose proof (cache_synced now x c e Hs). by destruct (cache now x c e).
  - unfold send. destruct (isOnline c).
    + destruct (sender x w) as [w1 o]. exact Hs.
    + pose proof (cache_synced now x c e Hs). by destruct (cache now x c e).
  - by apply flush_synced.
  - unfold handleOnline. apply flush_synced; [exact Hwf|exact Hs].
  - exact Hs.
  - unfold clear. cbn [fst snd]. apply saveToStorage_synced.
    destruct Hs as (st & Hst & Hthrows & _). eauto.
Qed.

Lemma run_synced ops : ∀ c e w,
  wf c e → synced c e →
  synced (run sender ops (c, e, w)).1.1 (run sender ops (c, e, w)).1.2.
Proof.
  induction ops as [|o ops IH] using rev_ind; intros c e w Hwf Hs; [done|].
  rewrite store_run_snoc.
  specialize (IH c e w Hwf Hs).
  pose proof (run_step sender ops c e w Hwf) as [_ _ Hwf' _ _].
  destruct (run sender ops (c, e, w)) as [[c1 e1] w1]. by apply step_synced.
Qed.

(** *** The storage is only written *)

Lemma with_storage_idem sto1 sto2 e :
  with_storage sto1 (with_storage sto2 e) = with_storage sto1 e.
Proof. done. Qed.

Lemma saveToStorage_memory sto c e :
  ∃ sto', saveToStorage c (with_storage sto e) = with_storage sto' (saveToStorage c e).
Proof.
  unfold saveToStorage, with_storage; cbn [storage heap attempts].
  destruct sto as [s|]; [destruct (setItem_throws s)|];
    (destruct (storage e) as [s2|]; [destruct (setItem_throws s2)|]); eauto.
Qed.

Lemma cache_memory sto now x c e :
  ∃ sto', cache now x c (with_storage sto e)
          = ((cache now x c e).1, with_storage sto' (cache now x c e).2).
Proof.
  unfold cache. destruct (enabled (config c)); cbn [negb fst snd]; [|eauto].
  cbn [with_storage heap storage attempts].
  match goal with
  | |- context [saveToStorage ?c2 (mkEnv ?h (storage e) ?att)] =>
      destruct (saveToStorage_memory sto c2 (mkEnv h (storage e) att)) as [sto' E]
  end.
  exists sto'. f_equal. exact E.
Qed.

Lemma retry_one_memory sto a c e w failed :
  retry_one sender a (c, with_storage sto e, w, failed)
  = ((retry_one sender a (c, e, w, failed)).1.1.1,
     with_storage sto (retry_one sender a (c, e, w, failed)).1.1.2,
     (retry_one sender a (c, e, w, failed)).1.2,
     (retry_one sender a (c, e, w, failed)).2).
Proof.
  unfold retry_one, with_storage; cbn [heap storage attempts].
  destruct (heap e !! a) as [cr|]; [|done].
  destruct (sender (report cr) w) as [w1 o].
  destruct o; cbn [heap storage attempts]; try done; by case_decide.
Qed.

Lemma retry_loop_memory sto todo : ∀ c e w failed,
  retry_loop sender todo (c, with_storage sto e, w, failed)
  = ((retry_loop sender todo (c, e, w, failed)).1.1.1,
     with_storage sto (retry_loop sender todo (c, e, w, failed)).1.1.2,
     (retry_loop sender todo (c, e, w, failed)).1.2,
     (retry_loop sender todo (c, e, w, failed)).2).
Proof.
  induction todo as [|a todo IH]; intros c e w failed.
  - done.
  - rewrite !retry_loop_cons, retry_one_memory.
    destruct (retry_one sender a (c, e, w, failed)) as [[[c1 e1] w1] failed1].
    cbn [fst snd]. apply IH.
Qed.

Lemma flush_memory sto c e w :
  ∃ sto', flush sender c (with_storage sto e) w
          = ((flush sender c e w).1.1, with_storage sto' (flush sender c e w).1.2,
             (flush sender c e w).2).
Proof.
  unfold flush. destruct (cacheQueue c) as [|a q] eqn:Eq; [by eauto|].
  rewrite retry_loop_memory.
  destruct (retry_loop sender (a :: q) (c, e, w, [])) as [[[c1 e1] w1] failed1].
  cbn [fst snd].
  destruct (saveToStorage_memory sto c1 e1) as [sto' E]. exists sto'. by rewrite E.
Qed.

Lemma step_memory sto o c e w :
  ∃ sto', step sender o (c, with_storage sto e, w)
          = ((step sender o (c, e, w)).1.1,
             with_storage sto' (step sender o (c, e, w)).1.2,
             (step sender o (c, e, w)).2).
Proof.
  destruct o as [now x|now x| | | |]; cbn [step].
  - destruct (cache_memory sto now x c e) as [sto' E]. exists sto'.
    rewrite E. by destruct (cache now x c e).
  - unfold send. destruct (isOnline c).
    + destruct (sender x w) as [w1 o]. by exists sto.
    + destruct (cache_memory sto now x c e) as [sto' E]. exists sto'.
      rewrite E. by destruct (cache now x c e).
  - apply flush_memory.
  - apply flush_memory.
  - by exists sto.
  - unfold clear. cbn [fst snd].
    match goal with
    | |- context [saveToStorage ?c2 (with_storage sto e)] =>
        destruct (saveToStorage_memory sto c2 e) as [sto' E]
    end.
    exists sto'. by rewrite E.
Qed.

Lemma run_memory ops : ∀ sto c e w,
  ∃ sto', run sender ops (c, with_storage sto e, w)
          = ((run sender ops (c, e, w)).1.1,
             with_storage sto' (run sender ops (c, e, w)).1.2,
             (run sender ops (c, e, w)).2).
Proof.
  induction ops as [|o ops IH] using rev_ind; intros sto c e w.
  - by exists sto.
  - destruct (IH sto c e w) as [sto1 E1].
    rewrite !store_run_snoc, E1.
    destruct (run sender ops (c, e, w)) as [[c1 e1] w1]. cbn [fst snd].
    apply step_memory.
Qed.

(** *** The queue a pass leaves *)

Lemma sublist_same_elements (l : list nat) : ∀ l1 l2,
  NoDup l → sublist l1 l → sublist l2 l → (∀ a, a ∈ l1 ↔ a ∈ l2) → l1 = l2.
Proof.
  induction l as [|a l IH]; intros l1 l2 Hnd H1 H2 Hiff.
  - apply sublist_nil_r in H1, H2. by subst.
  - apply NoDup_cons in Hnd as [Hnotin Hnd].
    apply sublist_cons_r in H1 as [H1|(l1' & -> & H1)];
      apply sublist_cons_r in H2 as [H2|(l2' & -> & H2)].
    + by apply IH.
    + exfalso. apply Hnotin. apply (sublist_subseteq _ _ H1), Hiff. by left.
    + exfalso. apply Hnotin. apply (sublist_subseteq _ _ H2), Hiff. by left.
    + f_equal. apply IH; try done.
      intros b. split; intros Hb.
      * assert (b ∈ a :: l2') as Hb' by (apply Hiff; by right).
        apply elem_of_cons in Hb' as [->|Hb']; [|done].
        exfalso. apply Hnotin. by apply (sublist_subseteq _ _ H1).
      * assert (b ∈ a :: l1') as Hb' by (apply Hiff; by right).
        apply elem_of_cons in Hb' as [->|Hb']; [|done].
        exfalso. apply Hnotin. by apply (sublist_subseteq _ _ H2).
Qed.

Lemma survivors_sublist (outs : list (nat * outcome)) h :
  sublist (survivors outs h) outs.*1.
Proof.
  induction outs as [|[a o] outs IH]; [done|].
  unfold survivors in *. cbn [omap list_omap fmap list_fmap fst snd].
  destruct (h !! a) as [cr|]; cbn [mbind option_bind].
  - destruct (drops cr o); [by apply sublist_cons|by apply sublist_skip].
  - by apply sublist_cons.
Qed.

Lemma elem_of_survivors (outs : list (nat * outcome)) h a :
  a ∈ survivors outs h
  ↔ ∃ o cr, (a, o) ∈ outs ∧ h !! a = Some cr ∧ drops cr o = false.
Proof.
  unfold survivors. rewrite list_elem_of_omap. split.
  - intros ([b o] & Hin & Hsome). cbn [fst snd] in Hsome.
    destruct (h !! b) as [cr|] eqn:Eb; [|done]. cbn [mbind option_bind] in Hsome.
    destruct (drops cr o) eqn:Ed; [done|]. inversion Hsome; subst. eauto.
  - intros (o & cr & Hin & Hcr & Hd). exists (a, o). split; [done|].
    cbn [fst snd]. rewrite Hcr. cbn [mbind option_bind]. by rewrite Hd.
Qed.

Lemma flush_survivors c e w :
  wf c e →
  cacheQueue (flush sender c e w).1.1
  = survivors (attempt_all sender (cacheQueue c) (heap e) w).1 (heap e).
Proof.
  intros [Hnd Hb].
  destruct (decide (cacheQueue c = [])) as [Eq|Eq].
  { rewrite flush_empty by done. by rewrite Eq. }
  rewrite flush_pass by done. cbn [fst snd].
  destruct (retry_loop_spec sender (cacheQueue c) c e w [] Hnd Hb Hnd)
    as [_ _ _ _ _ _ _ _ Hq Hsub].
  pose proof (attempt_all_fst sender (cacheQueue c) (heap e) w Hb) as Hfst.
  set (outs := (attempt_all sender (cacheQueue c) (heap e) w).1) in *.
  apply (sublist_same_elements (cacheQueue c)); [done|done| |].
  { rewrite <- Hfst. apply survivors_sublist. }
  intros a. rewrite Hq, elem_of_survivors. split.
  - intros [Hin Hall].
    assert (a ∈ outs.*1) as Hin' by by rewrite Hfst.
    apply list_elem_of_fmap in Hin' as ([a' o] & -> & Hin').
    destruct (lookup_lt_is_Some_2 (heap e) a' (Hb _ Hin)) as [cr Hcr].
    destruct (Hall o cr Hin' Hcr) as [Hne Hle].
    exists o, cr. repeat split; try done.
    unfold drops. destruct o; try done; apply bool_decide_eq_false; lia.
  - intros (o & cr & Hin & Hcr & Hd). split.
    + rewrite <- Hfst. apply list_elem_of_fmap. by exists (a, o).
    + intros o' cr' Hin' Hcr'.
      assert (o' = o) as ->.
      { eapply outcome_unique; [|exact Hin'|exact Hin]. by rewrite Hfst. }
      assert (cr' = cr) as -> by congruence.
      unfold drops in Hd. destruct o; try done;
        apply bool_decide_eq_false in Hd; split; try done; lia.
Qed.

(** *** Retry counts *)

Lemma new_retries (cfg : OfflineCacheConfig) onLine e :
  (∀ st, storage e = Some st →
         Forall (λ cr, retryCount cr ≤ retryLimit) (stored_items st)) →
  retries_within (new cfg onLine e).1 (new cfg onLine e).2.
Proof.
  intros Hst a cr Ha Hcr.
  pose proof (new_contents cfg onLine e) as Hc.
  assert (cr ∈ contents (cacheQueue (new cfg onLine e).1) (heap (new cfg onLine e).2))
    as Hin.
  { unfold contents. apply list_elem_of_omap. eauto. }
  rewrite Hc in Hin. destruct (storage e) as [st|]; [|by apply elem_of_nil in Hin].
  specialize (Hst st eq_refl). rewrite Forall_forall in Hst. by apply Hst.
Qed.

Lemma cache_retries now x c e :
  wf c e → retries_within c e →
  retries_within (cache now x c e).1 (cache now x c e).2.
Proof.
  intros [Hnd Hb] Hr.
  destruct (enabled (config c)) eqn:Hen; [|by rewrite cache_disabled].
  rewrite cache_enabled by done. cbn [fst snd].
  intros a cr Ha. rewrite saveToStorage_heap. cbn [cacheQueue heap] in *.
  assert (a ∈ cacheQueue c ++ [length (heap e)]) as Ha'.
  { case_decide; [|done]. by apply (sublist_subseteq _ _ (sublist_drop _ 1)). }
  apply elem_of_app in Ha' as [Ha'|Ha'].
  - rewrite lookup_app_l by by apply Hb. by apply Hr.
  - apply list_elem_of_singleton in Ha' as ->.
    rewrite lookup_app_r, Nat.sub_diag by lia. intros [= <-]. simpl.
    unfold retryLimit. lia.
Qed.

Lemma flush_retries c e w :
  wf c e → retries_within (flush sender c e w).1.1 (flush sender c e w).1.2.
Proof.
  intros [Hnd Hb].
  destruct (decide (cacheQueue c = [])) as [Eq|Eq].
  { rewrite flush_empty by done. intros a cr Ha. cbn [fst snd] in Ha.
    rewrite Eq in Ha. by apply elem_of_nil in Ha. }
  rewrite flush_pass by done. cbn [fst snd].
  destruct (retry_loop_spec sender (cacheQueue c) c e w [] Hnd Hb Hnd)
    as [_ _ _ _ _ _ _ Hdone Hq _].
  pose proof (attempt_all_fst sender (cacheQueue c) (heap e) w Hb) as Hfst.
  intros a cr' Ha. rewrite saveToStorage_heap. intros Hcr'.
  apply Hq in Ha as [Hin Hall].
  assert (a ∈ (attempt_all sender (cacheQueue c) (heap e) w).1.*1) as Hin'
    by by rewrite Hfst.
  apply list_elem_of_fmap in Hin' as ([a' o] & -> & Hin'). cbn [fst] in *.
  destruct (lookup_lt_is_Some_2 (heap e) a' (Hb _ Hin)) as [cr Hcr].
  destruct (Hall o cr Hin' Hcr) as [Hne Hle].
  rewrite (Hdone a' o cr Hin' Hcr) in Hcr'. inversion Hcr'; subst.
  destruct o; try done.
Qed.

Lemma step_retries o c e w :
  wf c e → retries_within c e →
  retries_within (step sender o (c, e, w)).1.1 (step sender o (c, e, w)).1.2.
Proof.
  intros Hwf Hr. destruct o as [now x|now x| | | |]; cbn [step].
  - pose proof (cache_retries now x c e Hwf Hr). by destruct (cache now x c e).
  - unfold send. destruct (isOnline c).
    + destruct (sender x w) as [w1 o]. exact Hr.
    + pose proof (cache_retries now x c e Hwf Hr). by destruct (cache now x c e).
  - by apply flush_retries.
  - unfold handleOnline. by apply flush_retries.
  - exact Hr.
  - unfold clear. cbn [fst snd]. intros a cr Ha. by apply elem_of_nil in Ha.
Qed.

Lemma run_retries ops : ∀ c e w,
  wf c e → retries_within c e →
  retries_within (run sender ops (c, e, w)).1.1 (run sender ops (c, e, w)).1.2.
Proof.
  induction ops as [|o ops IH] using rev_ind; intros c e w Hwf Hr; [done|].
  rewrite store_run_snoc.
  specialize (IH c e w Hwf Hr).
  pose proof (run_step sender ops c e w Hwf) as [_ _ Hwf' _ _].
  destruct (run sender ops (c, e, w)) as [[c1 e1] w1]. by apply step_retries.
Qed.

End Durability.

Section World.

Context {Report W : Type}.
Variable sender : Report -> W -> W * outcome.
Variable P : W → Prop.
Hypothesis sender_keeps : ∀ r w, P w → P (sender r w).1.

Implicit Types (c : t) (e : env Report) (w : W) (x : Report).

Lemma retry_one_world a c e w failed :
  P w → P (retry_one sender a (c, e, w, failed)).1.2.
Proof using sender_keeps.
  intros Hw. unfold retry_one. destruct (heap e !! a) as [cr|]; [|done].
  pose proof (sender_keeps (report cr) w Hw).
  destruct (sender (report cr) w) as [w1 o].
  destruct o; try done; by case_decide.
Qed.

Lemma retry_loop_world todo : ∀ c e w failed,
  P w → P (retry_loop sender todo (c, e, w, failed)).1.2.
Proof using sender_keeps.
  induction todo as [|a todo IH]; intros c e w failed Hw; [done|].
  rewrite retry_loop_cons.
  pose proof (retry_one_world a c e w failed Hw).
  destruct (retry_one sender a (c, e, w, failed)) as [[[c1 e1] w1] failed1].
  by apply IH.
Qed.

Lemma store_flush_world c e w : P w → P (flush sender c e w).2.
Proof using sender_keeps.
  intros Hw. unfold flush. destruct (cacheQueue c) as [|a q]; [done|].
  pose proof (retry_loop_world (a :: q) c e w [] Hw).
  by destruct (retry_loop sender (a :: q) (c, e, w, [])) as [[[c1 e1] w1] failed1].
Qed.

Lemma send_world now x c e w : P w → P (send sender now x c e w).1.2.
Proof using sender_keeps.
  intros Hw. unfold send. destruct (isOnline c).
  - pose proof (sender_keeps x w Hw). by destruct (sender x w).
  - by destruct (cache now x c e).
Qed.

End World.

Section Heap.

Context {Report W : Type}.
Variable sender : Report -> W -> W * outcome.

Implicit Types (c : t) (e : env Report) (w : W) (x : Report).

Lemma retry_one_heap_length a c e w failed :
  length (heap (retry_one sender a (c, e, w, failed)).1.1.2) = length (heap e).
Proof.
  unfold retry_one. destruct (heap e !! a) as [cr|]; [|done].
  destruct (sender (report cr) w) as [w1 o].
  destruct o; try done; case_decide; cbn [fst snd heap]; by rewrite length_insert.
Qed.

Lemma retry_loop_heap_length todo : ∀ c e w failed,
  length (heap (retry_loop sender todo (c, e, w, failed)).1.1.2) = length (heap e).
Proof.
  induction todo as [|a todo IH]; intros c e w failed; [done|].
  rewrite retry_loop_cons.
  pose proof (retry_one_heap_length a c e w failed) as H1.
  destruct (retry_one sender a (c, e, w, failed)) as [[[c1 e1] w1] failed1].
  cbn [fst snd] in H1. by rewrite IH.
Qed.

Lemma flush_heap_length c e w :
  length (heap (flush sender c e w).1.2) = length (heap e).
Proof.
  unfold flush. destruct (cacheQueue c) as [|a q]; [done|].
  pose proof (retry_loop_heap_length (a :: q) c e w []) as H1.
  destruct (retry_loop sender (a :: q) (c, e, w, [])) as [[[c1 e1] w1] failed1].
  cbn [fst snd] in *. by rewrite saveToStorage_heap.
Qed.

End Heap.

(** X7.  When [localStorage] takes writes, the storage holds the queue
    as it is in memory after every operation: a store made on a later
    page with the same configuration starts with the same reports,
    timestamps and retry counts, in the same order (the reports being
    values that JSON carries unchanged). *)
Theorem reload_restores_queue {Report W : Type} (sender : Report -> W -> W * outcome)
    (cfg : OfflineCacheConfig) (onLine : option bool) (e0 : env Report) (w0 : W)
    (ops : list (op Report)) (st0 : Storage Report) :
  storage e0 = Some st0 → setItem_throws st0 = false →
  let s := run sender ops (new cfg onLine e0, w0) in
  ∀ (onLine' : option bool) (h : list (CachedReport Report)),
    let r := new cfg onLine' (later_page h s.1.2) in
    contents (cacheQueue r.1) (heap r.2) = contents (cacheQueue s.1.1) (heap s.1.2).
Proof.
  intros Hst Hthrows s onLine' h r.
  pose proof (run_synced sender ops (new cfg onLine e0).1 (new cfg onLine e0).2 w0
                (new_wf cfg onLine e0) (new_synced cfg onLine e0 st0 Hst Hthrows)) as Hs.
  replace ((new cfg onLine e0).1, (new cfg onLine e0).2) with (new cfg onLine e0) in Hs
    by by destruct (new cfg onLine e0).
  fold s in Hs. destruct Hs as (st & Hst' & _ & Hitems).
  unfold r. rewrite new_contents. unfold later_page; cbn [storage].
  by rewrite Hst'.
Qed.

Lemma reload_restores_queue_witness :
  let s := run Examples.failing [Offline; Cache 5 "A"; Cache 6 "B"; Online]
             (new (mkConfig 100 true "k") (Some true) Examples.disk_of_three, tt) in
  let r := new (mkConfig 100 true "k") (Some false) (later_page [] s.1.2) in
  contents (cacheQueue r.1) (heap r.2) = contents (cacheQueue s.1.1) (heap s.1.2).
Proof.
  exact (reload_restores_queue Examples.failing (mkConfig 100 true "k") (Some true)
           Examples.disk_of_three tt [Offline; Cache 5 "A"; Cache 6 "B"; Online]
           _ eq_refl eq_refl (Some false) []).
Defined.

(** X8.  After the constructor the store never reads [localStorage]:
    whatever the storage is (missing, full, holding anything), the
    same operations leave the same queue, the same cached objects, the
    same attempts and the same world. *)
Theorem storage_is_write_only {Report W : Type} (sender : Report -> W -> W * outcome)
    (sto : option (Storage Report)) (ops : list (op Report))
    (c : t) (e : env Report) (w : W) :
  memory (run sender ops (c, with_storage sto e, w)) = memory (run sender ops (c, e, w)).
Proof.
  destruct (run_memory sender ops sto c e w) as [sto' E]. rewrite E.
  by destruct (run sender ops (c, e, w)) as [[c1 e1] w1].
Qed.

(** X9.  A retry pass of a store the constructor made, run to
    completion, leaves the queue in its order, without the reports
    whose attempt resolved and without those that have now failed more
    often than the threshold: nothing else leaves, nothing is
    reordered. *)
Theorem pass_keeps_order {Report W : Type} (sender : Report -> W -> W * outcome)
    (cfg : OfflineCacheConfig) (onLine : option bool) (e0 : env Report) (w0 : W)
    (ops : list (op Report)) :
  let s := run sender ops (new cfg onLine e0, w0) in
  cacheQueue (flush sender s.1.1 s.1.2 s.2).1.1
  = survivors (attempt_all sender (cacheQueue s.1.1) (heap s.1.2) s.2).1 (heap s.1.2).
Proof.
  intros s. apply flush_survivors. apply reachable_wf.
Qed.

(** X10.  If the cached reports the constructor restores have failed at
    most three times, then after any operations no queued report has
    failed more than three times. *)
Theorem retries_stay_within {Report W : Type} (sender : Report -> W -> W * outcome)
    (cfg : OfflineCacheConfig) (onLine : option bool) (e0 : env Report) (w0 : W)
    (ops : list (op Report)) :
  (∀ st, storage e0 = Some st →
         Forall (λ cr, retryCount cr ≤ 3) (stored_items st)) →
  let s := run sender ops (new cfg onLine e0, w0) in
  Forall (λ cr, retryCount cr ≤ 3) (contents (cacheQueue s.1.1) (heap s.1.2)).
Proof.
  intros Hst s.
  pose proof (run_retries sender ops (new cfg onLine e0).1 (new cfg onLine e0).2 w0
                (new_wf cfg onLine e0) (new_retries cfg onLine e0 Hst)) as Hr.
  replace ((new cfg onLine e0).1, (new cfg onLine e0).2) with (new cfg onLine e0) in Hr
    by by destruct (new cfg onLine e0).
  fold s in Hr. apply Forall_forall. intros cr Hin.
  unfold contents in Hin. apply list_elem_of_omap in Hin as (a & Ha & Hcr).
  exact (Hr a cr Ha Hcr).
Qed.

Lemma retries_stay_within_witness :
  let s := run Examples.failing [Online; Online; Cache 9 "W"; Online; Online; Online]
             (new (mkConfig 100 true "k") (Some true) Examples.disk_of_three, tt) in
  Forall (λ cr, retryCount cr ≤ 3) (contents (cacheQueue s.1.1) (heap s.1.2)).
Proof.
  apply (retries_stay_within Examples.failing (mkConfig 100 true "k") (Some true)
           Examples.disk_of_three tt [Online; Online; Cache 9 "W"; Online; Online; Online]).
  intros st [= <-]. unfold stored_items; simpl. repeat constructor.
Defined.

End OfflineCacheFacts.

Module ErrorMonitorFacts.
Import ErrorMonitor.

Section Facts.

Variable host : Host.t.

Implicit Types (m : t) (e : env) (lvl : option Level).

Lemma shouldFilter_minLevel lvl cfg err h :
  shouldFilter (with_minLevel lvl cfg) err h = shouldFilter cfg err h.
Proof. unfold shouldFilter. simpl. by destruct (Config.filter cfg). Qed.

Lemma filter_check_minLevel lvl opts cfg err h :
  filter_check opts (with_minLevel lvl cfg) err h = filter_check opts cfg err h.
Proof. unfold filter_check. by rewrite shouldFilter_minLevel. Qed.

Lemma sendToServer_minLevel lvl now data m e :
  sendToServer host now data (set_minLevel lvl m) e
  = (set_minLevel lvl (sendToServer host now data m e).1.1,
     (sendToServer host now data m e).1.2,
     (sendToServer host now data m e).2).
Proof.
  unfold sendToServer. simpl. destruct (offlineCache m) as [oc|].
  - change (sendToServerDirectly host (with_minLevel lvl (config m)))
      with (sendToServerDirectly host (config m)).
    by destruct (OfflineCache.send _ now data oc (disk e) (wire e)) as [[[? ?] ?] ?].
  - change (sendToServerDirectly host (with_minLevel lvl (config m)) data (wire e))
      with (sendToServerDirectly host (config m) data (wire e)).
    by destruct (sendToServerDirectly host (config m) data (wire e)).
Qed.

Lemma report_minLevel lvl now data m e :
  report host now data (set_minLevel lvl m) e
  = (set_minLevel lvl (report host now data m e).1.1,
     (report host now data m e).1.2,
     (report host now data m e).2).
Proof.
  unfold report. simpl.
  destruct (beforeReport_loop (plugins m) data SameObject) as [processed|]; [|done].
  destruct (batchQueue m) as [bq|].
  - change (sendBatchToServer host (with_minLevel lvl (config m)))
      with (sendBatchToServer host (config m)).
    by destruct (BatchQueue.add _ now processed bq (window e) (wire e)) as [[[? ?] ?] ?].
  - apply sendToServer_minLevel.
Qed.

Lemma capture_minLevel lvl d err options m e :
  capture host d err options (set_minLevel lvl m) e
  = (set_minLevel lvl (capture host d err options m e).1.1.1,
     (capture host d err options m e).1.1.2,
     (capture host d err options m e).1.2,
     (capture host d err options m e).2).
Proof.
  unfold capture. cbn [set_minLevel with_config isInitialized config plugins breadcrumbs].
  destruct (isInitialized m); [|done]. cbn [negb].
  change (Config.enabled (with_minLevel lvl (config m))) with (Config.enabled (config m)).
  case_decide; [done|].
  rewrite filter_check_minLevel.
  destruct (filter_check _ _ _ _) as [[|] regexps1]; [done|].
  change (Config.errorSampleRate (with_minLevel lvl (config m)))
    with (Config.errorSampleRate (config m)).
  destruct (_ && _); [done|].
  destruct (beforeCapture_loop _ _ _) as [| |processed]; [done..|].
  destruct (user_missing _); [done|].
  change (build_report host d ?o (with_config (with_minLevel lvl (config m)) m) ?e1 processed)
    with (build_report host d o m e1 processed).
  destruct (afterCapture_loop _ _) as [rep1|]; [|done].
  fold (set_minLevel lvl m). rewrite report_minLevel.
  by destruct (report host (Draw.now d) rep1 m _) as [[? ?] ?].
Qed.

Lemma api_step_minLevel lvl c (s : t * env * list seen) :
  api_step host c (relabel lvl s) = relabel lvl (api_step host c s).
Proof.
  destruct s as [[m e] log]. unfold relabel. cbn [fst snd].
  destruct c as [|p| | |now crumb|d err options|d message stack options
                 |d message level options|now data| |id| | |]; cbn [api_step].
  - unfold init. simpl. by destruct (isInitialized m).
  - done.
  - done.
  - done.
  - unfold addBreadcrumb. simpl.
    by destruct (RingBuffer.push (breadcrumbs m) _ (arrays e)).
  - rewrite capture_minLevel.
    by destruct (capture host d err options m e) as [[[? ?] ?] ?].
  - unfold captureError. rewrite capture_minLevel.
    by destruct (capture host d _ options m e) as [[[? ?] ?] ?].
  - unfold captureMessage. rewrite capture_minLevel.
    by destruct (capture host d _ _ m e) as [[[? ?] ?] ?].
  - rewrite report_minLevel.
    by destruct (report host now data m e) as [[? ?] ?].
  - unfold destroy. simpl.
    change (sendBatchToServer host (with_minLevel lvl (config m)))
      with (sendBatchToServer host (config m)).
    destruct (batchQueue m) as [bq|].
    + destruct (BatchQueue.destroy _ bq (window e) (wire e)) as [[? ?] ?].
      by destruct (RingBuffer.clear (breadcrumbs m) (arrays e)).
    + by destruct (RingBuffer.clear (breadcrumbs m) (arrays e)).
  - unfold on_queue. simpl.
    change (sendBatchToServer host (with_minLevel lvl (config m)))
      with (sendBatchToServer host (config m)).
    destruct (batchQueue m) as [bq|]; [|done].
    by destruct (BatchQueue.fire _ id bq (window e) (wire e)) as [[? ?] ?].
  - unfold on_queue. simpl.
    change (sendBatchToServer host (with_minLevel lvl (config m)))
      with (sendBatchToServer host (config m)).
    destruct (batchQueue m) as [bq|]; [|done].
    by destruct (BatchQueue.flush _ bq (window e) (wire e)) as [[? ?] ?].
  - unfold on_store. simpl.
    change (sendToServerDirectly host (with_minLevel lvl (config m)))
      with (sendToServerDirectly host (config m)).
    destruct (offlineCache m) as [oc|].
    + by destruct (OfflineCache.handleOnline _ oc (disk e) (wire e)) as [[? ?] ?].
    + destruct (detached e) as [oc|]; [|done].
      by destruct (OfflineCache.handleOnline _ oc (disk e) (wire e)) as [[? ?] ?].
  - unfold on_store. simpl. destruct (offlineCache m); [done|]. by destruct (detached e).
Qed.

Lemma api_run_minLevel lvl calls : ∀ s : t * env * list seen,
  api_run host calls (relabel lvl s) = relabel lvl (api_run host calls s).
Proof.
  induction calls as [|c calls IH]; intros s; [done|].
  unfold api_run in *. cbn [foldl]. by rewrite api_step_minLevel, IH.
Qed.

Lemma new_minLevel (input : ConfigInput.t) ie iu lvl1 lvl2 session e0 :
  new host (input_with_filter (Filter.mk ie iu lvl2) input) session e0
  = (set_minLevel lvl2
       (new host (input_with_filter (Filter.mk ie iu lvl1) input) session e0).1,
     (new host (input_with_filter (Filter.mk ie iu lvl1) input) session e0).2).
Proof.
  unfold new. simpl.
  by destruct (OfflineCache.new _ _ (disk e0)).
Qed.

(** Hooks that return new events: the loop hands on what the last of
    them makes of the normalized event; called on the working copy they
    would compose. *)
Lemma returning_last_wins (fs : list (ErrorType.t -> ErrorType.t)) :
  ∀ normalized processed,
    beforeCapture_loop (returning <$> fs) normalized processed
    = Done (match last fs with
            | Some f => f normalized
            | None => resolve normalized processed
            end).
Proof.
  induction fs as [|f fs IH]; intros normalized processed; [reflexivity|].
  cbn [fmap list_fmap beforeCapture_loop returning Plugin.beforeCapture].
  fold (returning <$> fs). rewrite IH.
  destruct fs as [|g fs]; [reflexivity|].
  change (last (f :: g :: fs)) with (last (g :: fs)).
  destruct (last (g :: fs)) eqn:E; [reflexivity|].
  by apply last_None in E.
Qed.

Lemma returning_chained_compose (fs : list (ErrorType.t -> ErrorType.t)) :
  ∀ copy, beforeCapture_chained (returning <$> fs) copy
          = Done (foldl (λ acc f, f acc) copy fs).
Proof.
  induction fs as [|f fs IH]; intros copy; [reflexivity|].
  cbn [fmap list_fmap beforeCapture_chained returning Plugin.beforeCapture foldl].
  fold (returning <$> fs). apply IH.
Qed.

(** A hook that returns [null] ends the capture with nothing built and
    nothing changed but what the filter check did to the patterns. *)
Lemma veto_is_silent d err options m e :
  (capture host d err options m e).2 = VetoedByHook →
  capture host d err options m e
  = (m, with_regexps (regexps (capture host d err options m e).1.1.2) e,
     Returned, VetoedByHook).
Proof.
  unfold capture.
  destruct (negb (isInitialized m)); [done|].
  case_decide; [done|].
  destruct (filter_check _ _ _ _) as [[|] regexps1]; [done|].
  destruct (_ && _); [done|].
  destruct (beforeCapture_loop _ _ _); [done..|].
  destruct (user_missing _); [done|].
  destruct (afterCapture_loop _ _); [|done].
  intros Hfate. exfalso. revert Hfate.
  by destruct (report host _ _ m _) as [[? ?] ?].
Qed.

End Facts.

Import Examples.

(** C1, at a failing input.  Two plugins are registered, the first
    returning a new event with A appended to the message, the second one
    with B appended.  For the capture of an error with message x the
    assembled report carries xB: the second hook was called on the
    normalized event, not on what the first returned.  Called on the
    working copy, as the specification words it, the hooks give xAB. *)
Theorem beforeCapture_hooks_see_original :
  let s0 := new browser minimal_input "s" fresh_env in
  let m := init (use (appending "B") (use (appending "A") s0.1)) in
  (∃ r, (capture browser draw (AnError "x" None) None m s0.2).2 = Reported r
        ∧ ErrorReport.message r = "xB")
  ∧ beforeCapture_loop (plugins m) (normalize (AnError "x" None)) SameObject
    = Done (ErrorType.mk custom "xB" None (Some ∅))
  ∧ beforeCapture_chained (plugins m) (normalize (AnError "x" None))
    = Done (ErrorType.mk custom "xAB" None (Some ∅)).
Proof.
  intros s0 m. split; [|split].
  - eexists. split; [vm_compute; reflexivity|reflexivity].
  - reflexivity.
  - reflexivity.
Qed.

(** C5, at failing inputs.  A capture raises to its caller: when the
    monitor was constructed with [report: undefined], so that it has no
    batch queue, and [sendBeacon] throws; when the custom reporter
    throws and the monitor, destroyed and initialised again, has neither
    queue nor store; and, with the default configuration, when a
    [beforeCapture] hook throws.  [report] called on the first monitor
    raises the same way. *)
Theorem capture_raises_to_caller :
  let s1 := new browser_beacon_throws input_report_undefined "s" fresh_env in
  let s2 := api_run browser [Init; Destroy; Init]
              (new browser input_reporter_throws "s" fresh_env, []) in
  let s3 := new browser minimal_input "s" fresh_env in
  (capture browser_beacon_throws draw (AnError "boom" None) None (init s1.1) s1.2).1.2
  = Raised
  ∧ (captureError browser draw "boom" None None s2.1.1 s2.1.2).1.2 = Raised
  ∧ (captureMessage browser draw "boom" None None s2.1.1 s2.1.2).1.2 = Raised
  ∧ (capture browser draw (AnError "boom" None) None
       (init (use throwing_plugin s3.1)) s3.2).1.2 = Raised
  ∧ ∀ data, (report browser_beacon_throws 0 data (init s1.1) s1.2).2 = Raised.
Proof.
  intros s1 s2 s3. repeat split; try (vm_compute; reflexivity).
Qed.

(** C10.  Two monitors constructed from configurations that differ only
    in [filter.minLevel], given the same calls and signals with the same
    draws, end in the same environment, with the same on the wire, and
    show the host the same completions and capture results; the monitors
    themselves differ only in that [minLevel].  [shouldFilter] answers
    the same for both, and a capture is filtered or not whatever the
    level in its options. *)
Theorem minLevel_has_no_effect (host : Host.t) (input : ConfigInput.t)
    (ignoreErrors ignoreUrls : option (list RegExp.t)) (lvl1 lvl2 : option Level)
    (session : string) (e0 : env) (calls : list call) :
  let f1 := Filter.mk ignoreErrors ignoreUrls lvl1 in
  let f2 := Filter.mk ignoreErrors ignoreUrls lvl2 in
  api_run host calls (new host (input_with_filter f2 input) session e0, [])
  = relabel lvl2
      (api_run host calls (new host (input_with_filter f1 input) session e0, []))
  ∧ (∀ cfg err h, shouldFilter (with_minLevel lvl2 cfg) err h = shouldFilter cfg err h)
  ∧ (∀ d err options level m e,
       (capture host d err (Some (options_with_level level options)) m e).2 = Filtered
       ↔ (capture host d err (Some options) m e).2 = Filtered).
Proof.
  intros f1 f2. split; [|split].
  - rewrite (new_minLevel host input ignoreErrors ignoreUrls lvl1 lvl2).
    rewrite <- api_run_minLevel. reflexivity.
  - intros. apply shouldFilter_minLevel.
  - intros d err options level m e. unfold capture.
    cbn [default options_with_level]. unfold filter_check, user_missing.
    cbn [CaptureOptions.skipFilter CaptureOptions.skipSampling CaptureOptions.user].
    destruct (isInitialized m); simpl; [|done].
    case_decide; [done|].
    destruct (if default false (CaptureOptions.skipFilter options) then _ else _)
      as [[|] regexps1]; [done|].
    destruct (_ && _); [done|].
    destruct (beforeCapture_loop _ _ _); [done..|].
    destruct (CaptureOptions.user options) as [|[id|]]; try done.
    all: destruct (afterCapture_loop _ _), (afterCapture_loop _ _); try done.
    all: split; intros H; exfalso; revert H;
      repeat match goal with
      | |- context [report ?h ?n ?r ?m ?e] => destruct (report h n r m e) as [[? ?] ?]
      end; done.
Qed.

Section Settings.

Variable host : Host.t.

Implicit Types (m : t) (e : env).


(** *** Patterns without the [g] and the [y] flag *)









(** *** The clamp of the sampling rates *)

Lemma Qle_bool_false a b : Qle_bool a b = false → (b < a)%Q.
Proof.
  intros E. apply Qnot_le_lt. intros H. apply Qle_bool_iff in H. congruence.
Qed.

Lemma clamp_bounds rate :
  let r := Math_max SAMPLING_MIN_RATE (Math_min SAMPLING_MAX_RATE rate) in
  (0 <= r)%Q ∧ (r <= 1)%Q
  ∧ ((0 <= rate)%Q → (rate <= 1)%Q → (r == rate)%Q)
  ∧ ((1 <= rate)%Q → (r == 1)%Q)
  ∧ ((rate <= 0)%Q → (r == 0)%Q).
Proof.
  unfold Math_max, Math_min, SAMPLING_MIN_RATE, SAMPLING_MAX_RATE.
  destruct (Qle_bool 1 rate) eqn:E1.
  - apply Qle_bool_iff in E1.
    change (Qle_bool 0 1) with true. cbv zeta iota beta.
    repeat split; try done.
    + intros _ H. by apply Qle_antisym.
    + intros H. exfalso. apply (Qle_not_lt _ _ (Qle_trans _ _ _ E1 H)). done.
  - apply Qle_bool_false in E1.
    destruct (Qle_bool 0 rate) eqn:E0.
    + apply Qle_bool_iff in E0. cbv zeta.
      repeat split; try done.
      * by apply Qlt_le_weak.
      * intros H. exfalso. by apply (Qle_not_lt _ _ H).
      * intros H. by apply Qle_antisym.
    + apply Qle_bool_false in E0. cbv zeta.
      repeat split; try done.
      * intros H. exfalso. by apply (Qle_not_lt _ _ H).
      * intros H. exfalso. apply (Qle_not_lt _ _ H). by apply (Qlt_trans _ 0).
Qed.

(** *** [sampleRate] is carried along and never read *)

Lemma sendToServer_sampleRate r now data m e :
  sendToServer host now data (with_config (with_sampleRate r (config m)) m) e
  = (with_config (with_sampleRate r (config (sendToServer host now data m e).1.1))
       (sendToServer host now data m e).1.1,
     (sendToServer host now data m e).1.2,
     (sendToServer host now data m e).2).
Proof.
  unfold sendToServer. simpl. destruct (offlineCache m) as [oc|].
  - change (sendToServerDirectly host (with_sampleRate r (config m)))
      with (sendToServerDirectly host (config m)).
    by destruct (OfflineCache.send _ now data oc (disk e) (wire e)) as [[[? ?] ?] ?].
  - change (sendToServerDirectly host (with_sampleRate r (config m)) data (wire e))
      with (sendToServerDirectly host (config m) data (wire e)).
    by destruct (sendToServerDirectly host (config m) data (wire e)).
Qed.

Lemma report_sampleRate r now data m e :
  report host now data (with_config (with_sampleRate r (config m)) m) e
  = (with_config (with_sampleRate r (config (report host now data m e).1.1))
       (report host now data m e).1.1,
     (report host now data m e).1.2,
     (report host now data m e).2).
Proof.
  unfold report. simpl.
  destruct (beforeReport_loop (plugins m) data SameObject) as [processed|]; [|done].
  destruct (batchQueue m) as [bq|].
  - change (sendBatchToServer host (with_sampleRate r (config m)))
      with (sendBatchToServer host (config m)).
    by destruct (BatchQueue.add _ now processed bq (window e) (wire e)) as [[[? ?] ?] ?].
  - apply sendToServer_sampleRate.
Qed.

Lemma capture_sampleRate r d err options m e :
  capture host d err options (with_config (with_sampleRate r (config m)) m) e
  = (with_config (with_sampleRate r (config (capture host d err options m e).1.1.1))
       (capture host d err options m e).1.1.1,
     (capture host d err options m e).1.1.2,
     (capture host d err options m e).1.2,
     (capture host d err options m e).2).
Proof.
  unfold capture. cbn [with_config isInitialized config plugins breadcrumbs].
  destruct (isInitialized m); [|done]. cbn [negb].
  change (Config.enabled (with_sampleRate r (config m))) with (Config.enabled (config m)).
  case_decide; [done|].
  change (filter_check ?o (with_sampleRate r (config m))) with (filter_check o (config m)).
  destruct (filter_check _ _ _ _) as [[|] regexps1]; [done|].
  change (Config.errorSampleRate (with_sampleRate r (config m)))
    with (Config.errorSampleRate (config m)).
  destruct (_ && _); [done|].
  destruct (beforeCapture_loop _ _ _) as [| |processed]; [done..|].
  destruct (user_missing _); [done|].
  change (build_report host d ?o (with_config (with_sampleRate r (config m)) m) ?e1 processed)
    with (build_report host d o m e1 processed).
  destruct (afterCapture_loop _ _) as [rep1|]; [|done].
  rewrite report_sampleRate.
  by destruct (report host (Draw.now d) rep1 m _) as [[? ?] ?].
Qed.

Lemma api_step_sampleRate r c (s : t * env * list seen) :
  api_step host c (resample r s) = resample r (api_step host c s).
Proof.
  destruct s as [[m e] log]. unfold resample. cbn [fst snd].
  destruct c as [|p| | |now crumb|d err options|d message stack options
                 |d message level options|now data| |id| | |]; cbn [api_step].
  - unfold init. simpl. by destruct (isInitialized m).
  - done.
  - done.
  - done.
  - unfold addBreadcrumb. simpl.
    by destruct (RingBuffer.push (breadcrumbs m) _ (arrays e)).
  - rewrite capture_sampleRate.
    by destruct (capture host d err options m e) as [[[? ?] ?] ?].
  - unfold captureError. rewrite capture_sampleRate.
    by destruct (capture host d _ options m e) as [[[? ?] ?] ?].
  - unfold captureMessage. rewrite capture_sampleRate.
    by destruct (capture host d _ _ m e) as [[[? ?] ?] ?].
  - rewrite report_sampleRate.
    by destruct (report host now data m e) as [[? ?] ?].
  - unfold destroy. simpl.
    change (sendBatchToServer host (with_sampleRate r (config m)))
      with (sendBatchToServer host (config m)).
    destruct (batchQueue m) as [bq|].
    + destruct (BatchQueue.destroy _ bq (window e) (wire e)) as [[? ?] ?].
      by destruct (RingBuffer.clear (breadcrumbs m) (arrays e)).
    + by destruct (RingBuffer.clear (breadcrumbs m) (arrays e)).
  - unfold on_queue. simpl.
    change (sendBatchToServer host (with_sampleRate r (config m)))
      with (sendBatchToServer host (config m)).
    destruct (batchQueue m) as [bq|]; [|done].
    by destruct (BatchQueue.fire _ id bq (window e) (wire e)) as [[? ?] ?].
  - unfold on_queue. simpl.
    change (sendBatchToServer host (with_sampleRate r (config m)))
      with (sendBatchToServer host (config m)).
    destruct (batchQueue m) as [bq|]; [|done].
    by destruct (BatchQueue.flush _ bq (window e) (wire e)) as [[? ?] ?].
  - unfold on_store. simpl.
    change (sendToServerDirectly host (with_sampleRate r (config m)))
      with (sendToServerDirectly host (config m)).
    destruct (offlineCache m) as [oc|].
    + by destruct (OfflineCache.handleOnline _ oc (disk e) (wire e)) as [[? ?] ?].
    + destruct (detached e) as [oc|]; [|done].
      by destruct (OfflineCache.handleOnline _ oc (disk e) (wire e)) as [[? ?] ?].
  - unfold on_store. simpl. destruct (offlineCache m); [done|]. by destruct (detached e).
Qed.

Lemma api_run_sampleRate r calls : ∀ s : t * env * list seen,
  api_run host calls (resample r s) = resample r (api_run host calls s).
Proof.
  induction calls as [|c calls IH]; intros s; [done|].
  unfold api_run in *. cbn [foldl]. by rewrite api_step_sampleRate, IH.
Qed.

Lemma afterCapture_loop_none (ps : list Plugin.t) rep :
  Forall (λ p, Plugin.afterCapture p = None) ps → afterCapture_loop ps rep = Some rep.
Proof.
  induction 1 as [|p ps Hp _ IH]; [done|]. cbn [afterCapture_loop]. by rewrite Hp.
Qed.

End Settings.





(** With the [g] flag the same pattern drops only every other capture
    of the message: the match moves [lastIndex] to its end, the next
    [test] starts there, finds nothing and moves it back. *)
Example global_pattern_alternates :
  let s0 := new Examples.browser Examples.minimal_input "s" Examples.fresh_env in
  let pattern := RegExp.mk 0 (λ i msg, if bool_decide (i = 0) then Some 4 else None) true in
  let boom := Capture Examples.draw (AnError "boom" None) None in
  let s := api_run Examples.browser [Init; boom; boom; boom]
             (addFilter pattern s0.1, s0.2, []) in
  ∃ r, snd <$> s.2 = [Some Filtered; Some (Reported r); Some Filtered].
Proof. eexists. vm_compute. reflexivity. Qed.

(** X13.  [setErrorSampleRate] and [setSampleRate], given a number,
    store it clamped to the interval from 0 to 1: a rate inside the
    interval is kept, one above it becomes 1, one below it becomes 0.  After
    [setErrorSampleRate] with a rate of 1 or more no capture is sampled
    out, whatever [Math.random] draws in its range. *)
Theorem sample_rates_are_clamped (rate : Q) (m : t) :
  ∃ r, Config.errorSampleRate (config (setErrorSampleRate rate m)) = Some r
       ∧ Config.sampleRate (config (setSampleRate rate m)) = Some r
       ∧ (0 <= r)%Q ∧ (r <= 1)%Q
       ∧ ((0 <= rate)%Q → (rate <= 1)%Q → (r == rate)%Q)
       ∧ ((1 <= rate)%Q → (r == 1)%Q)
       ∧ ((rate <= 0)%Q → (r == 0)%Q)
       ∧ ((1 <= rate)%Q →
          ∀ host d err options e,
            (Draw.random d <= 1)%Q →
            (capture host d err options (setErrorSampleRate rate m) e).2 ≠ SampledOut).
Proof.
  exists (Math_max SAMPLING_MIN_RATE (Math_min SAMPLING_MAX_RATE rate)).
  destruct (clamp_bounds rate) as (H0 & H1 & Hin & Hhi & Hlo).
  repeat split; try done.
  intros Hrate host d err options e Hd.
  unfold capture.
  destruct (negb (isInitialized _)); [done|].
  case_decide; [done|].
  destruct (filter_check _ _ _ _) as [[|] regexps1]; [done|].
  cbn [setErrorSampleRate with_config config Config.errorSampleRate].
  assert (Qle_bool (Draw.random d)
            (Math_max SAMPLING_MIN_RATE (Math_min SAMPLING_MAX_RATE rate)) = true) as ->.
  { apply Qle_bool_iff. rewrite (Hhi Hrate). exact Hd. }
  cbn [negb]. rewrite andb_false_r.
  destruct (beforeCapture_loop _ _ _); [done..|].
  destruct (user_missing _); [done|].
  destruct (afterCapture_loop _ _); [|done].
  by destruct (report host _ _ _ _) as [[? ?] ?].
Qed.

(** X14.  The overall [sampleRate] is stored and never consulted: after
    [setSampleRate], whatever the rate, the same calls and signals end
    in the same environment and show the host the same completions and
    capture results as without it; the monitor differs in that field
    only. *)
Theorem sampleRate_is_never_read (host : Host.t) (rate : Q) (calls : list call)
    (m : t) (e : env) (log : list seen) :
  api_run host calls (setSampleRate rate m, e, log)
  = resample (Some (Math_max SAMPLING_MIN_RATE (Math_min SAMPLING_MAX_RATE rate)))
      (api_run host calls (m, e, log)).
Proof.
  rewrite <- api_run_sampleRate. reflexivity.
Qed.

(** X15.  [setUser] sets [userId] to the [id] of the object passed, to
    [undefined] when it has none, and merges the object into the tags,
    keeping the tags it does not name.  On a monitor without
    [afterCapture] hooks a report built afterwards carries that user
    id, unless the capture names a user of its own, and every property
    of the object as a tag, unless the capture's own tags name it. *)
Theorem setUser_marks_reports (host : Host.t) (user : dict) (d : Draw.t) (err : raw)
    (options : option CaptureOptions.t) (m : t) (e : env) (r : ErrorReport.t) :
  no_afterCapture m →
  (capture host d err options (setUser user m) e).2 = Reported r →
  let opts := default (CaptureOptions.mk Absent None None Absent None None) options in
  Context.userId (ErrorReport.context r)
  = match truthy (user_id opts) with
    | Some id => Some id
    | None => user !! "id"
    end
  ∧ Context.tags (ErrorReport.context r)
    = default ∅ (CaptureOptions.tags opts) ∪ (user ∪ default ∅ (Config.tags (config m)))
  ∧ ∀ k v, user !! k = Some v → default ∅ (CaptureOptions.tags opts) !! k = None →
           Context.tags (ErrorReport.context r) !! k = Some v.
Proof.
  intros Hno Hfate opts.
  assert (ErrorReport.context r
          = ErrorReport.context
              (build_report host d opts (setUser user m) e
                 (ErrorType.mk custom "" None None))) as Hctx.
  { revert Hfate. unfold capture.
    destruct (negb (isInitialized _)); [done|].
    case_decide; [done|].
    destruct (filter_check _ _ _ _) as [[|] regexps1]; [done|].
    destruct (_ && _); [done|].
    destruct (beforeCapture_loop _ _ _) as [| |processed]; [done..|].
    destruct (user_missing _); [done|].
    rewrite afterCapture_loop_none by exact Hno.
    destruct (report host _ _ _ _) as [[? ?] ?]. by intros [= <-]. }
  rewrite Hctx. cbn [build_report ErrorReport.context Context.userId Context.tags
    setUser with_config config Config.userId Config.tags default].
  fold opts. repeat split; try done.
  intros k v Hk Hnone.
  apply lookup_union_Some_raw. right. split; [done|].
  apply lookup_union_Some_raw. by left.
Qed.

Lemma setUser_marks_reports_witness :
  let s0 := new Examples.browser Examples.minimal_input "s" Examples.fresh_env in
  let user : dict := {[ "id" := "u1"; "plan" := "pro" ]} in
  ∃ r, (capture Examples.browser Examples.draw (AnError "x" None) None
          (setUser user (init s0.1)) s0.2).2 = Reported r
       ∧ Context.userId (ErrorReport.context r) = Some "u1"
       ∧ Context.tags (ErrorReport.context r) !! "plan" = Some "pro".
Proof.
  intros s0 user.
  destruct (capture Examples.browser Examples.draw (AnError "x" None) None
              (setUser user (init s0.1)) s0.2) as [[[m1 e1] c1] f1] eqn:E.
  assert (∃ r, f1 = Reported r) as [r ->].
  { revert E. vm_compute. intros [= _ _ _ <-]. eauto. }
  exists r. split; [done|].
  destruct (setUser_marks_reports Examples.browser user Examples.draw (AnError "x" None)
              None (init s0.1) s0.2 r) as (Hid & _ & Htags).
  - constructor.
  - by rewrite E.
  - split; [exact Hid|]. apply Htags; reflexivity.
Defined.

Section Runs.

Variable host : Host.t.

Implicit Types (m : t) (e : env).

Lemma act_run_snoc acts a (s : t * env * list seen) :
  act_run host (acts ++ [a]) s = act_step host a (act_run host acts s).
Proof. unfold act_run. by rewrite foldl_app. Qed.

Lemma api_run_snoc calls c (s : t * env * list seen) :
  api_run host (calls ++ [c]) s = api_step host c (api_run host calls s).
Proof. unfold api_run. by rewrite foldl_app. Qed.

(** *** What [report] and [capture] leave alone *)

Lemma sendToServer_frame now data m e :
  let r := sendToServer host now data m e in
  config r.1.1 = config m ∧ breadcrumbs r.1.1 = breadcrumbs m
  ∧ plugins r.1.1 = plugins m
  ∧ arrays r.1.2 = arrays e ∧ batchQueue r.1.1 = batchQueue m
  ∧ window r.1.2 = window e
  ∧ (offlineCache m = None → offlineCache r.1.1 = None ∧ disk r.1.2 = disk e).
Proof.
  unfold sendToServer. cbv zeta. destruct (offlineCache m) as [oc|] eqn:Eoc.
  - destruct (OfflineCache.send _ now data oc (disk e) (wire e)) as [[[? ?] ?] ?].
    simpl. repeat split; congruence.
  - destruct (sendToServerDirectly host (config m) data (wire e)).
    simpl. repeat split; congruence.
Qed.

Lemma kept_refl m e : kept m e m e.
Proof. unfold kept. repeat split; try done. intros bq ->. eauto. Qed.

Lemma kept_disk m e e1 m' e' e1' :
  disk e1 = disk e → disk e1' = disk e' → kept m e m' e' → kept m e1 m' e1'.
Proof.
  intros E1 E2 (Hc & Hb & Hp & Hq & Hn & Hs). unfold kept. rewrite E1, E2.
  split; [done|]. split; [done|]. split; [done|]. split; [exact Hq|].
  split; [exact Hn|exact Hs].
Qed.

Lemma report_frame now data m e :
  let r := report host now data m e in
  kept m e r.1.1 r.1.2 ∧ arrays r.1.2 = arrays e.
Proof.
  unfold report. cbv zeta.
  destruct (beforeReport_loop (plugins m) data SameObject) as [processed|].
  2:{ split; [apply kept_refl|done]. }
  destruct (batchQueue m) as [bq|] eqn:Ebq.
  - pose proof (BatchQueueFacts.add_config (sendBatchToServer host (config m)) now
                  processed bq (window e) (wire e)) as Hc.
    destruct (BatchQueue.add _ now processed bq (window e) (wire e)) as [[[bq1 ?] ?] ?].
    unfold kept. rewrite Ebq.
    cbn [fst snd config breadcrumbs plugins arrays batchQueue offlineCache disk] in *.
    repeat split; try done.
    intros ? [= <-]. eauto.
  - destruct (sendToServer_frame now processed m e) as (? & ? & ? & ? & Hq & _ & Hs).
    unfold kept. rewrite Ebq. repeat split; try done.
    + by rewrite Hq.
    + by apply Hs.
    + by apply Hs.
Qed.

Lemma capture_frame d err options m e :
  let r := capture host d err options m e in
  kept m e r.1.1.1 r.1.1.2
  ∧ (arrays r.1.1.2 = arrays e ∨ ∃ x, arrays r.1.1.2 = arrays e ++ [x]).
Proof.
  assert (Hsame : kept m e m e ∧ (arrays e = arrays e ∨ ∃ x, arrays e = arrays e ++ [x])).
  { split; [apply kept_refl|by left]. }
  unfold capture. cbv zeta.
  destruct (negb (isInitialized m)); [apply Hsame|].
  case_decide; [apply Hsame|].
  destruct (filter_check _ _ _ _) as [filtered regexps1].
  assert (Hsame0 : kept m e m (with_regexps regexps1 e)
                   ∧ (arrays (with_regexps regexps1 e) = arrays e
                      ∨ ∃ x, arrays (with_regexps regexps1 e) = arrays e ++ [x])).
  { split; [by apply (kept_disk m e e m e), kept_refl|by left]. }
  destruct filtered; [apply Hsame0|].
  destruct (_ && _); [apply Hsame0|].
  destruct (beforeCapture_loop _ _ _) as [| |processed]; [apply Hsame0..|].
  destruct (user_missing _); [apply Hsame0|].
  destruct (afterCapture_loop _ _) as [rep1|].
  2:{ cbn [fst snd arrays disk RingBuffer.toArray with_regexps].
      split; [by apply (kept_disk m e e m e), kept_refl|]. right. eauto. }
  match goal with
  | |- context [report host ?n ?r ?m ?e1] =>
      destruct (report_frame n r m e1) as [Hk Ha];
      destruct (report host n r m e1) as [[m2 e2] c2]
  end.
  cbn [fst snd arrays disk RingBuffer.toArray with_regexps] in *.
  split; [by apply (kept_disk _ _ _ _ _ _ eq_refl eq_refl) in Hk|].
  right. rewrite Ha. eauto.
Qed.

Lemma on_queue_frame m e f :
  (∀ bq we w, BatchQueue.config (f bq we w).1.1 = BatchQueue.config bq) →
  let r := on_queue m e f in
  kept m e r.1 r.2 ∧ arrays r.2 = arrays e.
Proof.
  intros Hf. unfold on_queue. cbv zeta. destruct (batchQueue m) as [bq|] eqn:Ebq.
  - specialize (Hf bq (window e) (wire e)).
    destruct (f bq (window e) (wire e)) as [[bq1 ?] ?].
    unfold kept. rewrite Ebq.
    cbn [fst snd config breadcrumbs plugins arrays batchQueue offlineCache disk] in *.
    repeat split; try done. intros ? [= <-]. eauto.
  - cbn [fst snd]. split; [apply kept_refl|done].
Qed.

Lemma on_store_frame m e f :
  let r := on_store m e f in
  config r.1 = config m ∧ breadcrumbs r.1 = breadcrumbs m ∧ arrays r.2 = arrays e
  ∧ batchQueue r.1 = batchQueue m
  ∧ (offlineCache m = None → offlineCache r.1 = None).
Proof.
  unfold on_store. cbv zeta. destruct (offlineCache m) as [oc|] eqn:Eoc.
  - destruct (f oc (disk e) (wire e)) as [[? ?] ?]. simpl. repeat split; congruence.
  - destruct (detached e) as [oc|]; [|by simpl].
    destruct (f oc (disk e) (wire e)) as [[? ?] ?]. by simpl.
Qed.

(** *** What every step keeps *)

Lemma kept_follows m e m' e' : kept m e m' e' → follows m e m' e'.
Proof.
  intros (_ & _ & _ & Hq & Hn & Hs). unfold follows. repeat split.
  - intros bq' Hbq'. destruct (batchQueue m) as [bq|] eqn:Ebq.
    + destruct (Hq bq eq_refl) as (bq1 & E1 & Hc & _). exists bq.
      split; [done|]. congruence.
    + rewrite Hn in Hbq' by done. done.
  - intros Hnone. destruct (batchQueue m) as [bq|] eqn:Ebq; [|by left].
    destruct (Hq bq eq_refl) as (bq1 & E1 & _). congruence.
  - intros Hoc. by apply Hs.
  - intros [Hbq|Hoc].
    + destruct (batchQueue m) as [bq|] eqn:Ebq; [|done].
      destruct (Hq bq eq_refl) as (bq1 & _ & _ & _ & ->). done.
    + destruct (Hs Hoc) as [_ ->]. done.
Qed.

Lemma follows_config c m e : follows m e (with_config c m) e.
Proof.
  unfold follows, with_config. cbn [batchQueue offlineCache]. repeat split; eauto.
Qed.

Lemma act_step_follows a m e log :
  follows m e (act_step host a (m, e, log)).1.1 (act_step host a (m, e, log)).1.2.
Proof.
  destruct a as [c|updates|pattern|rate|rate|user]; cbn [act_step fst snd];
    try apply follows_config.
  destruct c as [|p| | |now crumb|d err options|d message stack options
                 |d message level options|now data| |id| | |]; cbn [api_step].
  - unfold init. destruct (isInitialized m); cbn [fst snd];
      apply kept_follows, kept_refl || (apply kept_follows; unfold kept; simpl;
        repeat split; try done; intros bq ->; eauto).
  - unfold follows, use; simpl. repeat split; eauto.
  - apply follows_config.
  - apply follows_config.
  - unfold addBreadcrumb.
    destruct (RingBuffer.push (breadcrumbs m) _ (arrays e)) as [ring arrays1].
    unfold follows; simpl. repeat split; eauto.
  - destruct (capture_frame d err options m e) as [Hk _].
    destruct (capture host d err options m e) as [[[m1 e1] c1] f1].
    by apply kept_follows.
  - unfold captureError.
    destruct (capture_frame d (AnError message stack) options m e) as [Hk _].
    destruct (capture host d _ options m e) as [[[m1 e1] c1] f1].
    by apply kept_follows.
  - unfold captureMessage.
    match goal with
    | |- context [capture host d ?r ?o m e] =>
        destruct (capture_frame d r o m e) as [Hk _];
        destruct (capture host d r o m e) as [[[m1 e1] c1] f1]
    end.
    by apply kept_follows.
  - destruct (report_frame now data m e) as [Hk _].
    destruct (report host now data m e) as [[m1 e1] c1].
    by apply kept_follows.
  - unfold destroy.
    destruct (match batchQueue m with Some _ => _ | None => _ end) as [window1 wire1].
    destruct (RingBuffer.clear (breadcrumbs m) (arrays e)) as [ring arrays1].
    unfold follows. cbn [fst snd batchQueue offlineCache disk].
    repeat split; try done.
    + intros _. by right.
    + intros _. destruct (offlineCache m) as [oc|]; [|done].
      unfold OfflineCache.destroy. by rewrite OfflineCacheFacts.saveToStorage_heap.
  - destruct (on_queue_frame m e
                (BatchQueue.fire (sendBatchToServer host (config m)) id)
                (λ bq we w, BatchQueueFacts.fire_config _ id bq we w)) as [Hk _].
    by apply kept_follows.
  - destruct (on_queue_frame m e
                (BatchQueue.flush (sendBatchToServer host (config m)))
                (λ bq we w, BatchQueueFacts.flush_config _ bq we w)) as [Hk _].
    by apply kept_follows.
  - unfold on_store. destruct (offlineCache m) as [oc|] eqn:Eoc.
    + pose proof (OfflineCacheFacts.flush_heap_length
                    (sendToServerDirectly host (config m))
                    (OfflineCache.mk (OfflineCache.config oc) (OfflineCache.cacheQueue oc) true)
                    (disk e) (wire e)) as Hlen.
      unfold OfflineCache.handleOnline.
      destruct (OfflineCache.flush _ _ (disk e) (wire e)) as [[oc1 disk1] wire1].
      unfold follows. cbn [fst snd batchQueue offlineCache disk] in *.
      repeat split; try done; eauto; congruence.
    + destruct (detached e) as [oc|]; [|cbn [fst snd]; apply kept_follows, kept_refl].
      pose proof (OfflineCacheFacts.flush_heap_length
                    (sendToServerDirectly host (config m))
                    (OfflineCache.mk (OfflineCache.config oc) (OfflineCache.cacheQueue oc) true)
                    (disk e) (wire e)) as Hlen.
      unfold OfflineCache.handleOnline.
      destruct (OfflineCache.flush _ _ (disk e) (wire e)) as [[oc1 disk1] wire1].
      unfold follows. cbn [fst snd batchQueue offlineCache disk] in *.
      repeat split; try done; eauto.
  - unfold on_store. destruct (offlineCache m) as [oc|] eqn:Eoc.
    + unfold follows. cbn [fst snd batchQueue offlineCache disk] in *.
      repeat split; try done; eauto; congruence.
    + destruct (detached e) as [oc|]; [|cbn [fst snd]; apply kept_follows, kept_refl].
      unfold follows. cbn [fst snd batchQueue offlineCache disk] in *.
      repeat split; try done; eauto.
Qed.

End Runs.

Section Invariants.

Variable host : Host.t.

Implicit Types (m : t) (e : env).

(** *** The ring holds the trail *)

Lemma trail_app l acts1 acts2 : trail l (acts1 ++ acts2) = trail (trail l acts1) acts2.
Proof. unfold trail. by rewrite foldl_app. Qed.

Lemma crumbs_kept_snapshot l m e m' e' :
  breadcrumbs m' = breadcrumbs m →
  arrays e' = arrays e ∨ (∃ x, arrays e' = arrays e ++ [x]) →
  crumbs_kept l m e → crumbs_kept l m' e'.
Proof.
  unfold crumbs_kept. intros -> [->| [x ->]] H; [done|].
  by apply RingBufferFacts.represents_app.
Qed.

Lemma act_step_crumbs a m e log l :
  crumbs_kept l m e →
  crumbs_kept (trail l [a]) (act_step host a (m, e, log)).1.1
              (act_step host a (m, e, log)).1.2.
Proof.
  intros H.
  destruct a as [c|updates|pattern|rate|rate|user]; cbn [act_step fst snd trail foldl];
    try exact H.
  destruct c as [|p| | |now crumb|d err options|d message stack options
                 |d message level options|now data| |id| | |]; cbn [api_step].
  - unfold init. by destruct (isInitialized m).
  - exact H.
  - exact H.
  - exact H.
  - unfold addBreadcrumb. fold (stamp now crumb).
    pose proof (RingBufferFacts.push_represents BREADCRUMBS_MAX_SIZE (breadcrumbs m)
                  (arrays e) _ (stamp now crumb) ltac:(unfold BREADCRUMBS_MAX_SIZE; lia) H)
      as H'.
    rewrite RingBufferFacts.retain_last_n in H' by (unfold BREADCRUMBS_MAX_SIZE; lia).
    by destruct (RingBuffer.push (breadcrumbs m) (stamp now crumb) (arrays e)).
  - destruct (capture_frame host d err options m e) as [(_ & Hb & _) Ha].
    destruct (capture host d err options m e) as [[[m1 e1] c1] f1].
    by apply (crumbs_kept_snapshot l m e).
  - unfold captureError.
    destruct (capture_frame host d (AnError message stack) options m e) as [(_ & Hb & _) Ha].
    destruct (capture host d _ options m e) as [[[m1 e1] c1] f1].
    by apply (crumbs_kept_snapshot l m e).
  - unfold captureMessage.
    match goal with
    | |- context [capture host d ?r ?o m e] =>
        destruct (capture_frame host d r o m e) as [(_ & Hb & _) Ha];
        destruct (capture host d r o m e) as [[[m1 e1] c1] f1]
    end.
    by apply (crumbs_kept_snapshot l m e).
  - destruct (report_frame host now data m e) as [(_ & Hb & _) Ha].
    destruct (report host now data m e) as [[m1 e1] c1].
    apply (crumbs_kept_snapshot l m e); auto.
  - unfold destroy.
    destruct (match batchQueue m with Some _ => _ | None => _ end) as [window1 wire1].
    pose proof (RingBufferFacts.clear_represents BREADCRUMBS_MAX_SIZE (breadcrumbs m)
                  (arrays e) ltac:(unfold BREADCRUMBS_MAX_SIZE; lia)) as H'.
    destruct H as (Hc & _). specialize (H' Hc).
    by destruct (RingBuffer.clear (breadcrumbs m) (arrays e)) as [ring arrays1].
  - destruct (on_queue_frame m e
                (BatchQueue.fire (sendBatchToServer host (config m)) id)
                (λ bq we w, BatchQueueFacts.fire_config _ id bq we w))
      as [(_ & Hb & _) Ha].
    apply (crumbs_kept_snapshot l m e); auto.
  - destruct (on_queue_frame m e
                (BatchQueue.flush (sendBatchToServer host (config m)))
                (λ bq we w, BatchQueueFacts.flush_config _ bq we w))
      as [(_ & Hb & _) Ha].
    apply (crumbs_kept_snapshot l m e); auto.
  - match goal with
    | |- context [on_store m e ?f] =>
        destruct (on_store_frame m e f) as (_ & Hb & Ha & _)
    end.
    apply (crumbs_kept_snapshot l m e); auto.
  - match goal with
    | |- context [on_store m e ?f] =>
        destruct (on_store_frame m e f) as (_ & Hb & Ha & _)
    end.
    apply (crumbs_kept_snapshot l m e); auto.
Qed.

Lemma act_run_crumbs acts : ∀ m e log l,
  crumbs_kept l m e →
  crumbs_kept (trail l acts) (act_run host acts (m, e, log)).1.1
              (act_run host acts (m, e, log)).1.2.
Proof.
  induction acts as [|a acts IH] using rev_ind; intros m e log l H; [done|].
  rewrite act_run_snoc, trail_app.
  specialize (IH m e log l H).
  destruct (act_run host acts (m, e, log)) as [[m1 e1] log1].
  by apply act_step_crumbs.
Qed.

Lemma new_crumbs input session e0 :
  crumbs_kept [] (new host input session e0).1 (new host input session e0).2.
Proof.
  unfold new, crumbs_kept.
  pose proof (RingBufferFacts.new_represents BREADCRUMBS_MAX_SIZE (arrays e0)
                ltac:(unfold BREADCRUMBS_MAX_SIZE; lia)) as H.
  destruct (RingBuffer.new BREADCRUMBS_MAX_SIZE (arrays e0)) as [ring arrays1].
  by destruct (OfflineCache.new _ _ (disk e0)).
Qed.

(** *** The plain array of the earlier monitor *)

Lemma addBreadcrumb_array_retain now crumb (l : list Breadcrumb.t) :
  length l ≤ maxBreadcrumbs →
  addBreadcrumb_array now crumb l = RingBuffer.retain maxBreadcrumbs l (stamp now crumb).
Proof.
  intros Hl. unfold addBreadcrumb_array, RingBuffer.retain.
  rewrite length_app. simpl.
  destruct (decide (length l < maxBreadcrumbs)).
  - by rewrite decide_False by lia.
  - rewrite decide_True by lia.
    destruct l as [|x l]; [unfold maxBreadcrumbs in *; simpl in *; lia|done].
Qed.

Lemma addBreadcrumb_array_all (crumbs : list (nat * Breadcrumb.t)) : ∀ done,
  foldl (λ l x, addBreadcrumb_array x.1 x.2 l)
        (RingBuffer.last_n maxBreadcrumbs done) crumbs
  = RingBuffer.last_n maxBreadcrumbs (done ++ ((λ x, stamp x.1 x.2) <$> crumbs)).
Proof.
  induction crumbs as [|x crumbs IH]; intros done; cbn [foldl fmap list_fmap].
  - by rewrite app_nil_r.
  - rewrite addBreadcrumb_array_retain
      by (rewrite RingBufferFacts.length_last_n; lia).
    rewrite RingBufferFacts.retain_last_n by (unfold maxBreadcrumbs; lia).
    rewrite IH. by rewrite <- app_assoc.
Qed.

Lemma trail_adds (crumbs : list (nat * Breadcrumb.t)) : ∀ l,
  trail l ((λ x, Call (AddBreadcrumb x.1 x.2)) <$> crumbs)
  = l ++ ((λ x, stamp x.1 x.2) <$> crumbs).
Proof.
  induction crumbs as [|x crumbs IH]; intros l; cbn [fmap list_fmap].
  - by rewrite app_nil_r.
  - unfold trail in *. cbn [foldl]. rewrite IH. by rewrite <- app_assoc.
Qed.

(** *** Queue and store over a run *)

Lemma follows_refl m e : follows m e m e.
Proof. apply kept_follows, kept_refl. Qed.

Lemma follows_trans m e m1 e1 m2 e2 :
  follows m e m1 e1 → follows m1 e1 m2 e2 → follows m e m2 e2.
Proof.
  intros (Hq1 & Hn1 & Hs1 & Hh1) (Hq2 & Hn2 & Hs2 & Hh2). unfold follows.
  split; [|split; [|split]].
  - intros bq2 Hbq2. destruct (Hq2 bq2 Hbq2) as (bq1 & Hbq1 & Hc2).
    destruct (Hq1 bq1 Hbq1) as (bq & Hbq & Hc1). exists bq. split; [done|]. congruence.
  - intros Hnone. destruct (Hn2 Hnone) as [H1|H2]; [|by right].
    destruct (Hn1 H1) as [H0|H0]; [by left|]. right. by apply Hs2.
  - intros H. by apply Hs2, Hs1.
  - intros H. rewrite Hh2, Hh1; [done|done|].
    destruct H as [H|H]; [|right; by apply Hs1].
    destruct (batchQueue m1) as [bq1|] eqn:E1; [by left|].
    destruct (Hn1 eq_refl) as [H0|H0]; [done|by right].
Qed.

Lemma act_run_follows acts : ∀ m e log,
  follows m e (act_run host acts (m, e, log)).1.1 (act_run host acts (m, e, log)).1.2.
Proof.
  induction acts as [|a acts IH] using rev_ind; intros m e log.
  - apply follows_refl.
  - rewrite act_run_snoc. specialize (IH m e log).
    destruct (act_run host acts (m, e, log)) as [[m1 e1] log1].
    eapply follows_trans; [exact IH|]. apply act_step_follows.
Qed.

(** *** The channel *)

Lemma channel_ext cfg cfg0 ev :
  Config.report cfg = Config.report cfg0 → Config.dsn cfg = Config.dsn cfg0 →
  channel host cfg ev → channel host cfg0 ev.
Proof. unfold channel. by intros -> ->. Qed.

Lemma on_channel_snoc cfg w0 w ev :
  on_channel host cfg w0 w → channel host cfg ev → on_channel host cfg w0 (w ++ [ev]).
Proof.
  intros (sent & -> & Hall) Hev. exists (sent ++ [ev]).
  rewrite app_assoc. split; [done|]. apply Forall_app. split; [done|].
  by apply Forall_singleton.
Qed.

Lemma send_payload_channel cfg cfg0 w0 p w :
  Config.report cfg = Config.report cfg0 → Config.dsn cfg = Config.dsn cfg0 →
  on_channel host cfg0 w0 w → on_channel host cfg0 w0 (send_payload host cfg p w).1.
Proof.
  intros Hr Hd Hw. unfold send_payload.
  destruct (Config.report cfg ≫= ReportConfig.customReporter) as [reporter|] eqn:Er.
  - cbn [fst]. apply on_channel_snoc; [done|].
    apply (channel_ext cfg); [done..|]. unfold channel. rewrite Er. eauto.
  - unfold default_send.
    destruct (Host.navigator host) as [nav|] eqn:En; [|done].
    destruct (Navigator.sendBeacon nav) as [beacon|] eqn:Eb.
    + cbn [fst]. apply on_channel_snoc; [done|].
      apply (channel_ext cfg); [done..|]. unfold channel. rewrite Er, En, Eb. eauto.
    + destruct (Host.fetch_defined host) eqn:Ef; [|done].
      cbn [fst]. apply on_channel_snoc; [done|].
      apply (channel_ext cfg); [done..|]. unfold channel. rewrite Er, En, Eb. eauto.
Qed.

Lemma report_channel cfg0 w0 now data m e :
  sends_by host cfg0 w0 m e →
  sends_by host cfg0 w0 (report host now data m e).1.1 (report host now data m e).1.2.
Proof.
  intros (Hr & Hd & Hw).
  destruct (report_frame host now data m e) as [(Hc & _) _].
  unfold sends_by. rewrite Hc. split; [done|]. split; [done|].
  unfold report.
  destruct (beforeReport_loop (plugins m) data SameObject) as [processed|]; [|done].
  destruct (batchQueue m) as [bq|].
  - pose proof (BatchQueueFacts.add_world (sendBatchToServer host (config m))
                  (on_channel host cfg0 w0)
                  (λ reports w, send_payload_channel (config m) cfg0 w0 (Batch reports) w Hr Hd)
                  now processed bq (window e) (wire e) Hw) as H.
    by destruct (BatchQueue.add _ now processed bq (window e) (wire e)) as [[[? ?] ?] ?].
  - unfold sendToServer. destruct (offlineCache m) as [oc|].
    + pose proof (OfflineCacheFacts.send_world (sendToServerDirectly host (config m))
                    (on_channel host cfg0 w0)
                    (λ r w, send_payload_channel (config m) cfg0 w0 (Single r) w Hr Hd)
                    now processed oc (disk e) (wire e) Hw) as H.
      by destruct (OfflineCache.send _ now processed oc (disk e) (wire e)) as [[[? ?] ?] ?].
    + pose proof (send_payload_channel (config m) cfg0 w0 (Single processed) (wire e)
                    Hr Hd Hw) as H.
      unfold sendToServerDirectly.
      by destruct (send_payload host (config m) (Single processed) (wire e)).
Qed.

Lemma capture_channel cfg0 w0 d err options m e :
  sends_by host cfg0 w0 m e →
  sends_by host cfg0 w0 (capture host d err options m e).1.1.1
           (capture host d err options m e).1.1.2.
Proof.
  intros H. unfold capture.
  destruct (negb (isInitialized m)); [done|].
  case_decide; [done|].
  destruct (filter_check _ _ _ _) as [[|] regexps1]; [done|].
  destruct (_ && _); [done|].
  destruct (beforeCapture_loop _ _ _) as [| |processed]; [done..|].
  destruct (user_missing _); [done|].
  destruct (afterCapture_loop _ _) as [rep1|]; [|done].
  match goal with
  | |- context [report host ?n ?r ?m ?e1] =>
      pose proof (report_channel cfg0 w0 n r m e1 H) as H';
      destruct (report host n r m e1) as [[m2 e2] c2]
  end.
  exact H'.
Qed.

Lemma api_step_channel cfg0 w0 c m e log :
  sends_by host cfg0 w0 m e →
  sends_by host cfg0 w0 (api_step host c (m, e, log)).1.1 (api_step host c (m, e, log)).1.2.
Proof.
  intros H. pose proof H as (Hr & Hd & Hw).
  destruct c as [|p| | |now crumb|d err options|d message stack options
                 |d message level options|now data| |id| | |]; cbn [api_step].
  - unfold init. by destruct (isInitialized m).
  - exact H.
  - exact H.
  - exact H.
  - unfold addBreadcrumb.
    by destruct (RingBuffer.push (breadcrumbs m) _ (arrays e)).
  - pose proof (capture_channel cfg0 w0 d err options m e H) as H'.
    by destruct (capture host d err options m e) as [[[m1 e1] c1] f1].
  - unfold captureError.
    pose proof (capture_channel cfg0 w0 d (AnError message stack) options m e H) as H'.
    by destruct (capture host d _ options m e) as [[[m1 e1] c1] f1].
  - unfold captureMessage.
    match goal with
    | |- context [capture host d ?r ?o m e] =>
        pose proof (capture_channel cfg0 w0 d r o m e H) as H';
        destruct (capture host d r o m e) as [[[m1 e1] c1] f1]
    end.
    exact H'.
  - pose proof (report_channel cfg0 w0 now data m e H) as H'.
    by destruct (report host now data m e) as [[m1 e1] c1].
  - unfold destroy, sends_by.
    destruct (batchQueue m) as [bq|].
    + pose proof (BatchQueueFacts.queue_flush_world (sendBatchToServer host (config m))
                    (on_channel host cfg0 w0)
                    (λ reports w, send_payload_channel (config m) cfg0 w0 (Batch reports) w Hr Hd)
                    bq (window e) (wire e) Hw) as H'.
      unfold BatchQueue.destroy.
      destruct (BatchQueue.flush _ bq (window e) (wire e)) as [[? ?] ?].
      by destruct (RingBuffer.clear (breadcrumbs m) (arrays e)).
    + by destruct (RingBuffer.clear (breadcrumbs m) (arrays e)).
  - unfold on_queue, sends_by. destruct (batchQueue m) as [bq|]; [|done].
    pose proof (BatchQueueFacts.fire_world (sendBatchToServer host (config m))
                  (on_channel host cfg0 w0)
                  (λ reports w, send_payload_channel (config m) cfg0 w0 (Batch reports) w Hr Hd)
                  id bq (window e) (wire e) Hw) as H'.
    by destruct (BatchQueue.fire _ id bq (window e) (wire e)) as [[? ?] ?].
  - unfold on_queue, sends_by. destruct (batchQueue m) as [bq|]; [|done].
    pose proof (BatchQueueFacts.queue_flush_world (sendBatchToServer host (config m))
                  (on_channel host cfg0 w0)
                  (λ reports w, send_payload_channel (config m) cfg0 w0 (Batch reports) w Hr Hd)
                  bq (window e) (wire e) Hw) as H'.
    by destruct (BatchQueue.flush _ bq (window e) (wire e)) as [[? ?] ?].
  - unfold on_store, sends_by.
    destruct (offlineCache m) as [oc|]; [|destruct (detached e) as [oc|]; [|done]];
      (unfold OfflineCache.handleOnline;
       match goal with
       | |- context [OfflineCache.flush ?s ?c (disk e) (wire e)] =>
           pose proof (OfflineCacheFacts.store_flush_world s (on_channel host cfg0 w0)
                         (λ r w, send_payload_channel (config m) cfg0 w0 (Single r) w Hr Hd)
                         c (disk e) (wire e) Hw) as H';
           destruct (OfflineCache.flush s c (disk e) (wire e)) as [[? ?] ?]
       end; done).
  - unfold on_store, sends_by.
    destruct (offlineCache m) as [oc|]; [done|]. by destruct (detached e).
Qed.

Lemma api_run_channel cfg0 w0 calls : ∀ m e log,
  sends_by host cfg0 w0 m e →
  sends_by host cfg0 w0 (api_run host calls (m, e, log)).1.1
           (api_run host calls (m, e, log)).1.2.
Proof.
  induction calls as [|c calls IH] using rev_ind; intros m e log H; [done|].
  rewrite api_run_snoc. specialize (IH m e log H).
  destruct (api_run host calls (m, e, log)) as [[m1 e1] log1].
  by apply api_step_channel.
Qed.

Lemma new_frame input session e0 :
  wire (new host input session e0).2 = wire e0
  ∧ (∀ bq, batchQueue (new host input session e0).1 = Some bq →
       BatchQueue.enabled (BatchQueue.config bq) = true
       ∧ 0 < BatchQueue.batchSize (BatchQueue.config bq)
       ∧ 0 < BatchQueue.delay (BatchQueue.config bq))
  ∧ (ConfigInput.report input ≠ Present None →
     batchQueue (new host input session e0).1 ≠ None).
Proof.
  unfold new.
  destruct (RingBuffer.new BREADCRUMBS_MAX_SIZE (arrays e0)) as [ring arrays1].
  destruct (OfflineCache.new _ _ (disk e0)) as [oc disk1].
  cbn [fst snd wire batchQueue Config.report].
  split; [done|]. split.
  - intros bq Hbq.
    destruct (spread_prop _ (ConfigInput.report input)) as [rc|]; [|done].
    inversion Hbq; subst. cbn.
    assert (∀ x d, 0 < d → 0 < (if decide (or_default x d = 0) then 10 else or_default x d))
      as Hpos.
    { intros x d Hd. case_decide; [lia|]. lia. }
    split; [done|]. split.
    + unfold REPORTING_DEFAULT_BATCH_SIZE. case_decide; lia.
    + unfold REPORTING_DEFAULT_DELAY. case_decide; lia.
  - intros Hin. destruct (ConfigInput.report input) as [|[rc|]]; done.
Qed.

End Invariants.



(** X17.  The breadcrumb array of the earlier monitor, cut back with
    [shift], and the ring of the present one hold the same breadcrumbs
    after the same [addBreadcrumb] calls. *)
Theorem array_and_ring_agree (host : Host.t) (input : ConfigInput.t)
    (session : string) (e0 : env) (crumbs : list (nat * Breadcrumb.t)) :
  let s0 := new host input session e0 in
  let s := act_run host ((λ x, Call (AddBreadcrumb x.1 x.2)) <$> crumbs) (s0.1, s0.2, []) in
  RingBuffer.toArray_items (breadcrumbs s.1.1) (arrays s.1.2)
  = foldl (λ l x, addBreadcrumb_array x.1 x.2 l) [] crumbs.
Proof.
  intros s0 s.
  pose proof (act_run_crumbs host ((λ x, Call (AddBreadcrumb x.1 x.2)) <$> crumbs)
                s0.1 s0.2 [] [] (new_crumbs host input session e0)) as H.
  fold s in H.
  rewrite (RingBufferFacts.toArray_items_represents BREADCRUMBS_MAX_SIZE _ _ _
             ltac:(unfold BREADCRUMBS_MAX_SIZE; lia) H).
  rewrite trail_adds.
  exact (eq_sym (addBreadcrumb_array_all crumbs [])).
Qed.

(** X18.  The batch size and the delay of the monitor's queue are fixed
    when the monitor is constructed: whatever is done afterwards,
    [updateConfig] with another [report] included, the queue keeps the
    configuration it was made with, batching enabled, with a positive
    batch size and a positive delay. *)
Theorem queue_config_is_fixed (host : Host.t) (input : ConfigInput.t)
    (session : string) (e0 : env) (acts : list action) :
  let s0 := new host input session e0 in
  let s := act_run host acts (s0.1, s0.2, []) in
  ∀ bq, batchQueue s.1.1 = Some bq →
    ∃ bq0, batchQueue s0.1 = Some bq0
           ∧ BatchQueue.config bq = BatchQueue.config bq0
           ∧ BatchQueue.enabled (BatchQueue.config bq) = true
           ∧ 0 < BatchQueue.batchSize (BatchQueue.config bq)
           ∧ 0 < BatchQueue.delay (BatchQueue.config bq).
Proof.
  intros s0 s bq Hbq.
  destruct (act_run_follows host acts s0.1 s0.2 []) as (Hq & _).
  destruct (Hq bq Hbq) as (bq0 & Hbq0 & Hc).
  exists bq0. split; [done|]. split; [done|]. rewrite Hc.
  destruct (new_frame host input session e0) as (_ & Hnew & _).
  by apply Hnew.
Qed.

(** X19.  A monitor constructed with a [report] configuration (the
    default has one) never puts a report in the offline store,
    whatever is done with it and whether the page is online or not: no
    cached report is created. *)
Theorem batching_bypasses_store (host : Host.t) (input : ConfigInput.t)
    (session : string) (e0 : env) (acts : list action) :
  ConfigInput.report input ≠ Present None →
  let s0 := new host input session e0 in
  let s := act_run host acts (s0.1, s0.2, []) in
  length (OfflineCache.heap (disk s.1.2)) = length (OfflineCache.heap (disk s0.2)).
Proof.
  intros Hin s0 s.
  destruct (act_run_follows host acts s0.1 s0.2 []) as (_ & _ & _ & Hh).
  apply Hh. left.
  destruct (new_frame host input session e0) as (_ & _ & Hq). by apply Hq.
Qed.

(** X20.  What a monitor sends leaves by one way, fixed by the host and
    by the configuration in force when it is sent: the custom reporter
    when one is configured, else [sendBeacon] to the [dsn], else
    [fetch] to the [dsn]; where [navigator] is undefined and no custom
    reporter is configured nothing is sent.  The constructor sends
    nothing, and whatever was done since, calls, signals and changes of
    the configuration, what the next one puts on the wire goes that
    way. *)
Theorem one_way_out (host : Host.t) (input : ConfigInput.t)
    (session : string) (e0 : env) (acts : list action) (a : action) :
  let s0 := new host input session e0 in
  let s := act_run host acts (s0.1, s0.2, []) in
  let s' := act_step host a s in
  wire s0.2 = wire e0
  ∧ ∃ sent, wire s'.1.2 = wire s.1.2 ++ sent
            ∧ Forall (channel host (config s.1.1)) sent.
Proof.
  intros s0 s s'. split; [apply (new_frame host input session e0)|].
  unfold s'. clearbody s. clear s' s0. destruct s as [[m e] log].
  assert (Hnone : ∃ sent, wire e = wire e ++ sent ∧ Forall (channel host (config m)) sent).
  { exists []. by rewrite app_nil_r. }
  destruct a as [c|updates|pattern|rate|rate|user]; cbn [act_step fst snd];
    try exact Hnone.
  destruct (api_step_channel host (config m) (wire e) c m e log) as (_ & _ & H);
    [|exact H].
  split; [done|]. split; [done|]. exact Hnone.
Qed.

Section Delivery.

Variable host : Host.t.

Implicit Types (m : t) (e : env).

Lemma beforeReport_loop_none (ps : list Plugin.t) data processed :
  Forall (λ p, Plugin.beforeReport p = None) ps →
  beforeReport_loop ps data processed = Some (resolve data processed).
Proof.
  induction 1 as [|p ps Hp _ IH]; [done|]. cbn [beforeReport_loop]. by rewrite Hp.
Qed.

Lemma reported_snoc log c f :
  reported (log ++ [(c, f)])
  = reported log ++ match f with Some (Reported r) => [r] | _ => [] end.
Proof. unfold reported. rewrite omap_app. by destruct f as [[]|]. Qed.

Lemma report_delivers now data m e bq :
  Forall (λ p, Plugin.beforeReport p = None) (plugins m) →
  batchQueue m = Some bq → BatchQueue.enabled (BatchQueue.config bq) = true →
  let r := report host now data m e in
  plugins r.1.1 = plugins m
  ∧ ∃ bq', batchQueue r.1.1 = Some bq'
           ∧ BatchQueue.enabled (BatchQueue.config bq') = true
           ∧ BatchQueue.accepted bq' (window r.1.2)
             = BatchQueue.accepted bq (window e) ++ [data].
Proof.
  intros Hps Hbq Hen. unfold report. cbv zeta.
  rewrite beforeReport_loop_none by done. cbn [resolve]. rewrite Hbq.
  pose proof (BatchQueueFacts.add_config (sendBatchToServer host (config m)) now
                data bq (window e) (wire e)) as Hc.
  destruct (BatchQueueFacts.step_accounts (sendBatchToServer host (config m))
              (BatchQueue.Add now data) bq (window e) (wire e) eq_refl)
    as [_ Ha].
  { intros E. congruence. }
  cbn [BatchQueue.step BatchQueue.added omap list_omap] in Ha.
  destruct (BatchQueue.add _ now data bq (window e) (wire e)) as [[[bq1 w1] wire1] c1].
  cbn [fst snd plugins batchQueue window] in *.
  split; [done|]. exists bq1. split; [done|]. split; [by rewrite Hc|exact Ha].
Qed.

Lemma capture_delivers d err options m e bq :
  Forall (λ p, Plugin.beforeReport p = None) (plugins m) →
  batchQueue m = Some bq → BatchQueue.enabled (BatchQueue.config bq) = true →
  let r := capture host d err options m e in
  plugins r.1.1.1 = plugins m
  ∧ ∃ bq', batchQueue r.1.1.1 = Some bq'
           ∧ BatchQueue.enabled (BatchQueue.config bq') = true
           ∧ BatchQueue.accepted bq' (window r.1.1.2)
             = BatchQueue.accepted bq (window e)
               ++ match r.2 with Reported x => [x] | _ => [] end.
Proof.
  intros Hps Hbq Hen.
  assert (Hsame : ∀ e1, window e1 = window e →
            plugins m = plugins m
            ∧ ∃ bq', batchQueue m = Some bq'
                     ∧ BatchQueue.enabled (BatchQueue.config bq') = true
                     ∧ BatchQueue.accepted bq' (window e1)
                       = BatchQueue.accepted bq (window e) ++ []).
  { intros e1 ->. split; [done|]. exists bq. by rewrite app_nil_r. }
  unfold capture. cbv zeta.
  destruct (negb (isInitialized m)); [by apply Hsame|].
  case_decide; [by apply Hsame|].
  destruct (filter_check _ _ _ _) as [[|] regexps1]; [by apply Hsame|].
  destruct (_ && _); [by apply Hsame|].
  destruct (beforeCapture_loop _ _ _) as [| |processed]; [by apply Hsame..|].
  destruct (user_missing _); [by apply Hsame|].
  destruct (afterCapture_loop _ _) as [rep1|]; [|by apply Hsame].
  match goal with
  | |- context [report host ?n ?r ?m ?e1] =>
      destruct (report_delivers n r m e1 bq Hps Hbq Hen) as [Hp Hd];
      destruct (report host n r m e1) as [[m2 e2] c2]
  end.
  cbn [fst snd window] in *. split; [done|exact Hd].
Qed.

Lemma on_queue_delivers m e bq f :
  batchQueue m = Some bq → BatchQueue.enabled (BatchQueue.config bq) = true →
  (∀ we w, BatchQueue.config (f bq we w).1.1 = BatchQueue.config bq
           ∧ BatchQueue.accepted (f bq we w).1.1 (f bq we w).1.2
             = BatchQueue.accepted bq we) →
  let r := on_queue m e f in
  plugins r.1 = plugins m
  ∧ ∃ bq', batchQueue r.1 = Some bq'
           ∧ BatchQueue.enabled (BatchQueue.config bq') = true
           ∧ BatchQueue.accepted bq' (window r.2) = BatchQueue.accepted bq (window e).
Proof.
  intros Hbq Hen Hf. unfold on_queue. cbv zeta. rewrite Hbq.
  destruct (Hf (window e) (wire e)) as [Hc Ha].
  destruct (f bq (window e) (wire e)) as [[bq1 w1] wire1].
  cbn [fst snd plugins batchQueue window] in *.
  split; [done|]. exists bq1. split; [done|]. split; [by rewrite Hc|exact Ha].
Qed.

Lemma api_step_delivers base c (s : t * env * list seen) :
  calm c = true → delivering base s → delivering base (api_step host c s).
Proof.
  destruct s as [[m e] log]. intros Hcalm (Hps & bq & Hbq & Hen & Ha).
  cbn [fst snd] in *. unfold delivering.
  destruct c as [|p| | |now crumb|d err options|d message stack options
                 |d message level options|now data| |id| | |];
    cbn [api_step]; try done.
  - unfold init. destruct (isInitialized m); cbn [fst snd plugins batchQueue]; eauto.
  - cbn [fst snd use plugins batchQueue]. split; [|eauto].
    apply Forall_app. split; [done|]. apply Forall_singleton.
    simpl in Hcalm. by destruct (Plugin.beforeReport p).
  - cbn [fst snd]. split; [done|]. eauto.
  - cbn [fst snd]. split; [done|]. eauto.
  - unfold addBreadcrumb.
    destruct (RingBuffer.push (breadcrumbs m) _ (arrays e)) as [ring arrays1].
    cbn [fst snd plugins batchQueue window]. split; [done|]. eauto.
  - destruct (capture_delivers d err options m e bq Hps Hbq Hen) as (Hp & bq' & ? & ? & Ha').
    destruct (capture host d err options m e) as [[[m1 e1] c1] f1].
    cbn [fst snd] in *. rewrite Hp. split; [done|]. exists bq'.
    rewrite reported_snoc, Ha', Ha, <- app_assoc. repeat split; try done.
  - unfold captureError.
    destruct (capture_delivers d (AnError message stack) options m e bq Hps Hbq Hen)
      as (Hp & bq' & ? & ? & Ha').
    destruct (capture host d _ options m e) as [[[m1 e1] c1] f1].
    cbn [fst snd] in *. rewrite Hp. split; [done|]. exists bq'.
    rewrite reported_snoc, Ha', Ha, <- app_assoc. repeat split; try done.
  - unfold captureMessage.
    match goal with
    | |- context [capture host d ?r ?o m e] =>
        destruct (capture_delivers d r o m e bq Hps Hbq Hen) as (Hp & bq' & ? & ? & Ha');
        destruct (capture host d r o m e) as [[[m1 e1] c1] f1]
    end.
    cbn [fst snd] in *. rewrite Hp. split; [done|]. exists bq'.
    rewrite reported_snoc, Ha', Ha, <- app_assoc. repeat split; try done.
  - destruct (on_queue_delivers m e bq
                (BatchQueue.fire (sendBatchToServer host (config m)) id) Hbq Hen)
      as (Hp & bq' & ? & ? & Ha').
    { intros we w.
      destruct (BatchQueueFacts.fire_facts (sendBatchToServer host (config m)) id bq we w)
        as (Hc & Hacc & _). by split. }
    destruct (on_queue m e _) as [m1 e1]. cbn [fst snd] in *.
    rewrite Hp. split; [done|]. exists bq'. rewrite Ha', Ha. by repeat split.
  - destruct (on_queue_delivers m e bq
                (BatchQueue.flush (sendBatchToServer host (config m))) Hbq Hen)
      as (Hp & bq' & ? & ? & Ha').
    { intros we w.
      destruct (BatchQueueFacts.flush_facts (sendBatchToServer host (config m)) bq we w)
        as (_ & Hc & _ & Hacc & _). by split. }
    destruct (on_queue m e _) as [m1 e1]. cbn [fst snd] in *.
    rewrite Hp. split; [done|]. exists bq'. rewrite Ha', Ha. by repeat split.
  - unfold on_store.
    destruct (offlineCache m) as [oc|]; [|destruct (detached e) as [oc|]];
      try destruct (OfflineCache.handleOnline _ oc (disk e) (wire e)) as [[? ?] ?];
      cbn [fst snd plugins batchQueue window]; (split; [done|]); eauto.
  - unfold on_store.
    destruct (offlineCache m) as [oc|]; [|destruct (detached e) as [oc|]];
      cbn [fst snd plugins batchQueue window]; (split; [done|]); eauto.
Qed.

Lemma api_run_delivers base calls : ∀ s : t * env * list seen,
  forallb calm calls = true → delivering base s →
  delivering base (api_run host calls s).
Proof.
  induction calls as [|c calls IH] using rev_ind; intros s Hcalm H; [done|].
  rewrite forallb_app in Hcalm. apply andb_true_iff in Hcalm as [H1 H2].
  simpl in H2. rewrite andb_true_r in H2.
  rewrite api_run_snoc. apply api_step_delivers; [done|]. by apply IH.
Qed.

Lemma new_delivering input session e0 :
  ConfigInput.report input ≠ Present None →
  delivering (concat (BatchQueue.calls (window e0)))
    ((new host input session e0).1, (new host input session e0).2, []).
Proof.
  intros Hin. unfold new, delivering.
  destruct (RingBuffer.new BREADCRUMBS_MAX_SIZE (arrays e0)) as [ring arrays1].
  destruct (OfflineCache.new _ _ (disk e0)) as [oc disk1].
  cbn [fst snd plugins batchQueue window Config.report].
  split; [done|].
  destruct (ConfigInput.report input) as [|[rc|]]; [| |done];
    cbn [spread_prop]; eexists; (split; [reflexivity|]); split; try done;
    unfold BatchQueue.accepted; simpl; by rewrite !app_nil_r.
Qed.

End Delivery.


(** X21.  On a monitor constructed with a [report] configuration, as
    long as it is not destroyed, [report] is not called directly and no
    plugin has a [beforeReport] hook, the reports handed to the batch
    sender, batch after batch, followed by the reports waiting in the
    queue are exactly the reports the captures built, in the order of
    the captures: none is lost, none is handed over twice. *)
Theorem captured_reports_reach_sender (host : Host.t) (input : ConfigInput.t)
    (session : string) (e0 : env) (calls : list call) :
  ConfigInput.report input ≠ Present None →
  forallb calm calls = true →
  let s0 := new host input session e0 in
  let s := api_run host calls (s0.1, s0.2, []) in
  ∃ bq, batchQueue s.1.1 = Some bq
        ∧ concat (BatchQueue.calls (window s.1.2))
          ++ (BatchQueue.report <$> BatchQueue.queue bq)
          = concat (BatchQueue.calls (window e0)) ++ reported s.2.
Proof.
  intros Hin Hcalm s0 s.
  destruct (api_run_delivers host (concat (BatchQueue.calls (window e0))) calls
              (s0.1, s0.2, []) Hcalm (new_delivering host input session e0 Hin))
    as (_ & bq & Hbq & _ & Ha).
  exists bq. split; [exact Hbq|exact Ha].
Qed.

Lemma captured_reports_reach_sender_witness :
  let s0 := new browser minimal_input "s" fresh_env in
  let s := api_run browser
             [Init; Capture draw (AnError "a" None) None; Disable;
              Capture draw (AnError "b" None) None; Enable;
              Capture draw (AnError "c" None) None; PageHide;
              Capture draw (AnError "d" None) None]
             (s0.1, s0.2, []) in
  ∃ bq, batchQueue s.1.1 = Some bq
        ∧ concat (BatchQueue.calls (window s.1.2))
          ++ (BatchQueue.report <$> BatchQueue.queue bq)
          = concat (BatchQueue.calls (window fresh_env)) ++ reported s.2.
Proof.
  apply (captured_reports_reach_sender browser minimal_input "s" fresh_env);
    [discriminate|reflexivity].
Defined.

Lemma queue_config_is_fixed_witness :
  let s0 := new browser minimal_input "s" fresh_env in
  let updates :=
    ConfigUpdate.mk None None Absent Absent Absent Absent Absent
      (Present (Some (ReportConfig.mk (Some 5) (Some 1) None))) Absent Absent in
  let s := act_run browser
             [Call Init; UpdateConfig updates; Call (Capture draw (AnError "a" None) None)]
             (s0.1, s0.2, []) in
  ∃ bq, batchQueue s.1.1 = Some bq
        ∧ BatchQueue.batchSize (BatchQueue.config bq) = 10
        ∧ BatchQueue.size bq = 1
        ∧ (Config.report (config s.1.1) ≫= ReportConfig.batchSize) = Some 1.
Proof.
  intros s0 updates s.
  destruct (batchQueue s.1.1) as [bq|] eqn:Hbq; [|by vm_compute in Hbq].
  exists bq. split; [done|].
  destruct (queue_config_is_fixed browser minimal_input "s" fresh_env
              [Call Init; UpdateConfig updates; Call (Capture draw (AnError "a" None) None)]
              bq Hbq) as (bq0 & Hbq0 & Hc & _).
  rewrite Hc. revert Hbq0 Hbq. vm_compute. intros [= <-] [= <-]. done.
Defined.

Lemma batching_bypasses_store_witness :
  let s0 := new browser_offline minimal_input "s" fresh_env in
  let s := act_run browser_offline
             [Call Init; Call Offline; Call (Capture draw (AnError "a" None) None);
              Call (Capture draw (AnError "b" None) None); Call PageHide]
             (s0.1, s0.2, []) in
  length (OfflineCache.heap (disk s.1.2)) = 0.
Proof.
  apply (batching_bypasses_store browser_offline minimal_input "s" fresh_env).
  discriminate.
Defined.

Section Afterlife.

Variable host : Host.t.

Implicit Types (m : t) (e : env).


Lemma destroy_frame m e :
  let r := destroy host m e in
  config r.1 = config m ∧ isInitialized r.1 = false ∧ plugins r.1 = []
  ∧ batchQueue r.1 = None ∧ offlineCache r.1 = None
  ∧ OfflineCache.heap (disk r.2) = OfflineCache.heap (disk e)
  ∧ OfflineCache.attempts (disk r.2) = OfflineCache.attempts (disk e)
  ∧ (∀ oc, offlineCache m = Some oc → detached r.2 = Some oc).
Proof.
  unfold destroy. cbv zeta.
  destruct (match batchQueue m with Some _ => _ | None => _ end) as [window1 wire1].
  destruct (RingBuffer.clear (breadcrumbs m) (arrays e)) as [ring arrays1].
  cbn [fst snd config isInitialized plugins batchQueue offlineCache disk detached].
  repeat split; try done; [| |by intros oc ->].
  - destruct (offlineCache m) as [oc|]; [|done].
    unfold OfflineCache.destroy. by rewrite OfflineCacheFacts.saveToStorage_heap.
  - destruct (offlineCache m) as [oc|]; [|done].
    unfold OfflineCache.destroy. by rewrite OfflineCacheFacts.saveToStorage_attempts.
Qed.

(** *** The cached reports wait for the [online] signal *)

Lemma untouched_same m e m' e' :
  offlineCache m' = offlineCache m → disk e' = disk e → untouched m e m' e'.
Proof. intros Ho Hd. unfold untouched. rewrite Ho, Hd. repeat split; eauto. Qed.

Lemma untouched_refl m e : untouched m e m e.
Proof. by apply untouched_same. Qed.

Lemma kept_untouched m e m' e' :
  batchQueue m ≠ None ∨ offlineCache m = None →
  kept m e m' e' → untouched m e m' e'.
Proof.
  intros Hpre (_ & _ & _ & Hq & Hn & Hs).
  destruct (batchQueue m) as [bq|] eqn:Ebq.
  - destruct (Hq bq eq_refl) as (bq' & _ & _ & Hoc & Hd).
    unfold untouched. rewrite Hd, Hoc. repeat split; eauto.
  - destruct Hpre as [?|Hoc]; [done|]. destruct (Hs Hoc) as [Hoc' Hd].
    unfold untouched. rewrite Hd, Hoc'. repeat split; try done.
Qed.

Lemma act_step_untouched a m e log :
  not_online a = true →
  batchQueue m ≠ None ∨ offlineCache m = None →
  untouched m e (act_step host a (m, e, log)).1.1 (act_step host a (m, e, log)).1.2.
Proof.
  intros Ha Hpre.
  destruct a as [c|updates|pattern|rate|rate|user]; cbn [act_step fst snd];
    try (by apply untouched_same).
  destruct c as [|p| | |now crumb|d err options|d message stack options
                 |d message level options|now data| |id| | |]; cbn [api_step];
    try done; try (by apply untouched_same).
  - unfold init. by destruct (isInitialized m); apply untouched_same.
  - unfold addBreadcrumb.
    destruct (RingBuffer.push (breadcrumbs m) _ (arrays e)) as [ring arrays1].
    by apply untouched_same.
  - destruct (capture_frame host d err options m e) as [Hk _].
    destruct (capture host d err options m e) as [[[m1 e1] c1] f1].
    by apply kept_untouched.
  - unfold captureError.
    destruct (capture_frame host d (AnError message stack) options m e) as [Hk _].
    destruct (capture host d _ options m e) as [[[m1 e1] c1] f1].
    by apply kept_untouched.
  - unfold captureMessage.
    match goal with
    | |- context [capture host d ?r ?o m e] =>
        destruct (capture_frame host d r o m e) as [Hk _];
        destruct (capture host d r o m e) as [[[m1 e1] c1] f1]
    end.
    by apply kept_untouched.
  - destruct (report_frame host now data m e) as [Hk _].
    destruct (report host now data m e) as [[m1 e1] c1].
    by apply kept_untouched.
  - destruct (destroy_frame m e) as (_ & _ & _ & _ & Hoc & Hh & Hat & _).
    destruct (destroy host m e) as [m1 e1]. cbn [fst snd] in *.
    unfold untouched. rewrite Hoc. by repeat split.
  - destruct (on_queue_frame m e
                (BatchQueue.fire (sendBatchToServer host (config m)) id)
                (λ bq we w, BatchQueueFacts.fire_config _ id bq we w)) as [Hk _].
    by apply kept_untouched.
  - destruct (on_queue_frame m e
                (BatchQueue.flush (sendBatchToServer host (config m)))
                (λ bq we w, BatchQueueFacts.flush_config _ bq we w)) as [Hk _].
    by apply kept_untouched.
  - unfold on_store. destruct (offlineCache m) as [oc|] eqn:Eoc.
    + unfold untouched. cbn [fst snd disk offlineCache].
      repeat split; try done. intros oc' [= <-]. eauto.
    + destruct (detached e) as [oc|]; [|apply untouched_refl].
      by apply untouched_same.
Qed.

Lemma untouched_trans m e m1 e1 m2 e2 :
  untouched m e m1 e1 → untouched m1 e1 m2 e2 → untouched m e m2 e2.
Proof.
  intros (Hh1 & Ha1 & Ho1) (Hh2 & Ha2 & Ho2). unfold untouched.
  rewrite Hh2, Hh1, Ha2, Ha1. repeat split; try done.
  intros oc2 H2. destruct (Ho2 oc2 H2) as (oc1 & H1 & E2).
  destruct (Ho1 oc1 H1) as (oc & H0 & E1). exists oc. split; [done|]. congruence.
Qed.

Lemma act_run_untouched acts : ∀ m e log,
  forallb not_online acts = true →
  batchQueue m ≠ None →
  untouched m e (act_run host acts (m, e, log)).1.1 (act_run host acts (m, e, log)).1.2.
Proof.
  induction acts as [|a acts IH] using rev_ind; intros m e log Hq Hbq.
  - apply untouched_refl.
  - rewrite forallb_app in Hq. apply andb_true_iff in Hq as [H1 H2].
    simpl in H2. rewrite andb_true_r in H2.
    rewrite act_run_snoc. specialize (IH m e log H1 Hbq).
    destruct (act_run_follows host acts m e log) as (_ & Hn & _).
    destruct (act_run host acts (m, e, log)) as [[m1 e1] log1]. cbn [fst snd] in *.
    eapply untouched_trans; [exact IH|]. apply act_step_untouched; [done|].
    destruct (batchQueue m1) as [bq1|] eqn:E1; [by left|].
    destruct (Hn eq_refl) as [?|?]; [done|by right].
Qed.

Lemma new_attempts input session e0 :
  OfflineCache.attempts (disk (new host input session e0).2)
  = OfflineCache.attempts (disk e0).
Proof.
  unfold new.
  destruct (RingBuffer.new BREADCRUMBS_MAX_SIZE (arrays e0)) as [ring arrays1].
  unfold OfflineCache.new, OfflineCache.loadFromStorage.
  destruct (OfflineCache.storage (disk e0)) as [st|]; [|done].
  by destruct (OfflineCache.item st) as [[items|]|].
Qed.

End Afterlife.




(** X23.  On a monitor constructed with a [report] configuration the
    cached reports restored from an earlier page wait for the [online]
    signal: as long as that signal does not come, whatever else is
    done, none of them is attempted, changed or dropped. *)
Theorem restored_reports_wait_for_online (host : Host.t) (input : ConfigInput.t)
    (session : string) (e0 : env) (acts : list action) :
  ConfigInput.report input ≠ Present None →
  forallb not_online acts = true →
  let s0 := new host input session e0 in
  let s := act_run host acts (s0.1, s0.2, []) in
  OfflineCache.heap (disk s.1.2) = OfflineCache.heap (disk s0.2)
  ∧ OfflineCache.attempts (disk s.1.2) = OfflineCache.attempts (disk e0)
  ∧ ∀ oc', offlineCache s.1.1 = Some oc' →
      ∃ oc, offlineCache s0.1 = Some oc
            ∧ OfflineCache.cacheQueue oc' = OfflineCache.cacheQueue oc.
Proof.
  intros Hin Hq s0 s.
  destruct (new_frame host input session e0) as (_ & _ & Hbq).
  destruct (act_run_untouched host acts s0.1 s0.2 [] Hq (Hbq Hin)) as (Hh & Ha & Ho).
  fold s in Hh, Ha, Ho. split; [exact Hh|]. split; [|exact Ho].
  rewrite Ha. apply new_attempts.
Qed.

Lemma restored_reports_wait_for_online_witness :
  let e0 := mkEnv [] (BatchQueue.mkEnv [] 1 [])
              (OfflineCache.mkEnv []
                 (Some (OfflineCache.mkStorage
                          (Some (OfflineCache.Json
                                   [OfflineCache.mkCached
                                      (ErrorReport.mk "app" 1 "s0" "e0" custom (Some error)
                                         "old" None (Context.mk "" "" (0, 0) None ∅) [] ∅)
                                      1 0]))
                          false []))
                 [])
              [] ∅ None in
  let s0 := new browser minimal_input "s" e0 in
  let s := act_run browser
             [Call Init; Call (Capture draw (AnError "a" None) None); Call PageHide;
              Call Offline; Call (Capture draw (AnError "b" None) None)]
             (s0.1, s0.2, []) in
  length (OfflineCache.heap (disk s.1.2)) = 1
  ∧ OfflineCache.attempts (disk s.1.2) = [].
Proof.
  intros e0 s0 s.
  destruct (restored_reports_wait_for_online browser minimal_input "s" e0
              [Call Init; Call (Capture draw (AnError "a" None) None); Call PageHide;
               Call Offline; Call (Capture draw (AnError "b" None) None)])
    as (Hh & Ha & _); [discriminate|reflexivity|].
  fold s0 s in Hh, Ha. split; [by rewrite Hh|exact Ha].
Defined.

End ErrorMonitorFacts.

Module LoggerFacts.
Import Logger.


End LoggerFacts.

Module PerformanceMonitorFacts.
Import PerformanceMonitor.

Section Facts.

Context {num : Type}.
Variable minus : num -> num -> num.
Variable average maximum minimum : list num -> num.

Implicit Types (p : t num) (o : op num) (c : tally).

Lemma perf_run_snoc (ops : list (op num)) o p :
  run minus average maximum minimum (ops ++ [o]) p
  = step minus average maximum minimum o (run minus average maximum minimum ops p).
Proof. unfold run. by rewrite foldl_app. Qed.

Lemma tally_of_snoc (ops : list (op num)) o :
  tally_of (ops ++ [o]) = count (tally_of ops) o.
Proof. unfold tally_of. by rewrite foldl_app. Qed.

Lemma new_shows : shows (mkTally 0 0 0) (new (num := num)).
Proof. by repeat split. Qed.

Lemma step_shows c o p :
  shows c p → shows (count c o) (step minus average maximum minimum o p).
Proof.
  intros (Hp & Hs & Hf & Hep & Hup).
  destruct o as [now|now|now startTime md|now startTime success md|mem|]; cbn [step count].
  - by repeat split.
  - unfold endInit. destruct (initStartTime p); by repeat split.
  - unfold recordErrorProcessing, updateErrorProcessingMetrics.
    cbn [errorProcessingTimes].
    destruct (errorProcessingTimes p ++ [minus now startTime]) as [|x times] eqn:E.
    { by destruct (errorProcessingTimes p). }
    assert (length (x :: times) = S (processed c)) as Hlen.
    { rewrite <- E, length_app. simpl. lia. }
    unfold shows.
    cbn [errorProcessingTimes uploadTimes failedUploads metrics errorProcessing
         upload_metrics processed succeeded failed fmap option_fmap option_map totalErrors].
    rewrite Hlen. repeat split; try done.
  - unfold recordUpload, updateUploadMetrics. cbn [uploadTimes].
    destruct success.
    + destruct (uploadTimes p ++ [minus now startTime]) as [|x times] eqn:E.
      { by destruct (uploadTimes p). }
      assert (length (x :: times) = S (succeeded c)) as Hlen.
      { rewrite <- E, length_app. simpl. lia. }
      unfold shows.
      cbn [errorProcessingTimes uploadTimes failedUploads metrics errorProcessing
           upload_metrics processed succeeded failed fmap option_fmap option_map
           totalUploads upload_failedUploads].
      rewrite Hlen, Hf. repeat split; try done.
    + destruct (uploadTimes p) as [|x times] eqn:E.
      * assert (succeeded c = 0) as Hz by (simpl in Hs; lia).
        unfold shows.
        cbn [errorProcessingTimes uploadTimes failedUploads metrics errorProcessing
             upload_metrics processed succeeded failed].
        rewrite Hz in Hup |- *. rewrite Hf.
        repeat split; try done.
      * assert (succeeded c ≠ 0) as Hnz by (simpl in Hs; lia).
        unfold shows.
        cbn [errorProcessingTimes uploadTimes failedUploads metrics errorProcessing
             upload_metrics processed succeeded failed fmap option_fmap option_map
             totalUploads upload_failedUploads].
        rewrite Hf. destruct (decide (succeeded c = 0)) as [|_]; [done|].
        rewrite <- Hs. by repeat split.
  - unfold getMetrics. destruct mem; by repeat split.
  - apply new_shows.
Qed.

Lemma run_shows (ops : list (op num)) :
  shows (tally_of ops) (run minus average maximum minimum ops new).
Proof.
  induction ops as [|o ops IH] using rev_ind; [apply new_shows|].
  rewrite perf_run_snoc, tally_of_snoc. by apply step_shows.
Qed.

End Facts.

(** X25.  Whatever is recorded on a new performance monitor, its metrics
    count what was recorded since the last [clear]: the error
    processings, once there is one; and the uploads, but only once an
    upload has succeeded: until then the upload metrics stay
    undefined however many uploads fail, and afterwards [totalUploads]
    counts the uploads that succeeded only, [failedUploads] the
    others. *)
Theorem metrics_count_records {num : Type} (minus : num -> num -> num)
    (average maximum minimum : list num -> num) (ops : list (op num)) :
  let p := run minus average maximum minimum ops new in
  let c := tally_of ops in
  totalErrors <$> errorProcessing (metrics p)
  = (if decide (processed c = 0) then None else Some (processed c))
  ∧ (λ u, (totalUploads u, upload_failedUploads u)) <$> upload_metrics (metrics p)
    = (if decide (succeeded c = 0) then None else Some (succeeded c, failed c))
  ∧ failedUploads p = failed c.
Proof.
  intros p c.
  destruct (run_shows minus average maximum minimum ops) as (_ & _ & Hf & Hep & Hup).
  by repeat split.
Qed.

(** X26.  [getRecentEntries(count)] returns the last [count] entries for
    a positive [count], all of them when there are fewer; for a
    [count] of zero it returns all the entries, not none; for a
    negative [count] it drops that many entries from the front. *)
Theorem recent_entries_of_zero_are_all {num : Type} (count : Z) (p : t num) :
  (0 < count → getRecentEntries count p
               = drop (length (entries p) - Z.to_nat count) (entries p))%Z
  ∧ (count = 0%Z → getRecentEntries count p = entries p)
  ∧ (count < 0 → getRecentEntries count p = drop (Z.to_nat (- count)) (entries p))%Z.
Proof.
  unfold getRecentEntries, slice. repeat split.
  - intros Hc. rewrite decide_True by lia. f_equal. lia.
  - intros ->. rewrite decide_False by lia. by rewrite Z.min_l by lia.
  - intros Hc. rewrite decide_False by lia.
    destruct (decide (- count ≤ Z.of_nat (length (entries p)))%Z).
    + by rewrite Z.min_l by lia.
    + rewrite Z.min_r by lia. rewrite Nat2Z.id.
      rewrite drop_all. symmetry. apply drop_ge. lia.
Qed.

End PerformanceMonitorFacts.

Module ErrorMonitorWebFacts.
Import ErrorMonitor.

(** X27.  The [level] given to [captureMessage] of the web monitor does
    not become the level of the report: on a monitor without plugins
    the report has the level ['error'] and carries the given level
    (['info'] when none is given) in its [extra], under the key
    [level], with the message as given. *)
Theorem web_message_level_goes_to_extra (host : Host.t) (d : Draw.t)
    (message : string) (level : option string) (m : t) (e : env) (r : ErrorReport.t) :
  plugins m = [] →
  (ErrorMonitorWeb.captureMessage host d message level m e).2 = Reported r →
  ErrorReport.level r = Some error
  ∧ ErrorReport.message r = message
  ∧ ErrorReport.extra r !! "level" = Some (default "info" level).
Proof.
  intros Hps. unfold ErrorMonitorWeb.captureMessage, capture.
  destruct (negb (isInitialized m)); [done|].
  case_decide; [done|].
  destruct (filter_check _ _ _ _) as [[|] regexps1]; [done|].
  destruct (_ && _); [done|].
  rewrite Hps. cbn [beforeCapture_loop afterCapture_loop resolve normalize
    default user_missing CaptureOptions.user].
  destruct (report host _ _ m _) as [[? ?] ?]. cbn [snd].
  intros [= <-]. cbn [build_report ErrorReport.level ErrorReport.message
    ErrorReport.extra ErrorType.message ErrorType.context CaptureOptions.level
    CaptureOptions.extra default spread_prop].
  by repeat split.
Qed.

Lemma web_message_level_goes_to_extra_witness :
  let s0 := new Examples.browser Examples.minimal_input "s" Examples.fresh_env in
  ∃ r, (ErrorMonitorWeb.captureMessage Examples.browser Examples.draw "slow" (Some "warn")
          (init s0.1) s0.2).2 = Reported r
       ∧ ErrorReport.level r = Some error
       ∧ ErrorReport.message r = "slow"
       ∧ ErrorReport.extra r !! "level" = Some "warn".
Proof.
  intros s0.
  destruct (ErrorMonitorWeb.captureMessage Examples.browser Examples.draw "slow"
              (Some "warn") (init s0.1) s0.2) as [[[m1 e1] c1] f1] eqn:E.
  assert (∃ r, f1 = Reported r) as [r ->].
  { revert E. vm_compute. intros [= _ _ _ <-]. eauto. }
  exists r. split; [done|].
  apply (web_message_level_goes_to_extra Examples.browser Examples.draw "slow"
           (Some "warn") (init s0.1) s0.2 r); [reflexivity|by rewrite E].
Defined.

End ErrorMonitorWebFacts.

(** ** Reports that wait in the store *)

Module OfflineCacheRetryFacts.
Import OfflineCache OfflineCacheFacts.

Section Failing.

Context {Report W : Type}.
Variable sender : Report -> W -> W * outcome.
Hypothesis fails : ∀ r w, (sender r w).2 ≠ Resolves.

Implicit Types (c : t) (e : env Report) (w : W) (a : nat)
  (q : list nat) (h : list (CachedReport Report)).

Lemma attempt_all_fails todo h : ∀ w a o,
  (a, o) ∈ (attempt_all sender todo h w).1 → o ≠ Resolves.
Proof using fails.
  induction todo as [|b rest IH]; intros w a o; simpl.
  { intros Hin. by apply elem_of_nil in Hin. }
  destruct (h !! b) as [cr|]; [|by apply IH].
  pose proof (fails (report cr) w) as Hf.
  destruct (sender (report cr) w) as [w1 o1].
  destruct (attempt_all sender rest h w1) as [outs w2] eqn:E. cbn [fst snd] in *.
  intros Hin. apply elem_of_cons in Hin as [[= -> ->]|Hin]; [done|].
  apply (IH w1 a o). by rewrite E.
Qed.

Lemma survivors_all_fail (outs : list (nat * outcome)) h n :
  (∀ a o, (a, o) ∈ outs →
          o ≠ Resolves ∧ ∃ cr, h !! a = Some cr ∧ retryCount cr = n) →
  survivors outs h = if decide (n < retryLimit) then outs.*1 else [].
Proof.
  induction outs as [|[a o] outs IH]; intros Hall.
  { by destruct (decide _). }
  destruct (Hall a o ltac:(by left)) as (Ho & cr & Hcr & Hn).
  unfold survivors in *. cbn [omap list_omap fst snd]. rewrite Hcr.
  cbn [mbind option_bind]. rewrite IH by (intros b o' Hin; apply Hall; by right).
  unfold drops. rewrite Hn.
  destruct (decide (n < retryLimit)) as [Hlt|Hge].
  - rewrite bool_decide_eq_false_2 by lia. by destruct o.
  - rewrite bool_decide_eq_true_2 by lia. by destruct o.
Qed.

Lemma contents_bumped q h h' :
  (∀ a, a ∈ q → ∃ cr, h !! a = Some cr ∧ h' !! a = Some (bump cr)) →
  report <$> contents q h' = report <$> contents q h.
Proof.
  induction q as [|a q IH]; intros Hall; [done|].
  destruct (Hall a ltac:(by left)) as (cr & Hcr & Hcr').
  unfold contents in *. cbn [omap list_omap]. rewrite Hcr, Hcr'.
  cbn [fmap list_fmap]. f_equal. apply IH. intros b Hb. apply Hall. by right.
Qed.

(** A pass in which every attempt fails, on a queue whose reports have
    all failed [n] times. *)
Lemma flush_all_fail n c e w :
  wf c e → tried n c e →
  cacheQueue (flush sender c e w).1.1
  = (if decide (n < retryLimit) then cacheQueue c else [])
  ∧ (∀ a, a ∈ cacheQueue c →
          ∃ cr, heap e !! a = Some cr
                ∧ heap (flush sender c e w).1.2 !! a = Some (bump cr)).
Proof using fails.
  intros Hwf Htried. pose proof Hwf as [Hnd Hb].
  pose proof (attempt_all_fst sender (cacheQueue c) (heap e) w Hb) as Hfst.
  split.
  - rewrite flush_survivors by done. rewrite (survivors_all_fail _ _ n).
    + by rewrite Hfst.
    + intros a o Hin. split; [by eapply attempt_all_fails|].
      assert (a ∈ cacheQueue c) as Ha.
      { rewrite <- Hfst. apply list_elem_of_fmap. by exists (a, o). }
      destruct (lookup_lt_is_Some_2 (heap e) a (Hb _ Ha)) as [cr Hcr].
      exists cr. split; [done|]. by eapply Htried.
  - intros a Ha.
    destruct (lookup_lt_is_Some_2 (heap e) a (Hb _ Ha)) as [cr Hcr].
    exists cr. split; [done|].
    assert (cacheQueue c ≠ []) as Hne.
    { intros E. rewrite E in Ha. by apply elem_of_nil in Ha. }
    rewrite flush_pass by done. cbn [fst snd]. rewrite saveToStorage_heap.
    destruct (retry_loop_spec sender (cacheQueue c) c e w [] Hnd Hb Hnd)
      as [_ _ _ _ _ _ _ Hdone _ _].
    assert (a ∈ (attempt_all sender (cacheQueue c) (heap e) w).1.*1) as Hin
      by by rewrite Hfst.
    apply list_elem_of_fmap in Hin as ([a' o] & -> & Hin). cbn [fst] in *.
    rewrite (Hdone a' o cr Hin Hcr).
    pose proof (attempt_all_fails _ _ _ _ _ Hin). by destruct o.
Qed.

(** The state after [k] passes in which every attempt fails, from a
    state whose queued reports have not failed before. *)
Lemma passes_all_fail c e w k :
  wf c e → tried 0 c e →
  let s := run sender (replicate k RetryPass) (c, e, w) in
  wf s.1.1 s.1.2
  ∧ attempts s.1.2
    = attempts e
      ++ concat (replicate (k `min` 4) (report <$> contents (cacheQueue c) (heap e)))
  ∧ cacheQueue s.1.1 = (if decide (k < 4) then cacheQueue c else [])
  ∧ (k < 4 →
     tried k s.1.1 s.1.2
     ∧ report <$> contents (cacheQueue c) (heap s.1.2)
       = report <$> contents (cacheQueue c) (heap e)).
Proof using fails.
  intros Hwf Htried. induction k as [|k IH].
  { simpl. rewrite app_nil_r. done. }
  cbv zeta in *. rewrite replicate_S_end, store_run_snoc.
  destruct (run sender (replicate k RetryPass) (c, e, w)) as [[c1 e1] w1].
  cbn [fst snd step] in *.
  destruct IH as (Hwf1 & Hatt & Hq & Hk).
  destruct (flush_spec sender c1 e1 w1 Hwf1) as (_ & _ & _ & _ & Hatt').
  split; [by apply flush_wf|].
  destruct (decide (k < 4)) as [Hlt|Hge].
  - destruct (Hk Hlt) as [Htr Hrep].
    destruct (flush_all_fail k c1 e1 w1 Hwf1 Htr) as [Hq' Hheap].
    rewrite Hatt', Hatt, Hq, Hrep, Hq'. unfold retryLimit.
    replace (S k `min` 4) with (S (k `min` 4)) by lia.
    rewrite replicate_S_end, concat_app. cbn [concat]. rewrite app_nil_r, <- app_assoc.
    split; [done|]. split.
    { destruct (decide (k < 3)), (decide (S k < 4)); try done; lia. }
    intros Hlt'. split.
    + intros a cr' Ha Hcr'. rewrite Hq' in Ha. unfold retryLimit in Ha.
      rewrite decide_True in Ha by lia.
      destruct (Hheap a Ha) as (cr & Hcr & Hb).
      rewrite Hb in Hcr'. inversion Hcr'; subst. simpl. f_equal. by eapply Htr.
    + rewrite <- Hrep. apply contents_bumped. by rewrite <- Hq.
  - rewrite flush_empty by done. cbn [fst snd]. rewrite Hatt.
    replace (S k `min` 4) with (k `min` 4) by lia.
    split; [done|]. rewrite decide_False by lia. split; [done|]. lia.
Qed.

End Failing.

Section Fresh.

Context {Report W : Type}.
Variable sender : Report -> W -> W * outcome.

Implicit Types (c : t) (e : env Report) (w : W).

Lemma new_tried (cfg : OfflineCacheConfig) onLine e :
  (∀ st, storage e = Some st → stored_items st = []) →
  tried 0 (new cfg onLine e).1 (new cfg onLine e).2.
Proof.
  intros Hst a cr Ha.
  assert (cacheQueue (new cfg onLine e).1 = []) as Hq.
  { pose proof (new_contents cfg onLine e) as Hc.
    pose proof (new_wf cfg onLine e) as [_ Hb].
    destruct (cacheQueue (new cfg onLine e).1) as [|b q]; [done|].
    destruct (lookup_lt_is_Some_2 _ b (Hb b ltac:(by left))) as [cr' Hcr'].
    unfold contents in Hc. cbn [omap list_omap] in Hc. rewrite Hcr' in Hc.
    destruct (storage e) as [st|]; [rewrite (Hst st eq_refl) in Hc|]; done. }
  rewrite Hq in Ha. by apply elem_of_nil in Ha.
Qed.

Lemma cache_tried now x c e :
  wf c e → tried 0 c e → tried 0 (cache now x c e).1 (cache now x c e).2.
Proof.
  intros [Hnd Hb] Htr.
  destruct (enabled (config c)) eqn:En; [|by rewrite cache_disabled].
  rewrite cache_enabled by done. unfold tried. cbn [fst snd cacheQueue].
  rewrite saveToStorage_heap. cbn [heap].
  intros a cr Ha Hcr.
  assert (a ∈ cacheQueue c ++ [length (heap e)]) as Ha'.
  { destruct (decide _); [|done]. by eapply elem_of_sublist, sublist_drop. }
  apply elem_of_app in Ha' as [Ha'|Ha'].
  - rewrite lookup_app_l in Hcr by by apply Hb. by eapply Htr.
  - apply list_elem_of_singleton in Ha' as ->.
    rewrite lookup_app_r, Nat.sub_diag in Hcr by lia. by inversion Hcr.
Qed.

Lemma caches_tried (items : list (nat * Report)) : ∀ c e w,
  wf c e → tried 0 c e →
  let s := run sender ((λ p, Cache p.1 p.2) <$> items) (c, e, w) in
  wf s.1.1 s.1.2 ∧ tried 0 s.1.1 s.1.2.
Proof.
  induction items as [|[now x] items IH]; intros c e w Hwf Htr; [done|].
  cbn [fmap list_fmap fst snd]. rewrite store_run_cons. cbn [step].
  destruct (cache_spec now x c e Hwf) as (_ & _ & _ & _ & Hwf' & _).
  pose proof (cache_tried now x c e Hwf Htr).
  destruct (cache now x c e) as [c1 e1]. by apply IH.
Qed.

End Fresh.

(** *** What [cache] leaves queued *)

Section Contents.

Context {Report : Type}.

Implicit Types (c : t) (e : env Report) (x : Report) (a b : nat)
  (q : list nat) (h : list (CachedReport Report)).

Lemma contents_drop q : ∀ h,
  (∀ a, a ∈ q → a < length h) →
  length (contents q h) = length q ∧ contents (drop 1 q) h = drop 1 (contents q h).
Proof.
  induction q as [|a q IH]; intros h Hb; [done|].
  destruct (IH h) as [Hl _]; [intros b Hin; apply Hb; by right|].
  unfold contents in *. cbn [omap list_omap].
  destruct (lookup_lt_is_Some_2 h a (Hb a ltac:(by left))) as [cr ->].
  simpl. rewrite drop_0. split; [by rewrite Hl|done].
Qed.

Lemma cache_contents now x c e :
  wf c e → enabled (config c) = true →
  contents (cacheQueue (cache now x c e).1) (heap (cache now x c e).2)
  = if decide (maxCacheSize (config c)
               < length (contents (cacheQueue c) (heap e) ++ [mkCached x now 0]))
    then drop 1 (contents (cacheQueue c) (heap e) ++ [mkCached x now 0])
    else contents (cacheQueue c) (heap e) ++ [mkCached x now 0].
Proof.
  intros [Hnd Hb] Hen. rewrite cache_enabled by done. cbn [fst snd cacheQueue].
  rewrite saveToStorage_heap. cbn [heap].
  assert (Hall : contents (cacheQueue c ++ [length (heap e)])
                          (heap e ++ [mkCached x now 0])
                 = contents (cacheQueue c) (heap e) ++ [mkCached x now 0]).
  { unfold contents. rewrite omap_app. cbn [omap list_omap].
    rewrite lookup_app_r, Nat.sub_diag by lia. simpl. f_equal.
    apply contents_ext. intros a Ha. rewrite lookup_app_l; [done|by apply Hb]. }
  assert (Hvalid : ∀ a, a ∈ cacheQueue c ++ [length (heap e)] →
                        a < length (heap e ++ [mkCached x now 0])).
  { intros a Ha. rewrite length_app. simpl.
    apply elem_of_app in Ha as [Ha|Ha]; [apply Hb in Ha; lia|].
    apply list_elem_of_singleton in Ha. lia. }
  destruct (contents_drop _ _ Hvalid) as [Hlen Hdrop].
  rewrite <- Hall, Hlen.
  case_decide; [exact Hdrop|done].
Qed.

End Contents.


(** X28.  A store is made on a page whose storage holds no cached
    reports, and reports are cached.  If every attempt fails, each of
    the first four retry passes attempts all of them in queue order,
    the fourth pass empties the queue, and later passes attempt
    nothing. *)
Theorem failing_reports_tried_four_times {Report W : Type}
    (sender : Report -> W -> W * outcome) (cfg : OfflineCacheConfig)
    (onLine : option bool) (e0 : env Report) (w0 : W)
    (items : list (nat * Report)) (k : nat) :
  (∀ r w, (sender r w).2 ≠ Resolves) →
  (∀ st, storage e0 = Some st → stored_items st = []) →
  let s0 := run sender ((λ p, Cache p.1 p.2) <$> items) (new cfg onLine e0, w0) in
  let s := run sender (replicate k RetryPass) s0 in
  attempts s.1.2
  = attempts s0.1.2
    ++ concat (replicate (k `min` 4)
                 (report <$> contents (cacheQueue s0.1.1) (heap s0.1.2)))
  ∧ cacheQueue s.1.1 = if decide (k < 4) then cacheQueue s0.1.1 else [].
Proof.
  intros Hfail Hst s0 s.
  destruct (caches_tried sender items (new cfg onLine e0).1 (new cfg onLine e0).2 w0
              (new_wf cfg onLine e0) (new_tried cfg onLine e0 Hst)) as [Hwf Htr].
  replace ((new cfg onLine e0).1, (new cfg onLine e0).2) with (new cfg onLine e0)
    in Hwf, Htr by by destruct (new cfg onLine e0).
  fold s0 in Hwf, Htr. unfold s. clearbody s0. clear s.
  destruct s0 as [[c e] w]. cbn [fst snd] in *.
  destruct (passes_all_fail sender Hfail c e w k Hwf Htr) as (_ & Hatt & Hq & _).
  done.
Qed.

Lemma failing_reports_tried_four_times_witness :
  let s0 := run Examples.failing [Cache 1 "a"; Cache 2 "b"]
              (new (mkConfig 100 true "k") (Some false) Examples.fresh_disk, tt) in
  let s := run Examples.failing (replicate 6 RetryPass) s0 in
  attempts s.1.2
  = attempts s0.1.2
    ++ concat (replicate (6 `min` 4)
                 (report <$> contents (cacheQueue s0.1.1) (heap s0.1.2)))
  ∧ cacheQueue s.1.1 = if decide (6 < 4) then cacheQueue s0.1.1 else [].
Proof.
  apply (failing_reports_tried_four_times Examples.failing (mkConfig 100 true "k")
           (Some false) Examples.fresh_disk tt [(1, "a"); (2, "b")] 6).
  - intros r w. discriminate.
  - intros st [= <-]. reflexivity.
Defined.

End OfflineCacheRetryFacts.

(** ** Captures made while offline *)

Module ErrorMonitorOfflineFacts.
Import ErrorMonitor ErrorMonitorFacts.

(** Appending and then shifting once the list is longer than [N] is
    what the ring retains. *)
Lemma shift_is_retain {T} (N : nat) (l : list T) (x : T) :
  0 < N →
  (if decide (N < length (l ++ [x])) then drop 1 (l ++ [x]) else l ++ [x])
  = RingBuffer.retain N l x.
Proof.
  intros HN. unfold RingBuffer.retain. rewrite length_app. simpl.
  destruct (decide (length l < N)).
  - by rewrite decide_False by lia.
  - rewrite decide_True by lia. destruct l as [|y l]; [simpl in *; lia|done].
Qed.

Section Offline.

Variable host : Host.t.

Implicit Types (m : t) (e : env).

Lemma report_caches now data m e oc :
  Forall (λ p, Plugin.beforeReport p = None) (plugins m) →
  batchQueue m = None → offlineCache m = Some oc →
  OfflineCache.isOnline oc = false →
  report host now data m e
  = (mk (config m) (isInitialized m) (breadcrumbs m) (plugins m) (sessionId m)
        None (Some (OfflineCache.cache now data oc (disk e)).1),
     mkEnv (arrays e) (window e) (OfflineCache.cache now data oc (disk e)).2 (wire e)
           (regexps e) (detached e),
     Returned).
Proof.
  intros Hps Hbq Hoc Hoff. unfold report.
  rewrite beforeReport_loop_none by done. cbn [resolve]. rewrite Hbq.
  unfold sendToServer. rewrite Hoc. unfold OfflineCache.send. rewrite Hoff, Hbq.
  by destruct (OfflineCache.cache now data oc (disk e)).
Qed.

Lemma cache_keeps_caching w0 att0 now data m e log c0 :
  caching w0 att0 (m, e, log) →
  caching w0 att0
    ((report host now data m e).1.1, (report host now data m e).1.2,
     log ++ [(c0, Some (Reported data))]).
Proof.
  intros (Hps & Hbq & Hw & Hat & oc & Hoc & Hoff & Hen & Hmax & Hwf & Hc).
  cbn [fst snd] in *.
  rewrite (report_caches now data m e oc) by done.
  destruct (OfflineCacheFacts.cache_spec now data oc (disk e) Hwf)
    as (Hcfg & Hon & _ & Hatt & Hwf' & _).
  pose proof (OfflineCacheRetryFacts.cache_contents now data oc (disk e) Hwf Hen) as Hcont.
  unfold caching. cbn [fst snd plugins batchQueue wire disk offlineCache].
  split; [done|]. split; [done|]. split; [done|]. split; [by rewrite Hatt|].
  exists (OfflineCache.cache now data oc (disk e)).1.
  split; [done|]. split; [by rewrite Hon|]. split; [by rewrite Hcfg|].
  split; [by rewrite Hcfg|]. split; [done|].
  rewrite Hcont, Hmax, reported_snoc. clear Hcont.
  rewrite <- RingBufferFacts.retain_last_n by lia. rewrite <- Hc.
  rewrite <- (shift_is_retain 100) by lia.
  rewrite !length_app, length_fmap. cbn [length].
  destruct (decide _); [|by rewrite fmap_app].
  by rewrite fmap_drop, fmap_app.
Qed.

Lemma caching_log w0 att0 m e e' log c0 f :
  (∀ r, f ≠ Reported r) →
  disk e' = disk e → wire e' = wire e →
  caching w0 att0 (m, e, log) → caching w0 att0 (m, e', log ++ [(c0, Some f)]).
Proof.
  intros Hf Hd Hw (Hps & Hbq & Hw0 & Hat & oc & H).
  unfold caching. cbn [fst snd] in *. rewrite Hd, Hw, reported_snoc.
  split; [done|]. split; [done|]. split; [done|]. split; [done|].
  exists oc. destruct f; rewrite ?app_nil_r; try done. by destruct (Hf assembled).
Qed.

Lemma capture_keeps_caching w0 att0 d err options m e log :
  caching w0 att0 (m, e, log) →
  caching w0 att0
    ((capture host d err options m e).1.1.1, (capture host d err options m e).1.1.2,
     log ++ [((capture host d err options m e).1.2,
              Some (capture host d err options m e).2)]).
Proof.
  intros H. unfold capture.
  destruct (negb (isInitialized m)); [by apply (caching_log _ _ _ e)|].
  case_decide; [by apply (caching_log _ _ _ e)|].
  destruct (filter_check _ _ _ _) as [[|] regexps1]; [by apply (caching_log _ _ _ e)|].
  destruct (_ && _); [by apply (caching_log _ _ _ e)|].
  destruct (beforeCapture_loop _ _ _) as [| |processed];
    [by apply (caching_log _ _ _ e)..|].
  destruct (user_missing _); [by apply (caching_log _ _ _ e)|].
  destruct (afterCapture_loop _ _) as [rep1|]; [|by apply (caching_log _ _ _ e)].
  match goal with
  | |- context [report host ?n ?r m ?e1] =>
      pose proof (cache_keeps_caching w0 att0 n r m e1 log
                    (report host n r m e1).2) as H'
  end.
  cbn [fst snd]. apply H'.
  destruct H as (Hps & Hbq & Hw0 & Hat & oc & Hrest). unfold caching.
  cbn [fst snd disk wire] in *. split; [done|]. split; [done|]. split; [done|].
  split; [done|]. by exists oc.
Qed.

Lemma api_step_caching w0 att0 c (s : t * env * list seen) :
  offline_call c = true → caching w0 att0 s → caching w0 att0 (api_step host c s).
Proof.
  destruct s as [[m e] log]. intros Hc H.
  pose proof H as (Hps & Hbq & Hw & Hat & oc & Hoc & Hoff & Hrest).
  cbn [fst snd] in *. unfold offline_call in Hc.
  destruct c as [|p| | |now crumb|d err options|d message stack options
                 |d message level options|now data| |id| | |];
    cbn [api_step]; try done.
  - unfold init. by destruct (isInitialized m).
  - unfold caching. cbn [fst snd use plugins batchQueue wire disk offlineCache].
    split; [|by eauto 10]. apply Forall_app. split; [done|]. apply Forall_singleton.
    simpl in Hc. by destruct (Plugin.beforeReport p).
  - unfold addBreadcrumb.
    by destruct (RingBuffer.push (breadcrumbs m) _ (arrays e)) as [ring arrays1].
  - pose proof (capture_keeps_caching w0 att0 d err options m e log H) as H'.
    by destruct (capture host d err options m e) as [[[m1 e1] c1] f1].
  - unfold captureError.
    pose proof (capture_keeps_caching w0 att0 d (AnError message stack) options m e log H)
      as H'.
    by destruct (capture host d _ options m e) as [[[m1 e1] c1] f1].
  - unfold captureMessage.
    match goal with
    | |- context [capture host d ?r ?o m e] =>
        pose proof (capture_keeps_caching w0 att0 d r o m e log H) as H';
        destruct (capture host d r o m e) as [[[m1 e1] c1] f1]
    end.
    exact H'.
  - unfold on_queue. by rewrite Hbq.
  - unfold on_queue. by rewrite Hbq.
  - unfold on_store. rewrite Hoc. unfold caching.
    cbn [fst snd plugins batchQueue wire disk offlineCache].
    split; [done|]. split; [done|]. split; [done|]. split; [done|].
    exists (OfflineCache.handleOffline oc). split; [done|]. split; [done|]. exact Hrest.
Qed.

Lemma api_run_caching w0 att0 calls : ∀ s : t * env * list seen,
  forallb offline_call calls = true → caching w0 att0 s →
  caching w0 att0 (api_run host calls s).
Proof.
  induction calls as [|c calls IH] using rev_ind; intros s Hc H; [done|].
  rewrite forallb_app in Hc. apply andb_true_iff in Hc as [H1 H2].
  simpl in H2. rewrite andb_true_r in H2.
  rewrite api_run_snoc. apply api_step_caching; [done|]. by apply IH.
Qed.

Lemma new_caching input session e0 :
  ConfigInput.report input = Present None →
  (∀ st, OfflineCache.storage (disk e0) = Some st → OfflineCache.stored_items st = []) →
  caching (wire e0) (OfflineCache.attempts (disk e0))
    (api_step host Offline ((new host input session e0).1, (new host input session e0).2, [])).
Proof.
  intros Hin Hst.
  pose proof (new_attempts host input session e0) as Hat.
  unfold new in *. rewrite Hin in *. cbn [spread_prop Config.report] in *.
  destruct (RingBuffer.new BREADCRUMBS_MAX_SIZE (arrays e0)) as [ring arrays1].
  pose proof (OfflineCacheFacts.new_wf (Report := ErrorReport.t)
                (OfflineCache.mkConfig 100 true ("error_monitor_cache_" +:+ ConfigInput.appId input))
                (Navigator.onLine <$> Host.navigator host) (disk e0)) as Hwf.
  pose proof (OfflineCacheFacts.new_contents (Report := ErrorReport.t)
                (OfflineCache.mkConfig 100 true ("error_monitor_cache_" +:+ ConfigInput.appId input))
                (Navigator.onLine <$> Host.navigator host) (disk e0)) as Hc.
  cbn [Config.appId] in *.
  destruct (OfflineCache.new _ _ (disk e0)) as [oc disk1] eqn:Enew.
  cbn [fst snd disk] in *.
  assert (Hcfg : OfflineCache.enabled (OfflineCache.config oc) = true
                 ∧ OfflineCache.maxCacheSize (OfflineCache.config oc) = 100).
  { revert Enew. unfold OfflineCache.new, OfflineCache.loadFromStorage.
    destruct (OfflineCache.storage (disk e0)) as [st|];
      [destruct (OfflineCache.item st) as [[items|]|]|]; by intros [= <- _]. }
  unfold caching, api_step, on_store.
  cbn [fst snd plugins batchQueue wire disk offlineCache].
  split; [done|]. split; [done|]. split; [done|]. split; [done|].
  exists (OfflineCache.handleOffline oc).
  split; [done|]. split; [done|]. split; [apply Hcfg|]. split; [apply Hcfg|].
  split; [exact Hwf|].
  cbn [OfflineCache.handleOffline OfflineCache.cacheQueue]. rewrite Hc.
  destruct (OfflineCache.storage (disk e0)) as [st|]; [|done].
  by rewrite (Hst st eq_refl).
Qed.

End Offline.

Import Examples.

(** X29.  A monitor constructed with [report: undefined] on a page whose
    storage holds no cached reports is taken offline.  While no
    [online] signal comes (and the monitor is not destroyed, [report]
    is not called directly, no plugin has a [beforeReport] hook)
    nothing is sent or attempted, and the store holds the last hundred
    reports the captures built, oldest first.  The [online] signal then
    attempts each of them once, in that order. *)
Theorem offline_captures_wait_in_order (host : Host.t) (input : ConfigInput.t)
    (session : string) (e0 : env) (calls : list call) :
  ConfigInput.report input = Present None →
  (∀ st, OfflineCache.storage (disk e0) = Some st → OfflineCache.stored_items st = []) →
  forallb offline_call calls = true →
  let s0 := new host input session e0 in
  let s1 := api_run host (Offline :: calls) (s0.1, s0.2, []) in
  let s2 := api_step host Online s1 in
  wire s1.1.2 = wire e0
  ∧ OfflineCache.attempts (disk s1.1.2) = OfflineCache.attempts (disk e0)
  ∧ (∃ oc, offlineCache s1.1.1 = Some oc
           ∧ OfflineCache.report
               <$> OfflineCache.contents (OfflineCache.cacheQueue oc)
                     (OfflineCache.heap (disk s1.1.2))
             = RingBuffer.last_n 100 (reported s1.2))
  ∧ OfflineCache.attempts (disk s2.1.2)
    = OfflineCache.attempts (disk e0) ++ RingBuffer.last_n 100 (reported s1.2).
Proof.
  intros Hin Hst Hc s0 s1 s2.
  assert (Hinv : caching (wire e0) (OfflineCache.attempts (disk e0)) s1).
  { exact (api_run_caching host (wire e0) (OfflineCache.attempts (disk e0)) calls
             _ Hc (new_caching host input session e0 Hin Hst)). }
  unfold s2. clearbody s1. clear s0 s2. destruct s1 as [[m1 e1] log1].
  destruct Hinv as (Hps & Hbq & Hw & Hat & oc & Hoc & Hoff & Hen & Hmax & Hwf & Hcont).
  cbn [fst snd] in *.
  split; [exact Hw|]. split; [exact Hat|]. split; [by eauto|].
  unfold api_step, on_store. rewrite Hoc.
  destruct (OfflineCacheFacts.handleOnline_facts
              (sendToServerDirectly host (config m1)) oc (disk e1) (wire e1) Hwf)
    as (_ & _ & Ha & _).
  destruct (OfflineCache.handleOnline _ oc (disk e1) (wire e1)) as [[oc2 disk2] wire2].
  cbn [fst snd disk] in *. by rewrite Ha, Hat, Hcont.
Qed.

Lemma offline_captures_wait_in_order_witness :
  let s0 := new browser input_report_undefined "s" fresh_env in
  let s1 := api_run browser
              [Offline; Init; Capture draw (AnError "a" None) None;
               Capture draw (AnError "b" None) None]
              (s0.1, s0.2, []) in
  let s2 := api_step browser Online s1 in
  wire s1.1.2 = []
  ∧ OfflineCache.attempts (disk s1.1.2) = []
  ∧ (∃ oc, offlineCache s1.1.1 = Some oc
           ∧ OfflineCache.report
               <$> OfflineCache.contents (OfflineCache.cacheQueue oc)
                     (OfflineCache.heap (disk s1.1.2))
             = RingBuffer.last_n 100 (reported s1.2))
  ∧ OfflineCache.attempts (disk s2.1.2) = [] ++ RingBuffer.last_n 100 (reported s1.2).
Proof.
  apply (offline_captures_wait_in_order browser input_report_undefined "s" fresh_env
           [Init; Capture draw (AnError "a" None) None;
            Capture draw (AnError "b" None) None]);
    [reflexivity|by intros st [= <-]|reflexivity].
Defined.

End ErrorMonitorOfflineFacts.
